(** * MIRTK VolumetricMapping: surface mapper lifecycle and symmetric linear solve

    A shallow embedding of [src/SurfaceMapper.cc] and
    [src/SymmetricLinearSurfaceMapper.cc].

    - VTK objects that the mapper shares by pointer (data arrays, poly data)
      live in a [Store]; the mapper holds locations into it, so aliasing
      ([_Fixed] and [_Mask] naming one array, [_Values] being attached to the
      working surface) is visible in the model.
    - [double] is kept abstract ([Double]); no algebraic law of the
      arithmetic is assumed, only that [0.0 != 0.0] is false and
      [1.0 != 0.0] is true.
    - A data array has an element type.  [SetComponent] converts the double
      it is given to that type, and [GetComponent] gives back the stored
      element as a double ([d_cast] is the two together).  Of the
      conversion it is only assumed that a double array stores every double
      as it is and that every element type stores 0.0 and 1.0 as they are.
    - [exit(1)] after a diagnostic is the [Exit] outcome; dereferencing a
      null or dangling pointer is [Undefined].
    - Point ids are naturals (they index arrays); the signed compact indices
      kept in [_PointIndex] are integers.  [vtkIdType] has 64 bits and the
      id lists are held in memory, so no index wraps around.
    - Reading or writing an array outside its range is undefined in the
      source.  In a run on a mesh whose polygons name points of the mesh
      there is one place where this can happen: the loop of [Initialize]
      that reads the fixed mask at every point id, since a mask the caller
      set is not checked against the point count before it is read.
      [Initialize] is [Undefined] when that mask has fewer tuples than the
      mesh has points.  All other reads and writes of a run are at point ids
      below the point count, in arrays of that many tuples.  The accessors
      [GetComponent] and [SetComponent] are total: outside the range they
      give 0.0 and do nothing. *)

From stdpp Require Import strings.
From stdpp Require Import base option list gmap.
From Stdlib Require Import ZArith Lia.

Local Open Scope Z_scope.

(** ** Scalars *)

(** The element types of a [vtkDataArray]. *)
Inductive ScalarType :=
  | VTK_CHAR | VTK_SIGNED_CHAR | VTK_UNSIGNED_CHAR
  | VTK_SHORT | VTK_UNSIGNED_SHORT
  | VTK_INT | VTK_UNSIGNED_INT
  | VTK_LONG | VTK_UNSIGNED_LONG
  | VTK_FLOAT | VTK_DOUBLE.

#[export] Instance ScalarType_eq_dec : EqDecision ScalarType.
Proof. solve_decision. Defined.

Class Double (T : Type) := {
  d_zero : T;
  d_one : T;
  d_add : T -> T -> T;
  d_mul : T -> T -> T;
  d_neg : T -> T;
  d_nonzero : T -> bool;      (* [x != .0] *)
  d_positive : T -> bool;     (* [x > .0]  *)
  d_cast : ScalarType -> T -> T;   (* converted to the element type, read back *)
  d_nonzero_zero : d_nonzero d_zero = false;
  d_nonzero_one : d_nonzero d_one = true;
  d_cast_double : forall x, d_cast VTK_DOUBLE x = x;
  d_cast_zero : forall t, d_cast t d_zero = d_zero;
  d_cast_one : forall t, d_cast t d_one = d_one
}.

(** The integers stand in for the doubles in the examples.  A float element
    keeps 24 significant bits of what it is given, rounded to the nearest
    value with ties to even; the other element types hold an integer as it
    is, the examples staying within their ranges. *)
Definition round_to_bits (p x : Z) : Z :=
  let a := Z.abs x in
  let e := Z.log2 a + 1 - p in
  if e <=? 0 then x
  else
    let q := Z.shiftr a e in
    let r := Z.land a (Z.ones e) in
    let half := Z.shiftl 1 (e - 1) in
    let q := if r <? half then q
             else if half <? r then q + 1
             else if Z.even q then q else q + 1 in
    Z.sgn x * Z.shiftl q e.

Definition Z_cast (t : ScalarType) (x : Z) : Z :=
  match t with
  | VTK_FLOAT => round_to_bits 24 x
  | _ => x
  end.

#[export] Instance Z_Double : Double Z := {|
  d_zero := 0; d_one := 1;
  d_add := Z.add; d_mul := Z.mul; d_neg := Z.opp;
  d_nonzero := fun x => negb (x =? 0);
  d_positive := fun x => 0 <? x;
  d_cast := Z_cast;
  d_nonzero_zero := eq_refl; d_nonzero_one := eq_refl;
  d_cast_double := fun x => eq_refl;
  d_cast_zero := fun t => match t with VTK_DOUBLE => eq_refl | _ => eq_refl end;
  d_cast_one := fun t => match t with VTK_DOUBLE => eq_refl | _ => eq_refl end
|}.

(** ** Outcomes of a call *)

Inductive Outcome (A : Type) : Type :=
  | Ok (a : A)
  | Exit (code : Z) (msg : string)
  | Undefined.
Arguments Ok {A} a.
Arguments Exit {A} code msg.
Arguments Undefined {A}.

#[export] Instance Outcome_ret : MRet Outcome := fun A a => Ok a.
#[export] Instance Outcome_bind : MBind Outcome := fun A B f c =>
  match c with
  | Ok a => f a
  | Exit code msg => Exit code msg
  | Undefined => Undefined
  end.

Definition deref {A} (o : option A) : Outcome A :=
  match o with Some a => Ok a | None => Undefined end.

(** ** vtkIdList *)

Abbreviation loc := nat (only parsing).
Abbreviation vtkIdList := (list Z) (only parsing).

(** [InsertNextId] appends and returns the position of the new id. *)
Definition InsertNextId (l : vtkIdList) (id : Z) : Z * vtkIdList :=
  (Z.of_nat (length l), l ++ [id]).

Definition SetNumberOfIds (n : nat) : vtkIdList := replicate n 0.

Definition SetId (l : vtkIdList) (i : nat) (id : Z) : vtkIdList := <[i := id]> l.

Definition GetId (l : vtkIdList) (i : nat) : Z := default 0 (l !! i).

Section Model.

Context {T : Type} `{DT : !Double T}.

(** ** vtkDataArray *)

Record DataArray := mkDataArray {
  DataType : ScalarType;
  Name : string;
  NumberOfComponents : nat;
  Tuples : list (list T)
}.

Definition GetNumberOfTuples (a : DataArray) : nat := length (Tuples a).

(** [GetComponent(i, l)] gives the stored element as a double.  The function
    is total, 0.0 outside the array; where the source can read a caller's
    array outside its range, the range is tested before the read
    ([mask_covers] in [Initialize]) and the outcome is [Undefined]. *)
Definition GetComponent (a : DataArray) (i l : nat) : T :=
  default d_zero (Tuples a !! i ≫= fun t => t !! l).

(** [SetComponent(i, l, v)] takes a double and stores it as an element of the
    array's type. *)
Definition SetComponent (a : DataArray) (i l : nat) (v : T) : DataArray :=
  mkDataArray (DataType a) (Name a) (NumberOfComponents a)
    (alter (fun t => <[l := d_cast (DataType a) v]> t) i (Tuples a)).

Definition SetName (a : DataArray) (s : string) : DataArray :=
  mkDataArray (DataType a) s (NumberOfComponents a) (Tuples a).

(** [NewInstance] gives an empty array of the same element type; [DeepCopy]
    then takes over components and tuples of the source (and its name),
    element by element when the types are the same and converted to the
    type of the destination when they are not. *)
Definition NewInstance (a : DataArray) : DataArray :=
  mkDataArray (DataType a) EmptyString (NumberOfComponents a) [].

Definition DeepCopy (dst src : DataArray) : DataArray :=
  mkDataArray (DataType dst) (Name src) (NumberOfComponents src)
    (if decide (DataType dst = DataType src) then Tuples src
     else (fun t : list T => d_cast (DataType dst) <$> t) <$> Tuples src).

(** ** vtkPolyData *)

Record Attributes := mkAttributes {
  Scalars : option loc;
  TCoords : option loc;
  Arrays : list loc
}.

Definition Attributes_Initialize : Attributes := mkAttributes None None [].

Abbreviation CellArray := (list (list nat)) (only parsing).

Record PolyData := mkPolyData {
  Points : list (T * T * T);
  Verts : CellArray;
  Lines : CellArray;
  Polys : CellArray;
  PointData : Attributes;
  CellData : Attributes;
  Links : bool
}.

Definition GetNumberOfPoints (s : PolyData) : nat := length (Points s).
Definition GetNumberOfPolys (s : PolyData) : nat := length (Polys s).

(** The copy shares points, cells and links and gets attribute sets of its
    own that refer to the same arrays. *)
Definition ShallowCopy (src : PolyData) : PolyData :=
  mkPolyData (Points src) (Verts src) (Lines src) (Polys src)
             (PointData src) (CellData src) (Links src).

Definition SetLines (c : CellArray) (s : PolyData) : PolyData :=
  mkPolyData (Points s) (Verts s) c (Polys s) (PointData s) (CellData s) (Links s).
Definition SetVerts (c : CellArray) (s : PolyData) : PolyData :=
  mkPolyData (Points s) c (Lines s) (Polys s) (PointData s) (CellData s) (Links s).
Definition SetCellData (a : Attributes) (s : PolyData) : PolyData :=
  mkPolyData (Points s) (Verts s) (Lines s) (Polys s) (PointData s) a (Links s).
Definition SetPointData (a : Attributes) (s : PolyData) : PolyData :=
  mkPolyData (Points s) (Verts s) (Lines s) (Polys s) a (CellData s) (Links s).
Definition BuildLinks (s : PolyData) : PolyData :=
  mkPolyData (Points s) (Verts s) (Lines s) (Polys s) (PointData s) (CellData s) true.

Definition SetTCoords (a : option loc) (s : PolyData) : PolyData :=
  SetPointData (mkAttributes (Scalars (PointData s)) a (Arrays (PointData s))) s.
Definition SetScalars (a : option loc) (s : PolyData) : PolyData :=
  SetPointData (mkAttributes a (TCoords (PointData s)) (Arrays (PointData s))) s.

(** ** The store of shared objects *)

Record Store := mkStore {
  arrays : list DataArray;
  meshes : list PolyData
}.

Definition new_array (a : DataArray) (h : Store) : loc * Store :=
  (length (arrays h), mkStore (arrays h ++ [a]) (meshes h)).
Definition new_mesh (s : PolyData) (h : Store) : loc * Store :=
  (length (meshes h), mkStore (arrays h) (meshes h ++ [s])).
Definition put_array (l : loc) (a : DataArray) (h : Store) : Store :=
  mkStore (<[l := a]> (arrays h)) (meshes h).
Definition put_mesh (l : loc) (s : PolyData) (h : Store) : Store :=
  mkStore (arrays h) (<[l := s]> (meshes h)).
Definition get_array (h : Store) (l : loc) : Outcome DataArray := deref (arrays h !! l).
Definition get_mesh (h : Store) (l : loc) : Outcome PolyData := deref (meshes h !! l).

(** ** The mapper object *)

Record PiecewiseLinearMap := mkPiecewiseLinearMap {
  Domain : option loc;
  Values : option loc
}.

Record SurfaceMapper := mkSurfaceMapper {
  _Mesh : option loc;
  _Input : option loc;
  _Mask : option loc;
  _Output : option PiecewiseLinearMap;
  _Surface : option loc;
  _Values : option loc;
  _Fixed : option loc;
  _FixedPoints : vtkIdList;
  _FreePoints : vtkIdList;
  _PointIndex : vtkIdList;
  _NumberOfIterations : Z;
  _Tolerance : T
}.

Definition set_Output (o : option PiecewiseLinearMap) (m : SurfaceMapper) : SurfaceMapper :=
  mkSurfaceMapper (_Mesh m) (_Input m) (_Mask m) o (_Surface m) (_Values m) (_Fixed m)
                  (_FixedPoints m) (_FreePoints m) (_PointIndex m)
                  (_NumberOfIterations m) (_Tolerance m).
Definition set_Surface (l : option loc) (m : SurfaceMapper) : SurfaceMapper :=
  mkSurfaceMapper (_Mesh m) (_Input m) (_Mask m) (_Output m) l (_Values m) (_Fixed m)
                  (_FixedPoints m) (_FreePoints m) (_PointIndex m)
                  (_NumberOfIterations m) (_Tolerance m).
Definition set_Values (l : option loc) (m : SurfaceMapper) : SurfaceMapper :=
  mkSurfaceMapper (_Mesh m) (_Input m) (_Mask m) (_Output m) (_Surface m) l (_Fixed m)
                  (_FixedPoints m) (_FreePoints m) (_PointIndex m)
                  (_NumberOfIterations m) (_Tolerance m).
Definition set_Fixed (l : option loc) (m : SurfaceMapper) : SurfaceMapper :=
  mkSurfaceMapper (_Mesh m) (_Input m) (_Mask m) (_Output m) (_Surface m) (_Values m) l
                  (_FixedPoints m) (_FreePoints m) (_PointIndex m)
                  (_NumberOfIterations m) (_Tolerance m).
Definition set_FixedPoints (l : vtkIdList) (m : SurfaceMapper) : SurfaceMapper :=
  mkSurfaceMapper (_Mesh m) (_Input m) (_Mask m) (_Output m) (_Surface m) (_Values m)
                  (_Fixed m) l (_FreePoints m) (_PointIndex m)
                  (_NumberOfIterations m) (_Tolerance m).
Definition set_FreePoints (l : vtkIdList) (m : SurfaceMapper) : SurfaceMapper :=
  mkSurfaceMapper (_Mesh m) (_Input m) (_Mask m) (_Output m) (_Surface m) (_Values m)
                  (_Fixed m) (_FixedPoints m) l (_PointIndex m)
                  (_NumberOfIterations m) (_Tolerance m).
Definition set_PointIndex (l : vtkIdList) (m : SurfaceMapper) : SurfaceMapper :=
  mkSurfaceMapper (_Mesh m) (_Input m) (_Mask m) (_Output m) (_Surface m) (_Values m)
                  (_Fixed m) (_FixedPoints m) (_FreePoints m) l
                  (_NumberOfIterations m) (_Tolerance m).

(** A mapper as the default constructor leaves it, with the public
    attributes set by the caller. *)
Definition new_mapper (mesh input mask : option loc) (niter : Z) (tol : T) : SurfaceMapper :=
  mkSurfaceMapper mesh input mask None None None None [] [] [] niter tol.

(** ** Collaborators outside the two source files *)

(** [this->NameOfType()], the prefix of every diagnostic. *)
Variable NameOfType : string.

(** Modelled from the spec: [BoundaryPoints] (mirtk/PointSetUtils.h) is not
    among the sources.  The spec has it return the points incident to a
    boundary edge, a boundary edge being an edge used by exactly one
    polygon.  The edges of a polygon join consecutive corners, cyclically. *)
Definition cell_edges (c : list nat) : list (nat * nat) :=
  match c with
  | [] => []
  | v0 :: rest => zip c (rest ++ [v0])
  end.

Definition same_edge (e e' : nat * nat) : bool :=
  (Nat.eqb e.1 e'.1 && Nat.eqb e.2 e'.2) || (Nat.eqb e.1 e'.2 && Nat.eqb e.2 e'.1).

Definition edge_uses (polys : CellArray) (e : nat * nat) : nat :=
  length (filter (fun c => Is_true (existsb (same_edge e) (cell_edges c))) polys).

Definition is_boundary_edge (polys : CellArray) (e : nat * nat) : bool :=
  Nat.eqb (edge_uses polys e) 1.

Definition on_boundary (polys : CellArray) (i : nat) : bool :=
  existsb (fun e => is_boundary_edge polys e && (Nat.eqb e.1 i || Nat.eqb e.2 i))
          (concat (cell_edges <$> polys)).

Definition BoundaryPoints (s : PolyData) : list nat :=
  filter (fun i => Is_true (on_boundary (Polys s) i)) (seq 0 (GetNumberOfPoints s)).

(** Modelled from the spec: the inline accessors of mirtk/SurfaceMapper.h are
    not among the sources.  The spec's data model has the fixed mask hold a
    flag per point, 1.0 at a fixed point and 0.0 at a free one, which
    [IsFixedPoint] reads as not 0.0 and 0.0; [_PointIndex] answer the signed
    compact index of a point, [_FreePoints] and [_FixedPoints] list the ids
    by ordinal, and [_Values] hold one tuple per point. *)
Definition IsFixedPoint (fixed : DataArray) (ptId : nat) : bool :=
  d_nonzero (GetComponent fixed ptId 0).

Definition FreePointIndex (m : SurfaceMapper) (i : nat) : Z := GetId (_PointIndex m) i.
Definition FixedPointIndex (m : SurfaceMapper) (i : nat) : Z := - GetId (_PointIndex m) i - 1.
Definition FreePointId (m : SurfaceMapper) (r : nat) : Z := GetId (_FreePoints m) r.
Definition FixedPointId (m : SurfaceMapper) (k : nat) : Z := GetId (_FixedPoints m) k.
Definition NumberOfFreePoints (m : SurfaceMapper) : nat := length (_FreePoints m).
Definition NumberOfFixedPoints (m : SurfaceMapper) : nat := length (_FixedPoints m).

(** ** SurfaceMapper.cc *)

Definition BoundaryMask_fill (n : nat) (ptIds : list nat) : DataArray :=
  fold_left (fun mask id => SetComponent mask id 0 d_one) ptIds
            (mkDataArray VTK_UNSIGNED_CHAR "FixedPoints"%string 1
               (replicate n [d_cast VTK_UNSIGNED_CHAR d_zero])).

Definition BoundaryMask (m : SurfaceMapper) (h : Store) : Outcome (loc * Store) :=
  ls ← deref (_Surface m);
  surface ← get_mesh h ls;
  Ok (new_array (BoundaryMask_fill (GetNumberOfPoints surface) (BoundaryPoints surface)) h).

Definition InitializeValues (m : SurfaceMapper) (h : Store) : Outcome (SurfaceMapper * Store) :=
  match _Input m with
  | None => Exit 1 (NameOfType +:+ "::InitializeValues: Missing boundary conditions")
  | Some li =>
      input ← get_array h li;
      let values := DeepCopy (SetName (NewInstance input) (Name input)) input in
      let '(lv, h) := new_array values h in
      Ok (set_Values (Some lv) m, h)
  end.

Definition InitializeMask (m : SurfaceMapper) (h : Store) : Outcome (SurfaceMapper * Store) :=
  ls ← deref (_Surface m);
  surface ← get_mesh h ls;
  match Scalars (PointData surface) with
  | Some lf => Ok (set_Fixed (Some lf) m, h)
  | None =>
      '(lf, h) ← BoundaryMask (set_Fixed None m) h;
      Ok (set_Fixed (Some lf) m, h)
  end.

(** The base class does not remesh. *)
Definition Remesh (m : SurfaceMapper) (h : Store) : Outcome (bool * SurfaceMapper * Store) :=
  Ok (false, m, h).

(** One turn of the loop over the point ids (lines 178-184). *)
Definition partition_step (fixed : DataArray) (m : SurfaceMapper) (ptId : nat) : SurfaceMapper :=
  if IsFixedPoint fixed ptId then
    let '(k, l) := InsertNextId (_FixedPoints m) (Z.of_nat ptId) in
    set_PointIndex (SetId (_PointIndex m) ptId (- (k + 1))) (set_FixedPoints l m)
  else
    let '(r, l) := InsertNextId (_FreePoints m) (Z.of_nat ptId) in
    set_PointIndex (SetId (_PointIndex m) ptId r) (set_FreePoints l m).

Definition partition (fixed : DataArray) (n : nat) (m : SurfaceMapper) : SurfaceMapper :=
  fold_left (partition_step fixed) (seq 0 n)
            (set_PointIndex (SetNumberOfIds n) (set_FreePoints [] (set_FixedPoints [] m))).

(** The reads [IsFixedPoint(ptId)] of the loop, for [ptId] from 0 to [n - 1],
    are all within the mask. *)
Definition mask_covers (fixed : DataArray) (n : nat) : bool :=
  Nat.leb n (GetNumberOfTuples fixed).

Definition modify_mesh (l : loc) (f : PolyData -> PolyData) (h : Store) : Outcome Store :=
  s ← get_mesh h l;
  Ok (put_mesh l (f s) h).

Definition tuples_mismatch (h : Store) (a : option loc) (n : nat) : Outcome bool :=
  match a with
  | None => Ok false
  | Some l => arr ← get_array h l; Ok (negb (Nat.eqb (GetNumberOfTuples arr) n))
  end.

Definition Initialize (m : SurfaceMapper) (h : Store) : Outcome (SurfaceMapper * Store) :=
  (* Free previous output map *)
  let m := set_Output None m in
  (* Check input *)
  match _Mesh m with
  | None => Exit 1 (NameOfType +:+ "::Initialize: Missing input surface mesh")
  | Some lm =>
      mesh ← get_mesh h lm;
      if Nat.eqb (GetNumberOfPolys mesh) 0 then
        Exit 1 (NameOfType +:+ "::Initialize: Input point set must be a surface mesh")
      else
      bad_input ← tuples_mismatch h (_Input m) (GetNumberOfPoints mesh);
      if bad_input : bool then
        Exit 1 (NameOfType +:+ "::Initialize: Invalid input map values array")
      else
      bad_fixed ← tuples_mismatch h (_Fixed m) (GetNumberOfPoints mesh);
      if bad_fixed : bool then
        Exit 1 (NameOfType +:+ "::Initialize: Invalid input mask")
      else
      (* Initialize internal surface mesh *)
      let '(ls, h) := new_mesh (ShallowCopy mesh) h in
      let m := set_Surface (Some ls) m in
      h ← modify_mesh ls (SetLines []) h;
      h ← modify_mesh ls (SetVerts []) h;
      h ← modify_mesh ls (SetCellData Attributes_Initialize) h;
      h ← modify_mesh ls (SetPointData Attributes_Initialize) h;
      (* Initialize map values at surface points *)
      '(m, h) ← InitializeValues m h;
      (* Set point data arrays for remeshing *)
      h ← modify_mesh ls (SetTCoords (_Values m)) h;
      h ← modify_mesh ls (SetScalars (_Mask m)) h;
      (* Remesh surface if necessary *)
      '(remeshed, m, h) ← Remesh m h;
      m ← (if remeshed : bool then
             surface ← get_mesh h ls; Ok (set_Values (TCoords (PointData surface)) m)
           else Ok m);
      (* Build links *)
      h ← modify_mesh ls BuildLinks h;
      (* Initialize boundary mask *)
      '(m, h) ← InitializeMask m h;
      (* Set disjoint sets of IDs of free and fixed points *)
      surface ← get_mesh h ls;
      lf ← deref (_Fixed m);
      fixed ← get_array h lf;
      (* the loop reads the mask at every point id (line 179) *)
      if mask_covers fixed (GetNumberOfPoints surface) then
        Ok (partition fixed (GetNumberOfPoints surface) m, h)
      else Undefined
  end.

Definition Finalize (m : SurfaceMapper) (h : Store) : Outcome (SurfaceMapper * Store) :=
  match _Output m with
  | None => Ok (set_Output (Some (mkPiecewiseLinearMap (_Surface m) (_Values m))) m, h)
  | Some _ => Ok (m, h)
  end.

(** ** SymmetricLinearSurfaceMapper.cc *)

(** Modelled from the spec: [EdgeTable] and [EdgeIterator] (mirtk/EdgeTable.h)
    are not among the sources.  The spec has the traversal visit the unique
    undirected edges of the mesh, each once. *)
Definition orient (e : nat * nat) : nat * nat :=
  if Nat.leb e.1 e.2 then e else (e.2, e.1).

Definition EdgeTable (s : PolyData) : list (nat * nat) :=
  remove_dups (filter (fun e => e.1 <> e.2) (orient <$> concat (cell_edges <$> Polys s))).

(** [Weight(i, j)], supplied by the concrete mapper, and the conjugate
    gradient solver of Eigen, configured with the optional iteration limit
    and tolerance and called as [solveWithGuess(b, x)]. *)
Abbreviation NZEntry := (Z * Z * T)%type (only parsing).
Abbreviation Dense := (list (list T)) (only parsing).

Record SparseMatrix := mkSparseMatrix {
  rows : nat;
  cols : nat;
  entries : gmap (Z * Z) T
}.

Variable Weight : PolyData -> nat -> nat -> T.
Variable solveWithGuess : option Z -> option T -> SparseMatrix -> Dense -> Dense -> Dense.

(** [setFromTriplets]: entries at the same place accumulate by summation,
    in the order of the triplets. *)
Definition add_triplet (A : gmap (Z * Z) T) (e : NZEntry) : gmap (Z * Z) T :=
  let '(r, c, v) := e in
  partial_alter (fun o => Some (match o with None => v | Some x => d_add x v end)) (r, c) A.

Definition setFromTriplets (n : nat) (w : list NZEntry) : SparseMatrix :=
  mkSparseMatrix n n (fold_left add_triplet w ∅).

Definition coeff (A : SparseMatrix) (r c : Z) : T := default d_zero (entries A !! (r, c)).

Definition dense_zero (n m : nat) : Dense := replicate n (replicate m d_zero).
Definition dense_get (x : Dense) (r l : nat) : T := default d_zero (x !! r ≫= fun row => row !! l).
Definition dense_add (x : Dense) (r l : nat) (v : T) : Dense :=
  alter (alter (fun y => d_add y v) l) r x.

Definition GetValue (values : DataArray) (i l : nat) : T := GetComponent values i l.
Definition SetValue (values : DataArray) (i l : nat) (v : T) : DataArray :=
  SetComponent values i l v.

(** The state of the assembly loop: the triplets [w], the diagonal sums
    [w_ii] and the right-hand side [b]. *)
Record Assembly := mkAssembly {
  w : list NZEntry;
  w_ii : list T;
  b : Dense
}.

(** [for (l = 0; l < m; ++l) b(r, l) += w_ij * GetValue(j, l);] *)
Definition fold_fixed (values : DataArray) (mc : nat) (w_ij : T) (r : Z) (j : nat) (b : Dense) : Dense :=
  fold_left (fun b l => dense_add b (Z.to_nat r) l (d_mul w_ij (GetValue values j l))) (seq 0 mc) b.

(** The guard of line 103 and the block it protects (lines 104-122). *)
Definition edge_visited (m : SurfaceMapper) (e : nat * nat) : bool :=
  (0 <=? FreePointIndex m e.1) || (0 <=? FreePointIndex m e.2).

Definition edge_contribution (m : SurfaceMapper) (surface : PolyData) (values : DataArray)
    (mc : nat) (st : Assembly) (e : nat * nat) : Assembly :=
  let '(i, j) := e in
  let r := FreePointIndex m i in
  let c := FreePointIndex m j in
  let w_ij := Weight surface i j in
  let st :=
    if (0 <=? r) && (0 <=? c) then
      mkAssembly (w st ++ [(r, c, d_neg w_ij); (c, r, d_neg w_ij)]) (w_ii st) (b st)
    else if 0 <=? r then
      mkAssembly (w st) (w_ii st) (fold_fixed values mc w_ij r j (b st))
    else if 0 <=? c then
      mkAssembly (w st) (w_ii st) (fold_fixed values mc w_ij c i (b st))
    else st in
  let st :=
    if 0 <=? r then
      mkAssembly (w st) (alter (fun x => d_add x w_ij) (Z.to_nat r) (w_ii st)) (b st)
    else st in
  let st :=
    if 0 <=? c then
      mkAssembly (w st) (alter (fun x => d_add x w_ij) (Z.to_nat c) (w_ii st)) (b st)
    else st in
  st.

(** The body of the edge loop (lines 101-123). *)
Definition edge_step (m : SurfaceMapper) (surface : PolyData) (values : DataArray) (mc : nat)
    (st : Assembly) (e : nat * nat) : Assembly :=
  if edge_visited m e then edge_contribution m surface values mc st e else st.

Definition diagonal (n : nat) (w_ii : list T) : list NZEntry :=
  (fun r => (Z.of_nat r, Z.of_nat r, default d_zero (w_ii !! r))) <$> seq 0 n.

(** Lines 88-130: the loop over the edges, then the diagonal. *)
Definition assemble_edges (m : SurfaceMapper) (surface : PolyData) (values : DataArray)
    (n mc : nat) (edges : list (nat * nat)) : Assembly :=
  fold_left (edge_step m surface values mc) edges
            (mkAssembly [] (replicate n d_zero) (dense_zero n mc)).

Definition triplets (m : SurfaceMapper) (surface : PolyData) (values : DataArray)
    (n mc : nat) (edges : list (nat * nat)) : list NZEntry :=
  let st := assemble_edges m surface values n mc edges in
  w st ++ diagonal n (w_ii st).

Definition assemble (m : SurfaceMapper) (surface : PolyData) (values : DataArray)
    (n mc : nat) (edges : list (nat * nat)) : SparseMatrix * Dense :=
  (setFromTriplets n (triplets m surface values n mc edges),
   b (assemble_edges m surface values n mc edges)).

(** Lines 141-147: the initial guess. *)
Definition guess (m : SurfaceMapper) (values : DataArray) (n mc : nat) : Dense :=
  (fun r => (fun l => GetValue values (Z.to_nat (FreePointId m r)) l) <$> seq 0 mc) <$> seq 0 n.

(** Lines 165-170: the solution is written to the free points. *)
Definition write_back (m : SurfaceMapper) (x : Dense) (n mc : nat) (values : DataArray) : DataArray :=
  fold_left (fun values r =>
    let i := Z.to_nat (FreePointId m r) in
    fold_left (fun values l => SetValue values i l (dense_get x r l)) (seq 0 mc) values)
    (seq 0 n) values.

Definition solver_limit (m : SurfaceMapper) : option Z :=
  if 0 <? _NumberOfIterations m then Some (_NumberOfIterations m) else None.
Definition solver_tolerance (m : SurfaceMapper) : option T :=
  if d_positive (_Tolerance m) then Some (_Tolerance m) else None.

Definition Solve (m : SurfaceMapper) (h : Store) : Outcome (SurfaceMapper * Store) :=
  ls ← deref (_Surface m);
  surface ← get_mesh h ls;
  lv ← deref (_Values m);
  values ← get_array h lv;
  let n := NumberOfFreePoints m in
  let mc := NumberOfComponents values in
  let '(A, b) := assemble m surface values n mc (EdgeTable surface) in
  let x := guess m values n mc in
  let x := solveWithGuess (solver_limit m) (solver_tolerance m) A b x in
  Ok (m, put_array lv (write_back m x n mc values) h).

Definition Run (m : SurfaceMapper) (h : Store) : Outcome (SurfaceMapper * Store) :=
  '(m, h) ← Initialize m h;
  '(m, h) ← Solve m h;
  Finalize m h.

(** ** Notions the properties are stated with *)

(** The attributes the partition loop leaves alone. *)
Definition same_attributes (m m' : SurfaceMapper) : Prop :=
  _Mesh m' = _Mesh m /\ _Input m' = _Input m /\ _Mask m' = _Mask m /\
  _Output m' = _Output m /\ _Surface m' = _Surface m /\ _Values m' = _Values m /\
  _Fixed m' = _Fixed m /\ _NumberOfIterations m' = _NumberOfIterations m /\
  _Tolerance m' = _Tolerance m.

Definition fixed_below (fixed : DataArray) (i : nat) : nat :=
  length (filter (fun p => Is_true (IsFixedPoint fixed p)) (seq 0 i)).
Definition free_below (fixed : DataArray) (i : nat) : nat :=
  length (filter (fun p => ~ Is_true (IsFixedPoint fixed p)) (seq 0 i)).

(** The signed compact index the loop stores for point [i]. *)
Definition compact_index (fixed : DataArray) (i : nat) : Z :=
  if IsFixedPoint fixed i then - (Z.of_nat (fixed_below fixed i) + 1)
  else Z.of_nat (free_below fixed i).

Definition working_surface (mesh : PolyData) (values mask : option loc) : PolyData :=
  BuildLinks (SetScalars mask (SetTCoords values
    (SetPointData Attributes_Initialize (SetCellData Attributes_Initialize
      (SetVerts [] (SetLines [] (ShallowCopy mesh))))))).

Definition initial_values (input : DataArray) : DataArray :=
  DeepCopy (SetName (NewInstance input) (Name input)) input.

Definition surface_of (m : SurfaceMapper) (h : Store) : option (PolyData) := _Surface m ≫= fun l => meshes h !! l.
Definition fixed_of (m : SurfaceMapper) (h : Store) : option (DataArray) := _Fixed m ≫= fun l => arrays h !! l.
Definition values_of (m : SurfaceMapper) (h : Store) : option (DataArray) := _Values m ≫= fun l => arrays h !! l.

Definition symmetric_entries (M : gmap (Z * Z) T) : Prop := forall r c, M !! (r, c) = M !! (c, r).

(** Triplet lists made of mirrored pairs, as the both-free branch pushes them. *)
Inductive mirrored : list (Z * Z * T) -> Prop :=
  | mirrored_nil : mirrored []
  | mirrored_snoc l r c v : mirrored l -> mirrored (l ++ [(r, c, v); (c, r, v)]).

(** The sum of [Weight(i,j)] over the edges incident to point [i0], added up
    in the order of the traversal. *)
Definition incident (i0 : nat) (e : nat * nat) : Prop := e.1 = i0 \/ e.2 = i0.

Definition incident_weight_sum (surface : PolyData) (edges : list (nat * nat)) (i0 : nat) : T :=
  fold_left d_add ((fun e => Weight surface e.1 e.2) <$> filter (incident i0) edges) d_zero.

(** A right-hand side of [n] rows and [mc] columns. *)
Definition has_dims (n mc : nat) (x : list (list T)) : Prop :=
  length x = n /\ Forall (fun row => length row = mc) x.


(** The value array [Solve] leaves behind, as a function of the mapper, the
    surface and the value array it starts from. *)
Definition solved_values (m : SurfaceMapper) (surface : PolyData) (values : DataArray)
    : DataArray :=
  let n := NumberOfFreePoints m in
  let mc := NumberOfComponents values in
  let Ab := assemble m surface values n mc (EdgeTable surface) in
  let x := solveWithGuess (solver_limit m) (solver_tolerance m) Ab.1 Ab.2
             (guess m values n mc) in
  write_back m x n mc values.

(** The mask the caller set, if any, has one tuple per point of the mesh. *)
Definition mask_fits (m : SurfaceMapper) (h : Store) : Prop :=
  match _Mask m with
  | None => True
  | Some lk =>
      exists mask lm mesh,
        arrays h !! lk = Some mask /\ _Mesh m = Some lm /\ meshes h !! lm = Some mesh /\
        GetNumberOfTuples mask = GetNumberOfPoints mesh
  end.

End Model.

(** ** Concrete meshes and mappers *)

Module Examples.

Definition NameOfType : string := "SurfaceMapper".

(** Every edge weighs one; the stand-in for the solver hands the right-hand
    side back. *)
Definition unit_weight (s : @PolyData Z) (i j : nat) : Z := 1.
Definition rhs_solver (limit : option Z) (tol : option Z) (A : @SparseMatrix Z)
    (b x : list (list Z)) : list (list Z) := b.

(** A square of 3 x 3 points and 8 triangles, with one polyline that is not
    part of the surface.  Point 4 is the only interior point. *)
Definition grid : @PolyData Z :=
  mkPolyData ((fun i => (Z.of_nat (i mod 3), Z.of_nat (i / 3), 0)) <$> seq 0 9)
    [] [[0; 1]]%nat
    [[0; 1; 4]; [0; 4; 3]; [1; 2; 5]; [1; 5; 4];
     [3; 4; 7]; [3; 7; 6]; [4; 5; 8]; [4; 8; 7]]%nat
    (mkAttributes None None []) (mkAttributes None None []) false.

Definition grid_input : @DataArray Z :=
  mkDataArray VTK_DOUBLE "Map" 2 ((fun i => [Z.of_nat (i mod 3); Z.of_nat (i / 3)]) <$> seq 0 9).

Definition grid_store : @Store Z := mkStore [grid_input] [grid].
Definition grid_mapper : @SurfaceMapper Z := new_mapper (Some 0%nat) (Some 0%nat) None 0 0.

Definition grid_initialized : @SurfaceMapper Z * @Store Z :=
  Eval vm_compute in
    match Initialize NameOfType grid_mapper grid_store with
    | Ok r => r
    | _ => (grid_mapper, grid_store)
    end.

Definition grid_solved : @SurfaceMapper Z * @Store Z :=
  Eval vm_compute in
    match Solve unit_weight rhs_solver grid_initialized.1 grid_initialized.2 with
    | Ok r => r
    | _ => grid_initialized
    end.

Definition grid_run : @SurfaceMapper Z * @Store Z :=
  Eval vm_compute in
    match Run NameOfType unit_weight rhs_solver grid_mapper grid_store with
    | Ok r => r
    | _ => (grid_mapper, grid_store)
    end.

Definition grid_surface : @PolyData Z :=
  Eval vm_compute in default grid (surface_of grid_initialized.1 grid_initialized.2).
Definition grid_fixed : @DataArray Z :=
  Eval vm_compute in default grid_input (fixed_of grid_initialized.1 grid_initialized.2).
Definition grid_values : @DataArray Z :=
  Eval vm_compute in default grid_input (values_of grid_initialized.1 grid_initialized.2).

(** The assembly before the first edge: one free point, two components. *)
Definition grid_assembly : @Assembly Z := mkAssembly [] [0] [[0; 0]].

(** One triangle, with input values for its three points and a mask of four
    entries. *)
Definition triangle : @PolyData Z :=
  mkPolyData [(0, 0, 0); (1, 0, 0); (0, 1, 0)] [] [] [[0; 1; 2]]%nat
    (mkAttributes None None []) (mkAttributes None None []) false.

Definition triangle_input : @DataArray Z := mkDataArray VTK_DOUBLE "Map" 1 [[5]; [6]; [7]].
Definition long_mask : @DataArray Z := mkDataArray VTK_UNSIGNED_CHAR "Mask" 1 [[1]; [1]; [0]; [1]].

Definition triangle_store : @Store Z := mkStore [triangle_input; long_mask] [triangle].
Definition triangle_mapper : @SurfaceMapper Z :=
  new_mapper (Some 0%nat) (Some 0%nat) (Some 1%nat) 0 0.

Definition triangle_run : @SurfaceMapper Z * @Store Z :=
  Eval vm_compute in
    match Run NameOfType unit_weight rhs_solver triangle_mapper triangle_store with
    | Ok r => r
    | _ => (triangle_mapper, triangle_store)
    end.

(** The same square with a mask that fixes the four corners only. *)
Definition corner_mask : @DataArray Z :=
  mkDataArray VTK_UNSIGNED_CHAR "Mask" 1 [[1]; [0]; [1]; [0]; [0]; [0]; [1]; [0]; [1]].
Definition corner_store : @Store Z := mkStore [grid_input; corner_mask] [grid].
Definition corner_mapper : @SurfaceMapper Z :=
  new_mapper (Some 0%nat) (Some 0%nat) (Some 1%nat) 0 0.

Definition corner_initialized : @SurfaceMapper Z * @Store Z :=
  Eval vm_compute in
    match Initialize NameOfType corner_mapper corner_store with
    | Ok r => r
    | _ => (corner_mapper, corner_store)
    end.

Definition corner_surface : @PolyData Z :=
  Eval vm_compute in default grid (surface_of corner_initialized.1 corner_initialized.2).

End Examples.

(** ** Copying a mapper, and further notions *)

Section Copying.

Context {T : Type} `{DT : !Double T}.

(** [Mapping::NewCopy] of the output map is outside the two source files; it
    may allocate objects in the store. *)
Variable NewCopy : PiecewiseLinearMap -> @Store T -> PiecewiseLinearMap * @Store T.

(** [SurfaceMapper::CopyAttributes] (lines 42-65): the smart pointers and id
    lists of [other] are taken over, its value array is copied into a new
    array, its output map is copied with [NewCopy].  The solver settings
    belong to the subclass and stay as [this] has them. *)
Definition CopyAttributes (this other : @SurfaceMapper T) (h : @Store T)
    : Outcome (@SurfaceMapper T * @Store T) :=
  '(values, h) ← match _Values other with
                 | Some lo =>
                     a ← get_array h lo;
                     let '(l, h) := new_array (DeepCopy (NewInstance a) a) h in
                     Ok (Some l, h)
                 | None => Ok (None, h)
                 end;
  let '(output, h) := match _Output other with
                      | Some o => let '(o', h) := NewCopy o h in (Some o', h)
                      | None => (None, h)
                      end in
  Ok (mkSurfaceMapper (_Mesh other) (_Input other) (_Mask other) output
        (_Surface other) values (_Fixed other)
        (_FixedPoints other) (_FreePoints other) (_PointIndex other)
        (_NumberOfIterations this) (_Tolerance this), h).

(** [NewCopy] leaves the objects that exist in the store as they are. *)
Definition allocates_only : Prop :=
  forall o h,
    (exists tl, arrays (NewCopy o h).2 = arrays h ++ tl) /\
    (exists tl, meshes (NewCopy o h).2 = meshes h ++ tl).

End Copying.

Section Notions.

Context {T : Type} `{DT : !Double T}.

(** Every pointer the mapper holds to a caller's object or to the mask of a
    previous call names an object of the store. *)
Definition pointers_valid (m : @SurfaceMapper T) (h : @Store T) : Prop :=
  (forall l, _Mesh m = Some l -> is_Some (meshes h !! l)) /\
  (forall l, _Input m = Some l -> is_Some (arrays h !! l)) /\
  (forall l, _Mask m = Some l -> is_Some (arrays h !! l)) /\
  (forall l, _Fixed m = Some l -> is_Some (arrays h !! l)).

(** What [Initialize] checks before it starts to work. *)
Definition Initialize_accepts (m : @SurfaceMapper T) (h : @Store T) : Prop :=
  exists lm mesh li input,
    _Mesh m = Some lm /\ meshes h !! lm = Some mesh /\
    GetNumberOfPolys mesh <> 0%nat /\
    _Input m = Some li /\ arrays h !! li = Some input /\
    GetNumberOfTuples input = GetNumberOfPoints mesh /\
    forall lf fixed, _Fixed m = Some lf -> arrays h !! lf = Some fixed ->
      GetNumberOfTuples fixed = GetNumberOfPoints mesh.

(** The mask the caller set, if any, has a tuple for every point of the mesh,
    so that the loop over the point ids reads within it. *)
Definition mask_readable (m : @SurfaceMapper T) (h : @Store T) : Prop :=
  forall lk mask lm mesh,
    _Mask m = Some lk -> arrays h !! lk = Some mask ->
    _Mesh m = Some lm -> meshes h !! lm = Some mesh ->
    (GetNumberOfPoints mesh <= GetNumberOfTuples mask)%nat.

(** An array whose tuples all have the declared number of components. *)
Definition well_shaped (a : @DataArray T) : Prop :=
  Forall (fun t => length t = NumberOfComponents a) (Tuples a).

(** The fixed endpoint of an edge whose other endpoint is [i0]. *)
Definition fixed_neighbour (fixed : @DataArray T) (i0 : nat) (e : nat * nat) : option nat :=
  if Nat.eqb e.1 i0 && IsFixedPoint fixed e.2 then Some e.2
  else if Nat.eqb e.2 i0 && IsFixedPoint fixed e.1 then Some e.1
  else None.

(** The sum, in the order of the traversal, of weight times fixed value over
    the edges that join [i0] to a fixed point. *)
Definition dirichlet_sum (Weight : @PolyData T -> nat -> nat -> T) (surface : @PolyData T)
    (values fixed : @DataArray T) (edges : list (nat * nat)) (i0 l : nat) : T :=
  fold_left d_add
    (omap (fun e => (fun q => d_mul (Weight surface e.1 e.2) (GetValue values q l))
                      <$> fixed_neighbour fixed i0 e) edges)
    d_zero.

(** The edges with both endpoints free. *)
Definition both_free (m : @SurfaceMapper T) (e : nat * nat) : bool :=
  (0 <=? FreePointIndex m e.1) && (0 <=? FreePointIndex m e.2).

(** An edge that joins the points [i] and [j], in either direction. *)
Definition joins (i j : nat) (e : nat * nat) : Prop :=
  (e.1 = i /\ e.2 = j) \/ (e.1 = j /\ e.2 = i).

End Notions.

Module MoreExamples.

Import Examples.

(** The copy of a map refers to the same domain and values. *)
Definition same_map (o : PiecewiseLinearMap) (h : @Store Z) : PiecewiseLinearMap * @Store Z :=
  (o, h).

(** The square with a mask that fixes every point, and one that fixes none. *)
Definition full_mask : @DataArray Z := mkDataArray VTK_UNSIGNED_CHAR "Mask" 1 (replicate 9 [1]).
Definition full_store : @Store Z := mkStore [grid_input; full_mask] [grid].

Definition full_initialized : @SurfaceMapper Z * @Store Z :=
  Eval vm_compute in
    match Initialize NameOfType corner_mapper full_store with
    | Ok r => r
    | _ => (corner_mapper, full_store)
    end.

Definition full_solved : @SurfaceMapper Z * @Store Z :=
  Eval vm_compute in
    match Solve unit_weight rhs_solver full_initialized.1 full_initialized.2 with
    | Ok r => r
    | _ => full_initialized
    end.

Definition corner_solved : @SurfaceMapper Z * @Store Z :=
  Eval vm_compute in
    match Solve unit_weight rhs_solver corner_initialized.1 corner_initialized.2 with
    | Ok r => r
    | _ => corner_initialized
    end.

Definition corner_run : @SurfaceMapper Z * @Store Z :=
  Eval vm_compute in
    match Run NameOfType unit_weight rhs_solver corner_mapper corner_store with
    | Ok r => r
    | _ => (corner_mapper, corner_store)
    end.

Definition corner_fixed : @DataArray Z :=
  Eval vm_compute in default grid_input (fixed_of corner_initialized.1 corner_initialized.2).
Definition corner_values : @DataArray Z :=
  Eval vm_compute in default grid_input (values_of corner_initialized.1 corner_initialized.2).

(** A square with a tenth point that no polygon uses. *)
Definition loose : @PolyData Z :=
  mkPolyData ((fun i => (Z.of_nat (i mod 3), Z.of_nat (i / 3), 0)) <$> seq 0 10)
    [] [] (Polys grid) (mkAttributes None None []) (mkAttributes None None []) false.
Definition loose_input : @DataArray Z :=
  mkDataArray VTK_DOUBLE "Map" 2 ((fun i => [Z.of_nat i; 1]) <$> seq 0 10).
Definition loose_store : @Store Z := mkStore [loose_input] [loose].

Definition loose_initialized : @SurfaceMapper Z * @Store Z :=
  Eval vm_compute in
    match Initialize NameOfType grid_mapper loose_store with
    | Ok r => r
    | _ => (grid_mapper, loose_store)
    end.
Definition loose_surface : @PolyData Z :=
  Eval vm_compute in default loose (surface_of loose_initialized.1 loose_initialized.2).
Definition loose_fixed : @DataArray Z :=
  Eval vm_compute in default loose_input (fixed_of loose_initialized.1 loose_initialized.2).
Definition loose_values : @DataArray Z :=
  Eval vm_compute in default loose_input (values_of loose_initialized.1 loose_initialized.2).

(** The triangle with values held in a float array and a mask that fixes
    the points 0 and 1.  The values at the fixed points add up to 2^24 + 1,
    which a float does not hold. *)
Definition float_input : @DataArray Z :=
  mkDataArray VTK_FLOAT "Map" 1 [[16777216]; [1]; [7]].
Definition edge_mask : @DataArray Z := mkDataArray VTK_UNSIGNED_CHAR "Mask" 1 [[1]; [1]; [0]].
Definition float_store : @Store Z := mkStore [float_input; edge_mask] [triangle].

Definition float_initialized : @SurfaceMapper Z * @Store Z :=
  Eval vm_compute in
    match Initialize NameOfType triangle_mapper float_store with
    | Ok r => r
    | _ => (triangle_mapper, float_store)
    end.

Definition float_solved : @SurfaceMapper Z * @Store Z :=
  Eval vm_compute in
    match Solve unit_weight rhs_solver float_initialized.1 float_initialized.2 with
    | Ok r => r
    | _ => float_initialized
    end.

(** The triangle with a mask of two entries. *)
Definition short_mask : @DataArray Z := mkDataArray VTK_UNSIGNED_CHAR "Mask" 1 [[1]; [1]].
Definition short_store : @Store Z := mkStore [triangle_input; short_mask] [triangle].

(** A mapper without a mesh, and one whose mesh has no polygon. *)
Definition empty_mapper : @SurfaceMapper Z := new_mapper None (Some 0%nat) None 0 0.
Definition polyline : @PolyData Z :=
  mkPolyData [(0, 0, 0); (1, 0, 0)] [] [[0; 1]]%nat []
    (mkAttributes None None []) (mkAttributes None None []) false.
Definition polyline_store : @Store Z := mkStore [grid_input] [polyline].

End MoreExamples.

(** * Properties *)

Section ListFacts.

Lemma fold_left_seq_S {S} (f : S -> nat -> S) (n : nat) (s : S) :
  fold_left f (seq 0 (Datatypes.S n)) s = f (fold_left f (seq 0 n) s) n.
Proof. rewrite seq_S, fold_left_app. reflexivity. Qed.

(** Where the k-th element that satisfies [P] sits among [0..n-1]. *)
Lemma filter_seq_lookup (P : nat -> Prop) `{!forall x, Decision (P x)} (n k i : nat) :
  filter P (seq 0 n) !! k = Some i <->
  (i < n)%nat /\ P i /\ length (filter P (seq 0 i)) = k.
Proof.
  induction n as [|n IH].
  - simpl. split; [done | lia].
  - rewrite seq_S, filter_app. simpl.
    destruct (decide (k < length (filter P (seq 0 n)))%nat) as [Hk|Hk].
    + rewrite lookup_app_l by done. rewrite IH. split.
      * intros (? & ? & ?). split; [lia | done].
      * intros (Hi & HP & Hlen). split; [|done].
        destruct (decide (i = n)) as [->|]; lia.
    + rewrite lookup_app_r by lia.
      rewrite filter_cons, filter_nil. split.
      * destruct (decide (P n)) as [HP|HP]; [|done].
        intros Hl. apply list_lookup_singleton_Some in Hl as [Hz <-].
        split; [lia | split; [done | lia]].
      * intros (Hi & HP & Hlen).
        destruct (decide (i = n)) as [->|Hne].
        -- rewrite decide_True by done. subst k.
           rewrite Nat.sub_diag. done.
        -- exfalso. apply Hk. subst k.
           assert (Hin : (i < n)%nat) by lia.
           assert (Hlk : filter P (seq 0 n) !! length (filter P (seq 0 i)) = Some i)
             by (apply IH; done).
           by apply lookup_lt_Some in Hlk.
Qed.

Lemma filter_seq_split (P : nat -> Prop) `{!forall x, Decision (P x)} (n : nat) :
  (length (filter P (seq 0 n)) + length (filter (fun i => ~ P i) (seq 0 n)) = n)%nat.
Proof.
  induction n as [|n IH]; [done|].
  rewrite seq_S, !filter_app, !length_app. simpl.
  rewrite !filter_cons, !filter_nil.
  destruct (decide (P n)).
  - rewrite decide_False by tauto. simpl. lia.
  - rewrite decide_True by tauto. simpl. lia.
Qed.

End ListFacts.

Section Partition.

Context {T : Type} `{DT : !Double T}.
Implicit Types (m : @SurfaceMapper T) (fixed : @DataArray T).

Lemma partition_step_attributes fixed m i : same_attributes m (partition_step fixed m i).
Proof. unfold partition_step. destruct (IsFixedPoint fixed i); repeat split. Qed.

Lemma partition_attributes fixed n m : same_attributes m (partition fixed n m).
Proof.
  unfold partition.
  set (m0 := set_PointIndex _ _).
  assert (H0 : same_attributes m m0) by (repeat split).
  clearbody m0. revert m0 H0.
  induction (seq 0 n) as [|i l IH]; intros m0 H0; simpl; [done|].
  apply IH. pose proof (partition_step_attributes fixed m0 i) as H1.
  unfold same_attributes in *. intuition congruence.
Qed.

Lemma partition_prefix fixed n m (j : nat) :
  (j <= n)%nat ->
  let m' := fold_left (partition_step fixed) (seq 0 j)
              (set_PointIndex (SetNumberOfIds n) (set_FreePoints [] (set_FixedPoints [] m))) in
  _FixedPoints m' = Z.of_nat <$> filter (fun p => Is_true (IsFixedPoint fixed p)) (seq 0 j) /\
  _FreePoints m' = Z.of_nat <$> filter (fun p => ~ Is_true (IsFixedPoint fixed p)) (seq 0 j) /\
  length (_PointIndex m') = n /\
  forall i, (i < j)%nat -> _PointIndex m' !! i = Some (compact_index fixed i).
Proof.
  induction j as [|j IH]; intros Hj.
  - simpl. repeat split; [apply length_replicate | intros; lia].
  - destruct IH as (Hfx & Hfr & Hlen & Hidx); [lia|].
    cbv zeta. rewrite fold_left_seq_S.
    set (m1 := fold_left _ _ _) in *.
    rewrite seq_S, !filter_app, !fmap_app. simpl.
    rewrite !filter_cons, !filter_nil.
    unfold partition_step, InsertNextId, SetId.
    destruct (IsFixedPoint fixed j) eqn:Hfix; simpl; rewrite app_nil_r.
    + split; [by rewrite Hfx|]. split; [done|]. split; [by rewrite length_insert|].
      intros i Hi. destruct (decide (i = j)) as [->|Hne].
      * rewrite list_lookup_insert_eq by lia. f_equal.
        unfold compact_index, fixed_below. rewrite Hfix, Hfx, length_fmap. done.
      * rewrite list_lookup_insert_ne by done. apply Hidx. lia.
    + split; [done|]. split; [by rewrite Hfr|]. split; [by rewrite length_insert|].
      intros i Hi. destruct (decide (i = j)) as [->|Hne].
      * rewrite list_lookup_insert_eq by lia. f_equal.
        unfold compact_index, free_below. rewrite Hfix, Hfr, length_fmap. done.
      * rewrite list_lookup_insert_ne by done. apply Hidx. lia.
Qed.

Lemma partition_closed_form fixed n m :
  let m' := partition fixed n m in
  _FixedPoints m' = Z.of_nat <$> filter (fun p => Is_true (IsFixedPoint fixed p)) (seq 0 n) /\
  _FreePoints m' = Z.of_nat <$> filter (fun p => ~ Is_true (IsFixedPoint fixed p)) (seq 0 n) /\
  length (_PointIndex m') = n /\
  forall i, (i < n)%nat -> _PointIndex m' !! i = Some (compact_index fixed i).
Proof. apply (partition_prefix fixed n m n). lia. Qed.

Lemma partition_sizes fixed n m :
  (NumberOfFixedPoints (partition fixed n m) + NumberOfFreePoints (partition fixed n m) = n)%nat.
Proof.
  destruct (partition_closed_form fixed n m) as (Hfx & Hfr & _).
  unfold NumberOfFixedPoints, NumberOfFreePoints. rewrite Hfx, Hfr, !length_fmap.
  apply filter_seq_split.
Qed.

Lemma partition_fixed_elem fixed n m (i : nat) :
  Z.of_nat i ∈ _FixedPoints (partition fixed n m) <->
  (i < n)%nat /\ IsFixedPoint fixed i = true.
Proof.
  destruct (partition_closed_form fixed n m) as (-> & _).
  rewrite (list_elem_of_fmap_inj Z.of_nat), list_elem_of_filter, elem_of_seq.
  rewrite Is_true_true. intuition lia.
Qed.

Lemma partition_free_elem fixed n m (i : nat) :
  Z.of_nat i ∈ _FreePoints (partition fixed n m) <->
  (i < n)%nat /\ IsFixedPoint fixed i = false.
Proof.
  destruct (partition_closed_form fixed n m) as (_ & -> & _).
  rewrite (list_elem_of_fmap_inj Z.of_nat), list_elem_of_filter, elem_of_seq.
  rewrite Is_true_false. intuition lia.
Qed.

Lemma partition_ids_range fixed n m (id : Z) :
  id ∈ _FixedPoints (partition fixed n m) ++ _FreePoints (partition fixed n m) ->
  0 <= id < Z.of_nat n.
Proof.
  destruct (partition_closed_form fixed n m) as (-> & -> & _).
  rewrite elem_of_app, !list_elem_of_fmap.
  intros [(i & -> & Hi)|(i & -> & Hi)];
    apply list_elem_of_filter in Hi as [_ Hi]; apply elem_of_seq in Hi; lia.
Qed.

Lemma partition_NoDup fixed n m :
  NoDup (_FixedPoints (partition fixed n m) ++ _FreePoints (partition fixed n m)).
Proof.
  destruct (partition_closed_form fixed n m) as (-> & -> & _).
  apply NoDup_app. split; [|split].
  - apply (NoDup_fmap_2 Z.of_nat), NoDup_filter, NoDup_seq.
  - intros id. rewrite !list_elem_of_fmap.
    intros (i & -> & Hi) (i' & Heq & Hi'). apply Nat2Z.inj in Heq as <-.
    apply list_elem_of_filter in Hi as [Hi _].
    apply list_elem_of_filter in Hi' as [Hi' _]. done.
  - apply (NoDup_fmap_2 Z.of_nat), NoDup_filter, NoDup_seq.
Qed.

Lemma partition_fixed_ordinal fixed n m (k i : nat) :
  _FixedPoints (partition fixed n m) !! k = Some (Z.of_nat i) ->
  (i < n)%nat /\ IsFixedPoint fixed i = true /\
  FreePointIndex (partition fixed n m) i = - (Z.of_nat k + 1).
Proof.
  destruct (partition_closed_form fixed n m) as (Hfx & _ & _ & Hidx).
  rewrite Hfx, list_lookup_fmap. intros Hk.
  apply fmap_Some in Hk as (i' & Hk & Heq). apply Nat2Z.inj in Heq as <-.
  apply filter_seq_lookup in Hk as (Hi & HP & Hlen).
  apply Is_true_true in HP. split; [done|]. split; [done|].
  unfold FreePointIndex, GetId. rewrite Hidx by done. simpl.
  unfold compact_index, fixed_below. rewrite HP, Hlen. done.
Qed.

Lemma partition_free_ordinal fixed n m (r i : nat) :
  _FreePoints (partition fixed n m) !! r = Some (Z.of_nat i) ->
  (i < n)%nat /\ IsFixedPoint fixed i = false /\
  FreePointIndex (partition fixed n m) i = Z.of_nat r.
Proof.
  destruct (partition_closed_form fixed n m) as (_ & Hfr & _ & Hidx).
  rewrite Hfr, list_lookup_fmap. intros Hr.
  apply fmap_Some in Hr as (i' & Hr & Heq). apply Nat2Z.inj in Heq as <-.
  apply filter_seq_lookup in Hr as (Hi & HP & Hlen).
  apply Is_true_false in HP. split; [done|]. split; [done|].
  unfold FreePointIndex, GetId. rewrite Hidx by done. simpl.
  unfold compact_index, free_below. rewrite HP, Hlen. done.
Qed.

(** Reading the compact index of a point and looking the ordinal up in the
    list its sign selects gives the point back. *)
Lemma partition_decode fixed n m (i : nat) :
  (i < n)%nat ->
  let m' := partition fixed n m in
  let idx := FreePointIndex m' i in
  if IsFixedPoint fixed i then
    idx < 0 /\ (Z.to_nat (FixedPointIndex m' i) < NumberOfFixedPoints m')%nat /\
    FixedPointId m' (Z.to_nat (FixedPointIndex m' i)) = Z.of_nat i
  else
    0 <= idx /\ (Z.to_nat idx < NumberOfFreePoints m')%nat /\
    FreePointId m' (Z.to_nat idx) = Z.of_nat i.
Proof.
  intros Hi m' idx. subst m' idx.
  destruct (partition_closed_form fixed n m) as (Hfx & Hfr & _ & Hidx).
  unfold FixedPointIndex, FreePointIndex, FixedPointId, FreePointId, GetId,
    NumberOfFixedPoints, NumberOfFreePoints.
  rewrite Hidx by done. simpl. unfold compact_index.
  destruct (IsFixedPoint fixed i) eqn:HP.
  - assert (Hl : filter (fun p => Is_true (IsFixedPoint fixed p)) (seq 0 n)
                   !! fixed_below fixed i = Some i).
    { apply filter_seq_lookup. rewrite Is_true_true. done. }
    replace (Z.to_nat (- - (Z.of_nat (fixed_below fixed i) + 1) - 1))
      with (fixed_below fixed i) by lia.
    rewrite Hfx, list_lookup_fmap, Hl, length_fmap. simpl.
    apply lookup_lt_Some in Hl. split; [lia|done].
  - assert (Hl : filter (fun p => ~ Is_true (IsFixedPoint fixed p)) (seq 0 n)
                   !! free_below fixed i = Some i).
    { apply filter_seq_lookup. rewrite Is_true_false. done. }
    rewrite Nat2Z.id, Hfr, list_lookup_fmap, Hl, length_fmap. simpl.
    apply lookup_lt_Some in Hl. split; [lia|done].
Qed.

Lemma partition_index_inj fixed n m (i i' : nat) :
  (i < n)%nat -> (i' < n)%nat ->
  FreePointIndex (partition fixed n m) i = FreePointIndex (partition fixed n m) i' ->
  i = i'.
Proof.
  intros Hi Hi' Heq.
  pose proof (partition_decode fixed n m i Hi) as H1.
  pose proof (partition_decode fixed n m i' Hi') as H2.
  cbv zeta in H1, H2. unfold FixedPointIndex in *.
  fold (FreePointIndex (partition fixed n m) i) in H1.
  fold (FreePointIndex (partition fixed n m) i') in H2.
  rewrite <- Heq in H2.
  destruct (IsFixedPoint fixed i), (IsFixedPoint fixed i');
    destruct H1 as (? & _ & H1), H2 as (? & _ & H2); lia.
Qed.

Lemma partition_index_sign fixed n m (i : nat) :
  (i < n)%nat ->
  (0 <=? FreePointIndex (partition fixed n m) i) = negb (IsFixedPoint fixed i) /\
  (0 <= FreePointIndex (partition fixed n m) i ->
   (Z.to_nat (FreePointIndex (partition fixed n m) i)
      < NumberOfFreePoints (partition fixed n m))%nat).
Proof.
  intros Hi. pose proof (partition_decode fixed n m i Hi) as H1. cbv zeta in H1.
  destruct (IsFixedPoint fixed i); destruct H1 as (H1 & H2 & _); simpl.
  - split; [apply Z.leb_gt; lia | lia].
  - split; [apply Z.leb_le; lia | done].
Qed.

Lemma partition_free_id fixed n m (r : nat) :
  (r < NumberOfFreePoints (partition fixed n m))%nat ->
  exists i, FreePointId (partition fixed n m) r = Z.of_nat i /\
            (i < n)%nat /\ IsFixedPoint fixed i = false.
Proof.
  unfold NumberOfFreePoints, FreePointId, GetId. intros Hr.
  destruct (lookup_lt_is_Some_2 _ _ Hr) as [id Hid]. rewrite Hid. simpl.
  assert (Hin : id ∈ _FreePoints (partition fixed n m))
    by (apply list_elem_of_lookup; eauto).
  destruct (partition_closed_form fixed n m) as (_ & Hfr & _).
  rewrite Hfr in Hin. apply list_elem_of_fmap in Hin as (i & -> & Hi).
  exists i. split; [done|].
  apply (partition_free_elem fixed n m). rewrite Hfr.
  apply list_elem_of_fmap. eauto.
Qed.

(** The three lists depend on the mask and the point count only. *)
Lemma partition_lists_eq fixed n m m' :
  _FixedPoints (partition fixed n m) = _FixedPoints (partition fixed n m') /\
  _FreePoints (partition fixed n m) = _FreePoints (partition fixed n m') /\
  _PointIndex (partition fixed n m) = _PointIndex (partition fixed n m').
Proof.
  destruct (partition_closed_form fixed n m) as (-> & -> & Hl & Hi).
  destruct (partition_closed_form fixed n m') as (-> & -> & Hl' & Hi').
  split; [done|]. split; [done|].
  apply list_eq. intros i. destruct (decide (i < n)%nat).
  - by rewrite Hi, Hi'.
  - rewrite !lookup_ge_None_2 by lia. done.
Qed.

End Partition.

Section MeshEdges.

Context {T : Type}.

Lemma cell_edges_corners (c : list nat) (e : nat * nat) :
  e ∈ cell_edges c -> e.1 ∈ c /\ e.2 ∈ c.
Proof.
  destruct c as [|v0 rest]; [by intros ?%elem_of_nil|].
  unfold cell_edges. destruct e as [a b]. intros He. split.
  - by apply elem_of_zip_l in He.
  - apply elem_of_zip_r in He. simpl.
    rewrite elem_of_app, list_elem_of_singleton in He. rewrite elem_of_cons. tauto.
Qed.

(** The edges of the traversal join two different points of the mesh, when
    the polygons name points of the mesh. *)
Lemma EdgeTable_wf (s : @PolyData T) :
  (forall c v, c ∈ Polys s -> v ∈ c -> (v < GetNumberOfPoints s)%nat) ->
  forall i j, (i, j) ∈ EdgeTable s ->
    i <> j /\ (i < GetNumberOfPoints s)%nat /\ (j < GetNumberOfPoints s)%nat.
Proof.
  intros Hpolys i j Hin. unfold EdgeTable in Hin.
  apply elem_of_remove_dups, list_elem_of_filter in Hin as [Hne Hin].
  split; [done|].
  apply list_elem_of_fmap in Hin as (e & Heq & He).
  apply list_elem_of_In, in_concat in He as (edges & Hedges & He).
  apply list_elem_of_In, list_elem_of_fmap in Hedges as (c & -> & Hc).
  apply list_elem_of_In, cell_edges_corners in He as [H1 H2].
  pose proof (Hpolys c _ Hc H1). pose proof (Hpolys c _ Hc H2).
  unfold orient in Heq. destruct (Nat.leb e.1 e.2); destruct e; simplify_eq/=; lia.
Qed.

(** The traversal visits an undirected edge once, in one direction. *)
Lemma EdgeTable_once (s : @PolyData T) (i j : nat) :
  (i, j) ∈ EdgeTable s ->
  exists pre post,
    EdgeTable s = pre ++ (i, j) :: post /\
    forall e, e ∈ pre ++ post -> ~ joins i j e.
Proof.
  intros Hin.
  assert (Hlt : forall e, e ∈ EdgeTable s -> (e.1 < e.2)%nat).
  { intros e He. unfold EdgeTable in He.
    apply elem_of_remove_dups, list_elem_of_filter in He as [Hne He].
    apply list_elem_of_fmap in He as (e0 & -> & _).
    unfold orient in *. destruct (Nat.leb_spec e0.1 e0.2); simpl in *; lia. }
  pose proof (NoDup_remove_dups
                (filter (fun e => e.1 <> e.2) (orient <$> concat (cell_edges <$> Polys s))))
    as Hnd.
  fold (EdgeTable s) in Hnd.
  pose proof (Hlt _ Hin) as Hij. simpl in Hij.
  destruct (list_elem_of_split _ _ Hin) as (pre & post & Heq).
  exists pre, post. split; [done|].
  rewrite Heq in Hnd. apply NoDup_app in Hnd as (_ & Hpre & Hpost).
  apply NoDup_cons in Hpost as [Hpost _].
  intros e He Hjoin.
  assert (He' : e ∈ EdgeTable s).
  { rewrite Heq. rewrite elem_of_app in He. rewrite elem_of_app, elem_of_cons. tauto. }
  specialize (Hlt e He').
  destruct Hjoin as [[H1 H2]|[H1 H2]]; [|lia].
  assert (e = (i, j)) as -> by (destruct e; simpl in *; congruence).
  apply elem_of_app in He as [He|He]; [|done].
  apply (Hpre _ He). rewrite elem_of_cons. auto.
Qed.

End MeshEdges.

Section Lifecycle.

Context {T : Type} `{DT : !Double T}.
Variable NameOfType : string.
Implicit Types (m : @SurfaceMapper T) (h : @Store T).

Lemma bind_Ok {A B} (c : Outcome A) (f : A -> Outcome B) (r : B) :
  c ≫= f = Ok r -> exists a, c = Ok a /\ f a = Ok r.
Proof. destruct c; simpl; [eauto | done | done]. Qed.

Lemma deref_Ok {A} (o : option A) (a : A) : deref o = Ok a <-> o = Some a.
Proof. destruct o; simpl; split; congruence. Qed.

Lemma snoc_lookup_last {A} (l : list A) (x : A) : (l ++ [x]) !! length l = Some x.
Proof. rewrite lookup_app_r by lia. by rewrite Nat.sub_diag. Qed.

Lemma snoc_insert_last {A} (l : list A) (x y : A) : <[length l := y]> (l ++ [x]) = l ++ [y].
Proof. rewrite insert_app_r_alt by lia. by rewrite Nat.sub_diag. Qed.

Lemma modify_mesh_last (al : list (@DataArray T)) (ml : list (@PolyData T)) s f r :
  modify_mesh (length ml) f (mkStore al (ml ++ [s])) = Ok r ->
  r = mkStore al (ml ++ [f s]).
Proof.
  unfold modify_mesh, get_mesh. simpl. rewrite snoc_lookup_last. simpl.
  intros [= <-]. unfold put_mesh. simpl. by rewrite snoc_insert_last.
Qed.

Lemma modify_mesh_snoc (al : list (@DataArray T)) (ml : list (@PolyData T)) s f :
  modify_mesh (length ml) f (mkStore al (ml ++ [s])) = Ok (mkStore al (ml ++ [f s])).
Proof.
  unfold modify_mesh, get_mesh. simpl. rewrite snoc_lookup_last. simpl.
  unfold put_mesh. simpl. by rewrite snoc_insert_last.
Qed.

Lemma tuples_mismatch_false h (l : loc) (a : @DataArray T) (n : nat) :
  arrays h !! l = Some a ->
  tuples_mismatch h (Some l) n = Ok false <-> GetNumberOfTuples a = n.
Proof.
  intros Ha. unfold tuples_mismatch, get_array. rewrite Ha. simpl.
  destruct (Nat.eqb_spec (GetNumberOfTuples a) n); simpl; split; congruence.
Qed.

Lemma initial_values_eq (input : @DataArray T) : initial_values input = input.
Proof.
  unfold initial_values, DeepCopy, SetName, NewInstance. simpl.
  rewrite decide_True by done. by destruct input.
Qed.

Lemma DeepCopy_NewInstance (a : @DataArray T) : DeepCopy (NewInstance a) a = a.
Proof.
  unfold DeepCopy, NewInstance. simpl. rewrite decide_True by done. by destruct a.
Qed.

Lemma InitializeValues_Ok m h m1 h1 :
  InitializeValues NameOfType m h = Ok (m1, h1) ->
  exists li input,
    _Input m = Some li /\ arrays h !! li = Some input /\
    m1 = set_Values (Some (length (arrays h))) m /\
    h1 = mkStore (arrays h ++ [initial_values input]) (meshes h).
Proof.
  unfold InitializeValues. destruct (_Input m) as [li|]; [|done].
  intros H. apply bind_Ok in H as (input & Hin & H). apply deref_Ok in Hin.
  simpl in H. injection H as <- <-. by exists li, input.
Qed.

Ltac bind_inv H :=
  let a := fresh "a" in let Ha := fresh "Ha" in
  apply bind_Ok in H as (a & Ha & H).

Lemma Initialize_Ok_mask m h m' h' :
  Initialize NameOfType m h = Ok (m', h') ->
  exists lm mesh li input fixed lf,
    _Mesh m = Some lm /\ meshes h !! lm = Some mesh /\
    GetNumberOfPolys mesh <> 0%nat /\
    _Input m = Some li /\ arrays h !! li = Some input /\
    GetNumberOfTuples input = GetNumberOfPoints mesh /\
    tuples_mismatch h (_Fixed m) (GetNumberOfPoints mesh) = Ok false /\
    let ls := length (meshes h) in
    let lv := length (arrays h) in
    let surface := working_surface mesh (Some lv) (_Mask m) in
    meshes h' = meshes h ++ [surface] /\
    arrays h' !! lf = Some fixed /\
    m' = partition fixed (GetNumberOfPoints mesh)
           (set_Fixed (Some lf)
              (set_Values (Some lv) (set_Surface (Some ls) (set_Output None m)))) /\
    mask_covers fixed (GetNumberOfPoints mesh) = true /\
    match _Mask m with
    | Some lk => lf = lk /\ arrays h' = arrays h ++ [initial_values input]
    | None => lf = S lv /\
        fixed = BoundaryMask_fill (GetNumberOfPoints mesh) (BoundaryPoints surface) /\
        arrays h' = arrays h ++ [initial_values input; fixed]
    end.
Proof.
  unfold Initialize. intros H. cbn in H.
  destruct (_Mesh m) as [lm|] eqn:Hmesh; [|done].
  bind_inv H. rename a into mesh. apply deref_Ok in Ha.
  destruct (GetNumberOfPolys mesh =? 0)%nat eqn:Hpolys; [done|].
  apply Nat.eqb_neq in Hpolys.
  bind_inv H. destruct a; [done|]. rename Ha into Hinput.
  bind_inv H. destruct a; [done|]. rename Ha0 into Hfixed.
  bind_inv H. apply modify_mesh_last in Ha0 as ->.
  bind_inv H. apply modify_mesh_last in Ha0 as ->.
  bind_inv H. apply modify_mesh_last in Ha0 as ->.
  bind_inv H. apply modify_mesh_last in Ha0 as ->.
  bind_inv H. destruct a as [m1 h1].
  apply InitializeValues_Ok in Ha0 as (li & input & Hli & Hin & -> & ->).
  simpl in Hli, Hin, H.
  bind_inv H. apply modify_mesh_last in Ha0 as ->.
  bind_inv H. apply modify_mesh_last in Ha0 as ->.
  bind_inv H. apply modify_mesh_last in Ha0 as ->.
  fold (working_surface mesh (Some (length (arrays h))) (_Mask m)) in H.
  set (surface := working_surface _ _ _) in *.
  bind_inv H. destruct a as [m2 h2]. rename Ha0 into Hmask.
  rewrite Hli in Hfixed. apply (tuples_mismatch_false _ _ _ _ Hin) in Hfixed.
  unfold InitializeMask in Hmask. simpl in Hmask.
  unfold get_mesh in Hmask. simpl in Hmask. rewrite snoc_lookup_last in Hmask.
  simpl in Hmask.
  destruct (_Mask m) as [lk|] eqn:Hk; simpl in Hmask.
  - injection Hmask as <- <-.
    unfold get_mesh in H. simpl in H. rewrite snoc_lookup_last in H. simpl in H.
    bind_inv H. rename a into fixed. apply deref_Ok in Ha0.
    change (GetNumberOfPoints surface) with (GetNumberOfPoints mesh) in H.
    destruct (mask_covers fixed (GetNumberOfPoints mesh)) eqn:Hcov; [|done].
    injection H as <- <-. simpl.
    exists lm, mesh, li, input, fixed, lk.
    repeat (split; [done|]). done.
  - unfold BoundaryMask, get_mesh in Hmask. simpl in Hmask.
    rewrite snoc_lookup_last in Hmask. simpl in Hmask.
    injection Hmask as <- <-.
    unfold get_mesh in H. simpl in H. rewrite snoc_lookup_last in H. simpl in H.
    bind_inv H. rename a into fixed. apply deref_Ok in Ha0.
    change (GetNumberOfPoints surface) with (GetNumberOfPoints mesh) in H.
    destruct (mask_covers fixed (GetNumberOfPoints mesh)) eqn:Hcov; [|done].
    injection H as <- <-. simpl in *.
    rewrite length_app in *. simpl in *.
    replace (length (arrays h) + 1)%nat with (S (length (arrays h))) in * by lia.
    rewrite <- app_assoc in *. simpl in *.
    assert (Hf : fixed = BoundaryMask_fill (GetNumberOfPoints mesh) (BoundaryPoints surface)).
    { rewrite lookup_app_r in Ha0 by lia.
      replace (S (length (arrays h)) - length (arrays h))%nat with 1%nat in Ha0 by lia.
      simpl in Ha0. by injection Ha0 as <-. }
    subst fixed.
    exists lm, mesh, li, input,
      (BoundaryMask_fill (GetNumberOfPoints mesh) (BoundaryPoints surface)),
      (S (length (arrays h))).
    repeat (split; [done|]). done.
Qed.

Lemma Initialize_Ok m h m' h' :
  Initialize NameOfType m h = Ok (m', h') ->
  exists lm mesh li input fixed lf,
    _Mesh m = Some lm /\ meshes h !! lm = Some mesh /\
    GetNumberOfPolys mesh <> 0%nat /\
    _Input m = Some li /\ arrays h !! li = Some input /\
    GetNumberOfTuples input = GetNumberOfPoints mesh /\
    tuples_mismatch h (_Fixed m) (GetNumberOfPoints mesh) = Ok false /\
    let ls := length (meshes h) in
    let lv := length (arrays h) in
    let surface := working_surface mesh (Some lv) (_Mask m) in
    meshes h' = meshes h ++ [surface] /\
    arrays h' !! lf = Some fixed /\
    m' = partition fixed (GetNumberOfPoints mesh)
           (set_Fixed (Some lf)
              (set_Values (Some lv) (set_Surface (Some ls) (set_Output None m)))) /\
    match _Mask m with
    | Some lk => lf = lk /\ arrays h' = arrays h ++ [initial_values input]
    | None => lf = S lv /\
        fixed = BoundaryMask_fill (GetNumberOfPoints mesh) (BoundaryPoints surface) /\
        arrays h' = arrays h ++ [initial_values input; fixed]
    end.
Proof.
  intros H. apply Initialize_Ok_mask in H
    as (lm & mesh & li & input & fixed & lf & H1 & H2 & H3 & H4 & H5 & H6 & H7 & H8 & H9
        & H10 & _ & H11).
  exists lm, mesh, li, input, fixed, lf. repeat (split; [done|]). done.
Qed.

(** C1: after [Initialize] completes on a mesh with P points, every point id
    is in exactly one of the fixed and the free list, the lists have F and N
    entries with F + N = P, the point at fixed ordinal k has compact index
    -(k+1) and the point at free ordinal r has compact index r, and decoding
    the compact index of a point leads back to its id. *)
Theorem Initialize_partition_bijection m h m' h' :
  Initialize NameOfType m h = Ok (m', h') ->
  exists surface fixed,
    surface_of m' h' = Some surface /\ fixed_of m' h' = Some fixed /\
    let P := GetNumberOfPoints surface in
    let F := NumberOfFixedPoints m' in
    let N := NumberOfFreePoints m' in
    (F + N = P)%nat /\
    length (_PointIndex m') = P /\
    NoDup (_FixedPoints m' ++ _FreePoints m') /\
    (forall id, id ∈ _FixedPoints m' ++ _FreePoints m' -> 0 <= id < Z.of_nat P) /\
    (forall i, (i < P)%nat ->
       (Z.of_nat i ∈ _FixedPoints m' <-> IsFixedPoint fixed i = true) /\
       (Z.of_nat i ∈ _FreePoints m' <-> IsFixedPoint fixed i = false)) /\
    (forall k i, _FixedPoints m' !! k = Some (Z.of_nat i) ->
       FreePointIndex m' i = - (Z.of_nat k + 1)) /\
    (forall r i, _FreePoints m' !! r = Some (Z.of_nat i) ->
       FreePointIndex m' i = Z.of_nat r) /\
    (forall i, (i < P)%nat ->
       let idx := FreePointIndex m' i in
       if idx <? 0 then
         (Z.to_nat (- idx - 1) < F)%nat /\
         FixedPointId m' (Z.to_nat (- idx - 1)) = Z.of_nat i
       else
         (Z.to_nat idx < N)%nat /\ FreePointId m' (Z.to_nat idx) = Z.of_nat i).
Proof.
  intros H.
  apply Initialize_Ok in H
    as (lm & mesh & li & input & fixed & lf & _ & _ & _ & _ & _ & _ & _ & Hms & Hf & Hm & _).
  cbv zeta in Hms, Hm.
  set (m1 := set_Fixed _ _) in Hm.
  set (surface := working_surface _ _ _) in Hms.
  pose proof (partition_attributes fixed (GetNumberOfPoints mesh) m1)
    as (_ & _ & _ & _ & Hs & _ & Hfx & _).
  exists surface, fixed. subst m'.
  split; [|split].
  - unfold surface_of. rewrite Hs, Hms. simpl. apply snoc_lookup_last.
  - unfold fixed_of. rewrite Hfx. done.
  - change (GetNumberOfPoints surface) with (GetNumberOfPoints mesh).
    set (P := GetNumberOfPoints mesh). cbv zeta.
    split; [apply partition_sizes|].
    split; [apply partition_closed_form|].
    split; [apply partition_NoDup|].
    split; [apply partition_ids_range|].
    split.
    { intros i Hi. rewrite partition_fixed_elem, partition_free_elem. tauto. }
    split.
    { intros k i Hk. by apply partition_fixed_ordinal in Hk as (_ & _ & ?). }
    split.
    { intros r i Hr. by apply partition_free_ordinal in Hr as (_ & _ & ?). }
    intros i Hi. pose proof (partition_decode fixed P m1 i Hi) as Hd.
    cbv zeta in Hd. unfold FixedPointIndex in Hd. fold (FreePointIndex (partition fixed P m1) i) in Hd.
    destruct (IsFixedPoint fixed i).
    + destruct Hd as (Hneg & Hd). apply Z.ltb_lt in Hneg. rewrite Hneg. done.
    + destruct Hd as (Hpos & Hd). apply Z.ltb_ge in Hpos. rewrite Hpos. done.
Qed.

Lemma Initialize_is_partition m h m' h' :
  Initialize NameOfType m h = Ok (m', h') ->
  exists surface fixed m1,
    surface_of m' h' = Some surface /\ fixed_of m' h' = Some fixed /\
    m' = partition fixed (GetNumberOfPoints surface) m1.
Proof.
  intros H.
  apply Initialize_Ok in H
    as (lm & mesh & li & input & fixed & lf & _ & _ & _ & _ & _ & _ & _ & Hms & Hf & Hm & _).
  cbv zeta in Hms, Hm.
  set (m1 := set_Fixed _ _) in Hm.
  set (surface := working_surface _ _ _) in Hms.
  pose proof (partition_attributes fixed (GetNumberOfPoints mesh) m1)
    as (_ & _ & _ & _ & Hs & _ & Hfx & _).
  exists surface, fixed, m1. subst m'.
  split; [|split; [|done]].
  - unfold surface_of. rewrite Hs, Hms. simpl. apply snoc_lookup_last.
  - unfold fixed_of. rewrite Hfx. done.
Qed.

(** *** The boundary mask *)

Lemma BoundaryMask_fill_tuples (ptIds : list nat) (a : @DataArray T) (n : nat) (x : nat -> T) :
  (forall i, (i < n)%nat -> Tuples a !! i = Some [x i]) ->
  let a' := fold_left (fun mask id => SetComponent mask id 0 d_one) ptIds a in
  Name a' = Name a /\ NumberOfComponents a' = NumberOfComponents a /\
  length (Tuples a') = length (Tuples a) /\
  forall i, (i < n)%nat ->
    Tuples a' !! i = Some [if decide (i ∈ ptIds) then d_one else x i].
Proof.
  revert a x. induction ptIds as [|id ptIds IH]; intros a x Ha.
  - simpl. repeat split; try done.
  - cbn [fold_left].
    destruct (IH (SetComponent a id 0 d_one)
                 (fun i => if decide (i = id) then d_one else x i))
      as (Hn & Hc & Hl & Ht).
    { intros i Hi. simpl. destruct (decide (i = id)) as [->|Hne].
      - rewrite list_lookup_alter_eq, Ha by done. simpl. by rewrite d_cast_one.
      - rewrite list_lookup_alter_ne by done. by apply Ha. }
    cbv zeta. rewrite Hn, Hc, Hl. simpl. rewrite length_alter.
    repeat split; try done.
    intros i Hi. rewrite Ht by done. f_equal. f_equal.
    destruct (decide (i = id)) as [->|Hne].
    + rewrite (decide_True (P := id ∈ id :: ptIds)) by (rewrite elem_of_cons; auto).
      by destruct (decide (id ∈ ptIds)).
    + destruct (decide (i ∈ ptIds)).
      * rewrite decide_True; [done|]. rewrite elem_of_cons. auto.
      * rewrite decide_False; [done|]. rewrite elem_of_cons. tauto.
Qed.

Lemma BoundaryMask_fill_spec (n : nat) (ptIds : list nat) :
  let mask := BoundaryMask_fill n ptIds in
  NumberOfComponents mask = 1%nat /\ GetNumberOfTuples mask = n /\
  forall i, (i < n)%nat ->
    Tuples mask !! i = Some [if decide (i ∈ ptIds) then d_one else d_zero].
Proof.
  unfold BoundaryMask_fill, GetNumberOfTuples. rewrite d_cast_zero.
  destruct (BoundaryMask_fill_tuples ptIds
              (mkDataArray VTK_UNSIGNED_CHAR "FixedPoints"%string 1 (replicate n [d_zero]))
              n (fun _ => d_zero))
    as (_ & Hc & Hl & Ht).
  { intros i Hi. simpl. by apply lookup_replicate_2. }
  cbv zeta in *. rewrite Hc, Hl. simpl. rewrite length_replicate. done.
Qed.

Lemma on_boundary_spec (polys : list (list nat)) (i : nat) :
  on_boundary polys i = true <->
  exists e, e ∈ concat (cell_edges <$> polys) /\
            edge_uses polys e = 1%nat /\ (e.1 = i \/ e.2 = i).
Proof.
  unfold on_boundary, is_boundary_edge. rewrite existsb_exists.
  split; intros (e & He & Hb); exists e.
  - apply list_elem_of_In in He. split; [done|].
    apply andb_true_iff in Hb as [Hu Hi]. apply Nat.eqb_eq in Hu.
    apply orb_true_iff in Hi. rewrite !Nat.eqb_eq in Hi. done.
  - apply list_elem_of_In in He. split; [done|].
    destruct Hb as [Hu Hi]. apply andb_true_iff. split; [by apply Nat.eqb_eq|].
    apply orb_true_iff. by rewrite !Nat.eqb_eq.
Qed.

Lemma BoundaryPoints_elem (s : @PolyData T) (i : nat) :
  i ∈ BoundaryPoints s <-> (i < GetNumberOfPoints s)%nat /\ on_boundary (Polys s) i = true.
Proof.
  unfold BoundaryPoints. rewrite list_elem_of_filter, elem_of_seq, Is_true_true.
  intuition lia.
Qed.

(** C8: [BoundaryMask] returns an array with one entry per surface point,
    1.0 at the points incident to a boundary edge and 0.0 at the others;
    when the caller sets no mask, [Initialize] takes this array for the fixed
    mask, and the fixed points are the boundary points. *)
Theorem BoundaryMask_is_default_fixed_mask :
  (forall m h l h',
     BoundaryMask m h = Ok (l, h') ->
     exists surface mask,
       surface_of m h = Some surface /\ arrays h' !! l = Some mask /\
       mask = BoundaryMask_fill (GetNumberOfPoints surface) (BoundaryPoints surface) /\
       NumberOfComponents mask = 1%nat /\
       GetNumberOfTuples mask = GetNumberOfPoints surface /\
       forall i, (i < GetNumberOfPoints surface)%nat ->
         Tuples mask !! i =
           Some [if on_boundary (Polys surface) i then d_one else d_zero] /\
         (on_boundary (Polys surface) i = true <->
          exists e, e ∈ concat (cell_edges <$> Polys surface) /\
                    edge_uses (Polys surface) e = 1%nat /\ (e.1 = i \/ e.2 = i))) /\
  (forall m h m' h',
     Initialize NameOfType m h = Ok (m', h') ->
     _Mask m = None ->
     exists surface,
       surface_of m' h' = Some surface /\
       fixed_of m' h' =
         Some (BoundaryMask_fill (GetNumberOfPoints surface) (BoundaryPoints surface)) /\
       forall i, (i < GetNumberOfPoints surface)%nat ->
         (Z.of_nat i ∈ _FixedPoints m' <-> on_boundary (Polys surface) i = true) /\
         (Z.of_nat i ∈ _FreePoints m' <-> on_boundary (Polys surface) i = false)).
Proof.
  split.
  - intros m h l h' H. unfold BoundaryMask in H.
    apply bind_Ok in H as (ls & Hls & H). apply deref_Ok in Hls.
    apply bind_Ok in H as (surface & Hs & H). apply deref_Ok in Hs.
    injection H as <- <-.
    destruct (BoundaryMask_fill_spec (GetNumberOfPoints surface) (BoundaryPoints surface))
      as (Hc & Hn & Ht).
    exists surface, (BoundaryMask_fill (GetNumberOfPoints surface) (BoundaryPoints surface)).
    split; [unfold surface_of; by rewrite Hls|].
    split; [apply snoc_lookup_last|]. split; [done|]. split; [done|]. split; [done|].
    intros i Hi. split; [|apply on_boundary_spec].
    rewrite Ht by done. f_equal. f_equal.
    destruct (decide (i ∈ BoundaryPoints surface)) as [Hin|Hin];
      rewrite BoundaryPoints_elem in Hin.
    + destruct Hin as [_ ->]. done.
    + destruct (on_boundary (Polys surface) i); [|done]. exfalso. by apply Hin.
  - intros m h m' h' H Hmask.
    apply Initialize_Ok in H
      as (lm & mesh & li & input & fixed & lf & _ & _ & _ & _ & _ & _ & _ & Hms & Hf & Hm & Hk).
    rewrite Hmask in Hk, Hms. cbv zeta in Hms, Hm, Hk.
    destruct Hk as (-> & -> & Harr).
    set (surface := working_surface mesh (Some (length (arrays h))) None) in *.
    set (P := GetNumberOfPoints mesh) in *.
    set (m1 := set_Fixed _ _) in Hm.
    pose proof (partition_attributes (BoundaryMask_fill P (BoundaryPoints surface)) P m1)
      as (_ & _ & _ & _ & Hs & _ & Hfx & _).
    rewrite <- Hm in Hs, Hfx.
    exists surface.
    split; [|split].
    + unfold surface_of. rewrite Hs, Hms. simpl. apply snoc_lookup_last.
    + unfold fixed_of. rewrite Hfx. simpl. done.
    + intros i Hi. change (GetNumberOfPoints surface) with P in Hi.
      destruct (BoundaryMask_fill_spec P (BoundaryPoints surface)) as (_ & _ & Ht).
      assert (Hfixed : IsFixedPoint (BoundaryMask_fill P (BoundaryPoints surface)) i =
                       on_boundary (Polys surface) i).
      { unfold IsFixedPoint, GetComponent. rewrite Ht by done.
        destruct (decide (i ∈ BoundaryPoints surface)) as [Hin|Hin];
          rewrite BoundaryPoints_elem in Hin.
        - destruct Hin as [_ ->]. apply d_nonzero_one.
        - destruct (on_boundary (Polys surface) i); [|apply d_nonzero_zero].
          exfalso. by apply Hin. }
      subst m'. rewrite partition_fixed_elem, partition_free_elem, Hfixed. tauto.
Qed.

Lemma Initialize_completes m h lm mesh li input :
  _Mesh m = Some lm -> meshes h !! lm = Some mesh ->
  GetNumberOfPolys mesh <> 0%nat ->
  _Input m = Some li -> arrays h !! li = Some input ->
  GetNumberOfTuples input = GetNumberOfPoints mesh ->
  tuples_mismatch h (_Fixed m) (GetNumberOfPoints mesh) = Ok false ->
  (forall lk, _Mask m = Some lk ->
     exists mask, arrays h !! lk = Some mask /\
                  mask_covers mask (GetNumberOfPoints mesh) = true) ->
  exists m' h', Initialize NameOfType m h = Ok (m', h').
Proof.
  intros Hm Hl Hp Hi Hin Hn Hf Hk. apply Nat.eqb_neq in Hp.
  unfold Initialize, get_mesh.
  cbn -[GetNumberOfPolys GetNumberOfPoints Nat.eqb tuples_mismatch modify_mesh].
  rewrite Hm, Hl.
  cbn -[GetNumberOfPolys GetNumberOfPoints Nat.eqb tuples_mismatch modify_mesh].
  rewrite Hp, Hi. rewrite (proj2 (tuples_mismatch_false h li input _ Hin) Hn).
  cbn -[GetNumberOfPolys GetNumberOfPoints Nat.eqb tuples_mismatch modify_mesh].
  rewrite Hf.
  cbn -[modify_mesh]. rewrite !modify_mesh_snoc.
  cbn -[modify_mesh]. rewrite !modify_mesh_snoc.
  cbn -[modify_mesh]. rewrite !modify_mesh_snoc.
  cbn -[modify_mesh]. rewrite !modify_mesh_snoc.
  cbn -[modify_mesh]. unfold InitializeValues, get_array.
  cbn -[modify_mesh]. rewrite Hi. cbn -[modify_mesh]. rewrite Hin.
  cbn -[modify_mesh]. rewrite !modify_mesh_snoc.
  cbn -[modify_mesh]. rewrite !modify_mesh_snoc.
  cbn -[modify_mesh]. rewrite !modify_mesh_snoc.
  cbn. unfold InitializeMask, get_mesh. cbn. rewrite snoc_lookup_last. cbn.
  destruct (_Mask m) as [lk|] eqn:Hmask; cbn.
  - destruct (Hk lk eq_refl) as (mask & Hmk & Hcov). do 2 eexists.
    rewrite snoc_lookup_last. cbn.
    rewrite (lookup_app_l_Some _ _ _ _ Hmk). cbn.
    unfold mask_covers, GetNumberOfPoints in Hcov. rewrite Hcov. reflexivity.
  - do 2 eexists.
    unfold BoundaryMask, get_mesh. cbn -[mask_covers].
    repeat (rewrite snoc_lookup_last; cbn -[mask_covers]).
    match goal with
    | |- (if mask_covers (fold_left _ ?l ?a) _ then _ else _) = _ =>
        destruct (BoundaryMask_fill_tuples l a 0 (fun _ => d_zero)) as (_ & _ & Hlen & _);
          [intros; lia|]
    end.
    cbv zeta in Hlen. unfold mask_covers, GetNumberOfTuples. rewrite Hlen. simpl.
    rewrite length_replicate, Nat.leb_refl. reflexivity.
Qed.

(** A mask of the caller that is shorter than the point count passes the
    checks and is read past its end. *)
Lemma Initialize_short_mask m h lm mesh li input lk mask :
  _Mesh m = Some lm -> meshes h !! lm = Some mesh ->
  GetNumberOfPolys mesh <> 0%nat ->
  _Input m = Some li -> arrays h !! li = Some input ->
  GetNumberOfTuples input = GetNumberOfPoints mesh ->
  tuples_mismatch h (_Fixed m) (GetNumberOfPoints mesh) = Ok false ->
  _Mask m = Some lk -> arrays h !! lk = Some mask ->
  mask_covers mask (GetNumberOfPoints mesh) = false ->
  Initialize NameOfType m h = Undefined.
Proof.
  intros Hm Hl Hp Hi Hin Hn Hf Hmask Hmk Hcov. apply Nat.eqb_neq in Hp.
  unfold Initialize, get_mesh.
  cbn -[GetNumberOfPolys GetNumberOfPoints Nat.eqb tuples_mismatch modify_mesh].
  rewrite Hm, Hl.
  cbn -[GetNumberOfPolys GetNumberOfPoints Nat.eqb tuples_mismatch modify_mesh].
  rewrite Hp, Hi. rewrite (proj2 (tuples_mismatch_false h li input _ Hin) Hn).
  cbn -[GetNumberOfPolys GetNumberOfPoints Nat.eqb tuples_mismatch modify_mesh].
  rewrite Hf.
  cbn -[modify_mesh]. rewrite !modify_mesh_snoc.
  cbn -[modify_mesh]. rewrite !modify_mesh_snoc.
  cbn -[modify_mesh]. rewrite !modify_mesh_snoc.
  cbn -[modify_mesh]. rewrite !modify_mesh_snoc.
  cbn -[modify_mesh]. unfold InitializeValues, get_array.
  cbn -[modify_mesh]. rewrite Hi. cbn -[modify_mesh]. rewrite Hin.
  cbn -[modify_mesh]. rewrite !modify_mesh_snoc.
  cbn -[modify_mesh]. rewrite !modify_mesh_snoc.
  cbn -[modify_mesh]. rewrite !modify_mesh_snoc.
  cbn. unfold InitializeMask, get_mesh. cbn. rewrite snoc_lookup_last. cbn.
  rewrite Hmask. cbn. rewrite snoc_lookup_last. cbn.
  rewrite (lookup_app_l_Some _ _ _ _ Hmk). cbn.
  unfold mask_covers, GetNumberOfPoints in Hcov. rewrite Hcov. reflexivity.
Qed.

End Lifecycle.

Section Assembly.

Context {T : Type} `{DT : !Double T}.
Variable Weight : @PolyData T -> nat -> nat -> T.
Implicit Types (m : @SurfaceMapper T) (surface : @PolyData T) (values : @DataArray T).
Implicit Types (st : @Assembly T) (M : gmap (Z * Z) T).

Lemma add_triplet_lookup M r c v p :
  add_triplet M (r, c, v) !! p =
  if decide ((r, c) = p)
  then Some (match M !! (r, c) with None => v | Some x => d_add x v end)
  else M !! p.
Proof.
  unfold add_triplet. rewrite lookup_partial_alter.
  repeat case_decide; done.
Qed.

Lemma add_mirrored_symmetric M r c v :
  symmetric_entries M ->
  symmetric_entries (add_triplet (add_triplet M (r, c, v)) (c, r, v)).
Proof.
  intros HM r' c'. rewrite !add_triplet_lookup.
  repeat case_decide; simplify_eq; rewrite ?(HM c r); try done.
  all: try (rewrite (HM r' c'); done).
Qed.

Lemma add_diagonal_symmetric M r v :
  symmetric_entries M -> symmetric_entries (add_triplet M (r, r, v)).
Proof.
  intros HM r' c'. rewrite !add_triplet_lookup.
  repeat case_decide; simplify_eq; try done; apply HM.
Qed.

Lemma fold_mirrored_symmetric l M :
  mirrored l -> symmetric_entries M -> symmetric_entries (fold_left add_triplet l M).
Proof.
  intros Hl. revert M. induction Hl as [|l r c v Hl IH]; intros M HM; [done|].
  rewrite fold_left_app. simpl. by apply add_mirrored_symmetric, IH.
Qed.

Lemma fold_diagonal_symmetric n (d : list T) M :
  symmetric_entries M -> symmetric_entries (fold_left add_triplet (diagonal n d) M).
Proof.
  unfold diagonal. revert M. induction (seq 0 n) as [|r l IH]; intros M HM; [done|].
  simpl. by apply IH, add_diagonal_symmetric.
Qed.

Lemma edge_step_mirrored m surface values mc st e :
  mirrored (w st) -> mirrored (w (edge_step Weight m surface values mc st e)).
Proof.
  intros Hst. unfold edge_step. destruct (edge_visited m e); [|done].
  destruct e as [i j]. unfold edge_contribution.
  destruct (0 <=? FreePointIndex m i), (0 <=? FreePointIndex m j); simpl;
    try done; by constructor.
Qed.

Lemma assemble_edges_mirrored m surface values n mc edges :
  mirrored (w (assemble_edges Weight m surface values n mc edges)).
Proof.
  unfold assemble_edges.
  assert (H0 : mirrored (w (mkAssembly (T:=T) [] (replicate n d_zero) (dense_zero n mc))))
    by constructor.
  revert H0. generalize (mkAssembly (T:=T) [] (replicate n d_zero) (dense_zero n mc)).
  induction edges as [|e edges IH]; intros st Hst; simpl; [done|].
  by apply IH, edge_step_mirrored.
Qed.

Lemma edge_step_pushes m surface values mc st i j :
  0 <= FreePointIndex m i -> 0 <= FreePointIndex m j ->
  w (edge_step Weight m surface values mc st (i, j)) =
  w st ++ [(FreePointIndex m i, FreePointIndex m j, d_neg (Weight surface i j));
           (FreePointIndex m j, FreePointIndex m i, d_neg (Weight surface i j))].
Proof.
  intros Hr Hc. apply Z.leb_le in Hr, Hc.
  unfold edge_step, edge_visited, edge_contribution. simpl. rewrite Hr, Hc. done.
Qed.

Lemma edge_step_keeps m surface values mc st e :
  exists l, w (edge_step Weight m surface values mc st e) = w st ++ l.
Proof.
  unfold edge_step. destruct (edge_visited m e); [|exists []; by rewrite app_nil_r].
  destruct e as [i j]. unfold edge_contribution.
  destruct (0 <=? FreePointIndex m i), (0 <=? FreePointIndex m j); simpl;
    eauto; exists []; by rewrite app_nil_r.
Qed.

Lemma fold_edge_step_keeps m surface values mc edges st :
  exists l, w (fold_left (edge_step Weight m surface values mc) edges st) = w st ++ l.
Proof.
  revert st. induction edges as [|e edges IH]; intros st; simpl.
  - exists []. by rewrite app_nil_r.
  - destruct (IH (edge_step Weight m surface values mc st e)) as [l1 ->].
    destruct (edge_step_keeps m surface values mc st e) as [l0 ->].
    exists (l0 ++ l1). by rewrite app_assoc.
Qed.

Lemma alter_lookup_other {A} (f : A -> A) (l : list A) (r r0 : Z) :
  0 <= r -> 0 <= r0 -> r <> r0 -> alter f (Z.to_nat r) l !! Z.to_nat r0 = l !! Z.to_nat r0.
Proof. intros. apply list_lookup_alter_ne. lia. Qed.

Section Diagonal.

Variables (m : @SurfaceMapper T) (surface : @PolyData T) (values : @DataArray T).
Variables (mc : nat) (i0 : nat).
Local Abbreviation r0 := (FreePointIndex m i0).
Hypothesis Hfree : 0 <= r0.

Lemma edge_step_diagonal st i j :
  i <> j ->
  (FreePointIndex m i = r0 -> i = i0) ->
  (FreePointIndex m j = r0 -> j = i0) ->
  w_ii (edge_step Weight m surface values mc st (i, j)) !! Z.to_nat r0 =
  (fun acc => if decide (incident i0 (i, j)) then d_add acc (Weight surface i j) else acc)
    <$> w_ii st !! Z.to_nat r0.
Proof.
  intros Hij Hi Hj.
  destruct (decide (incident i0 (i, j))) as [Hinc|Hinc];
    unfold incident in Hinc; simpl in Hinc;
    unfold edge_step, edge_visited, edge_contribution; simpl.
  - destruct Hinc as [->| ->].
    + fold r0. assert (Hr : (0 <=? r0) = true) by (by apply Z.leb_le). rewrite Hr. simpl.
      assert (Hne : FreePointIndex m j <> r0) by (intros ?; apply Hij; symmetry; auto).
      destruct (0 <=? FreePointIndex m j) eqn:Hc; simpl.
      * apply Z.leb_le in Hc. rewrite alter_lookup_other by done.
        by rewrite list_lookup_alter_eq.
      * by rewrite list_lookup_alter_eq.
    + fold r0. assert (Hc : (0 <=? r0) = true) by (by apply Z.leb_le). rewrite Hc.
      rewrite orb_true_r.
      assert (Hne : FreePointIndex m i <> r0) by (intros ?; apply Hij; auto).
      destruct (0 <=? FreePointIndex m i) eqn:Hr; simpl.
      * apply Z.leb_le in Hr. rewrite list_lookup_alter_eq.
        by rewrite alter_lookup_other.
      * by rewrite list_lookup_alter_eq.
  - assert (Hni' : FreePointIndex m i <> r0) by (intros ?; apply Hinc; auto).
    assert (Hnj' : FreePointIndex m j <> r0) by (intros ?; apply Hinc; auto).
    destruct (0 <=? FreePointIndex m i) eqn:Hr, (0 <=? FreePointIndex m j) eqn:Hc;
      simpl; try (apply Z.leb_le in Hr); try (apply Z.leb_le in Hc);
      rewrite ?alter_lookup_other by done;
      by destruct (w_ii st !! Z.to_nat r0).
Qed.

Lemma fold_edge_step_diagonal edges st acc :
  (forall i j, (i, j) ∈ edges ->
     i <> j /\ (FreePointIndex m i = r0 -> i = i0) /\ (FreePointIndex m j = r0 -> j = i0)) ->
  w_ii st !! Z.to_nat r0 = Some acc ->
  w_ii (fold_left (edge_step Weight m surface values mc) edges st) !! Z.to_nat r0 =
  Some (fold_left d_add ((fun e => Weight surface e.1 e.2) <$> filter (incident i0) edges) acc).
Proof.
  revert st acc. induction edges as [|[i j] edges IH]; intros st acc Hwf Hacc; [done|].
  simpl. destruct (Hwf i j) as (Hij & Hi & Hj); [by left|].
  rewrite filter_cons.
  erewrite IH; [| intros; apply Hwf; by right | by rewrite edge_step_diagonal, Hacc].
  destruct (decide (incident i0 (i, j))); done.
Qed.

(** Triplets off the diagonal leave the diagonal entries alone. *)
Lemma fold_off_diagonal (l : list (Z * Z * T)) M :
  Forall (fun e => e.1.1 <> e.1.2) l ->
  fold_left add_triplet l M !! (r0, r0) = M !! (r0, r0).
Proof.
  intros Hl. revert M. induction Hl as [|[[r c] v] l Hrc _ IH]; intros M; [done|].
  cbn [fold_left]. rewrite IH, add_triplet_lookup. simpl in Hrc.
  rewrite decide_False; [done|]. intros [= -> ->]. done.
Qed.

Lemma fold_diagonal_entry (d : list T) (a k : nat) M :
  fold_left add_triplet
    ((fun r => (Z.of_nat r, Z.of_nat r, default d_zero (d !! r))) <$> seq a k) M !! (r0, r0) =
  if decide (a <= Z.to_nat r0 < a + k)%nat
  then Some (match M !! (r0, r0) with
             | None => default d_zero (d !! Z.to_nat r0)
             | Some x => d_add x (default d_zero (d !! Z.to_nat r0))
             end)
  else M !! (r0, r0).
Proof.
  revert a M. induction k as [|k IH]; intros a M.
  - simpl. rewrite decide_False by lia. done.
  - cbn [seq fmap list_fmap fold_left]. rewrite IH, add_triplet_lookup.
    destruct (decide ((Z.of_nat a, Z.of_nat a) = (r0, r0))) as [Heq|Hne].
    + injection Heq as Heq _. rewrite decide_False by lia. rewrite decide_True by lia.
      assert (a = Z.to_nat r0) as -> by lia. rewrite Z2Nat.id by done. done.
    + assert (a <> Z.to_nat r0) by (intros ->; apply Hne; by rewrite Z2Nat.id).
      destruct (decide (S a <= Z.to_nat r0 < S a + k)%nat).
      * rewrite decide_True by lia. done.
      * rewrite decide_False by lia. done.
Qed.

End Diagonal.

Lemma edge_step_off_diagonal m surface values mc st i j :
  (0 <= FreePointIndex m i -> FreePointIndex m i <> FreePointIndex m j) ->
  Forall (fun e => e.1.1 <> e.1.2) (w st) ->
  Forall (fun e => e.1.1 <> e.1.2) (w (edge_step Weight m surface values mc st (i, j))).
Proof.
  intros Hne Hst. unfold edge_step, edge_visited, edge_contribution. simpl.
  destruct (0 <=? FreePointIndex m i) eqn:Hr, (0 <=? FreePointIndex m j) eqn:Hc;
    simpl; try done.
  apply Z.leb_le in Hr. specialize (Hne Hr).
  apply Forall_app. split; [done|]. repeat constructor; simpl; congruence.
Qed.

Lemma fold_edge_step_off_diagonal m surface values mc edges st :
  (forall i j, (i, j) ∈ edges ->
     0 <= FreePointIndex m i -> FreePointIndex m i <> FreePointIndex m j) ->
  Forall (fun e => e.1.1 <> e.1.2) (w st) ->
  Forall (fun e => e.1.1 <> e.1.2)
         (w (fold_left (edge_step Weight m surface values mc) edges st)).
Proof.
  revert st. induction edges as [|[i j] edges IH]; intros st Hwf Hst; [done|].
  simpl. apply IH.
  - intros. apply Hwf; [by right | done].
  - apply edge_step_off_diagonal; [|done]. apply Hwf. by left.
Qed.

Lemma edge_step_w_ii_length m surface values mc st e :
  length (w_ii (edge_step Weight m surface values mc st e)) = length (w_ii st).
Proof.
  unfold edge_step. destruct (edge_visited m e); [|done].
  destruct e as [i j]. unfold edge_contribution.
  destruct (0 <=? FreePointIndex m i), (0 <=? FreePointIndex m j); simpl;
    by rewrite ?length_alter.
Qed.

(** The diagonal entry of a free point, for a mapper whose compact indices
    tell the endpoints of the edges apart. *)
Lemma assemble_diagonal m surface values n mc edges i0 :
  0 <= FreePointIndex m i0 ->
  (Z.to_nat (FreePointIndex m i0) < n)%nat ->
  (forall i j, (i, j) ∈ edges ->
     i <> j /\ FreePointIndex m i <> FreePointIndex m j /\
     (FreePointIndex m i = FreePointIndex m i0 -> i = i0) /\
     (FreePointIndex m j = FreePointIndex m i0 -> j = i0)) ->
  coeff (assemble Weight m surface values n mc edges).1
        (FreePointIndex m i0) (FreePointIndex m i0) =
  incident_weight_sum Weight surface edges i0.
Proof.
  intros Hfree Hrange Hwf.
  unfold coeff, assemble, setFromTriplets, triplets, diagonal. simpl.
  rewrite fold_left_app.
  rewrite fold_diagonal_entry by done.
  rewrite decide_True by lia.
  rewrite fold_off_diagonal.
  2:{ apply fold_edge_step_off_diagonal; [|constructor].
      intros i j Hin _. by apply Hwf. }
  rewrite lookup_empty. simpl.
  unfold assemble_edges.
  erewrite fold_edge_step_diagonal; [done|done| |].
  - intros i j Hin. destruct (Hwf i j Hin) as (? & ? & ? & ?). done.
  - simpl. apply lookup_replicate_2. done.
Qed.

Lemma dense_zero_dims n mc : has_dims n mc (dense_zero n mc).
Proof.
  split; [apply length_replicate|].
  apply Forall_forall. intros row Hrow.
  apply elem_of_replicate in Hrow as [-> _]. apply length_replicate.
Qed.

Lemma dense_add_dims n mc x r l v : has_dims n mc x -> has_dims n mc (dense_add x r l v).
Proof.
  intros [Hn Hrows]. unfold dense_add. split; [by rewrite length_alter|].
  apply Forall_alter; [done|].
  intros row _ Hrow. by rewrite length_alter.
Qed.

Lemma has_dims_get n mc x r l :
  has_dims n mc x -> (r < n)%nat -> (l < mc)%nat ->
  x !! r ≫= (fun row => row !! l) = Some (dense_get x r l).
Proof.
  intros [Hn Hrows] Hr Hl. unfold dense_get.
  destruct (lookup_lt_is_Some_2 x r) as [row Hrow]; [lia|].
  rewrite Hrow. simpl.
  assert (Hlen : length row = mc)
    by (eapply (proj1 (Forall_lookup _ _) Hrows); done).
  destruct (lookup_lt_is_Some_2 row l) as [y Hy]; [lia|].
  by rewrite Hy.
Qed.

Lemma dense_add_get n mc x r l v r' l' :
  has_dims n mc x -> (r < n)%nat -> (l < mc)%nat ->
  dense_get (dense_add x r l v) r' l' =
  if decide (r' = r /\ l' = l) then d_add (dense_get x r l) v else dense_get x r' l'.
Proof.
  intros Hd Hr Hl. pose proof (has_dims_get n mc x r l Hd Hr Hl) as Hget.
  unfold dense_get, dense_add in *.
  destruct (decide (r' = r)) as [->|Hne].
  - rewrite list_lookup_alter_eq.
    destruct (x !! r) as [row|]; simpl in *; [|done].
    destruct (decide (l' = l)) as [->|Hnl].
    + rewrite decide_True by done. rewrite list_lookup_alter_eq.
      destruct (row !! l); simpl in *; done.
    + rewrite decide_False by tauto. by rewrite list_lookup_alter_ne.
  - rewrite decide_False by tauto. by rewrite list_lookup_alter_ne.
Qed.

Lemma fold_fixed_prefix values n mc w_ij (r : Z) j x (k : nat) :
  has_dims n mc x -> (Z.to_nat r < n)%nat -> (k <= mc)%nat ->
  let x' := fold_left (fun b l =>
              dense_add b (Z.to_nat r) l (d_mul w_ij (GetValue values j l))) (seq 0 k) x in
  has_dims n mc x' /\
  forall r' l', dense_get x' r' l' =
    if decide (r' = Z.to_nat r /\ (l' < k)%nat)
    then d_add (dense_get x r' l') (d_mul w_ij (GetValue values j l'))
    else dense_get x r' l'.
Proof.
  intros Hd Hr. induction k as [|k IH]; intros Hk.
  - simpl. split; [done|]. intros r' l'. rewrite decide_False by lia. done.
  - destruct IH as [Hd' Hget]; [lia|]. cbv zeta. rewrite fold_left_seq_S.
    split; [by apply dense_add_dims|].
    intros r' l'. rewrite (dense_add_get n mc) by (done || lia).
    rewrite !Hget.
    destruct (decide (r' = Z.to_nat r)) as [->|Hne].
    + destruct (decide (l' = k)) as [->|Hnl].
      * rewrite decide_True by done. rewrite decide_False by lia.
        rewrite decide_True by lia. done.
      * rewrite decide_False by tauto.
        destruct (decide (l' < k)%nat).
        -- rewrite !decide_True by lia. done.
        -- rewrite !decide_False by lia. done.
    + rewrite !decide_False by tauto. done.
Qed.

Lemma fold_fixed_get values n mc w_ij (r : Z) j x r' l' :
  has_dims n mc x -> (Z.to_nat r < n)%nat ->
  dense_get (fold_fixed values mc w_ij r j x) r' l' =
  if decide (r' = Z.to_nat r /\ (l' < mc)%nat)
  then d_add (dense_get x r' l') (d_mul w_ij (GetValue values j l'))
  else dense_get x r' l'.
Proof.
  intros Hd Hr. by apply (fold_fixed_prefix values n mc w_ij r j x mc Hd Hr).
Qed.

Lemma fold_fixed_dims values n mc w_ij (r : Z) j x :
  has_dims n mc x -> (Z.to_nat r < n)%nat -> has_dims n mc (fold_fixed values mc w_ij r j x).
Proof.
  intros Hd Hr. by apply (fold_fixed_prefix values n mc w_ij r j x mc Hd Hr).
Qed.

End Assembly.

Section AssemblyAfterInitialize.

Context {T : Type} `{DT : !Double T}.
Variable NameOfType : string.
Variable Weight : @PolyData T -> nat -> nat -> T.
Implicit Types (m : @SurfaceMapper T) (h : @Store T) (st : @Assembly T).

(** C3: for a free point i of compact index r, the diagonal entry A(r,r) of
    the assembled matrix is the sum of Weight over the mesh edges incident to
    i, whether the other endpoint is free or fixed.  Mesh edges join two
    different points of the surface. *)
Theorem diagonal_is_incident_weight_sum m h m' h' surface values mc edges i0 :
  Initialize NameOfType m h = Ok (m', h') ->
  surface_of m' h' = Some surface ->
  (forall i j, (i, j) ∈ edges ->
     i <> j /\ (i < GetNumberOfPoints surface)%nat /\ (j < GetNumberOfPoints surface)%nat) ->
  (i0 < GetNumberOfPoints surface)%nat ->
  0 <= FreePointIndex m' i0 ->
  coeff (assemble Weight m' surface values (NumberOfFreePoints m') mc edges).1
        (FreePointIndex m' i0) (FreePointIndex m' i0) =
  incident_weight_sum Weight surface edges i0.
Proof.
  intros Hinit Hs Hedges Hi0 Hfree.
  apply Initialize_is_partition in Hinit as (surface' & fixed & m1 & Hs' & _ & ->).
  rewrite Hs in Hs'. injection Hs' as <-.
  set (P := GetNumberOfPoints surface) in *.
  apply assemble_diagonal; [done | by apply partition_index_sign |].
  intros i j Hin. destruct (Hedges i j Hin) as (Hij & Hi & Hj).
  split; [done|]. split; [|split].
  - intros Heq. by apply partition_index_inj in Heq.
  - by apply partition_index_inj.
  - by apply partition_index_inj.
Qed.

(** C4: in the edge loop an edge is passed over, leaving the triplets, the
    diagonal sums and the right-hand side as they are whatever [Weight]
    would answer, exactly when both of its endpoints are fixed; any other
    edge goes through the guarded block, which adds its weight to the
    diagonal sum of each free endpoint. *)
Theorem edge_skipped_iff_both_fixed m h m' h' surface fixed values mc st i j :
  Initialize NameOfType m h = Ok (m', h') ->
  surface_of m' h' = Some surface ->
  fixed_of m' h' = Some fixed ->
  (i < GetNumberOfPoints surface)%nat ->
  (j < GetNumberOfPoints surface)%nat ->
  (edge_visited m' (i, j) = false <->
     IsFixedPoint fixed i = true /\ IsFixedPoint fixed j = true) /\
  (IsFixedPoint fixed i = true /\ IsFixedPoint fixed j = true ->
     forall W, edge_step W m' surface values mc st (i, j) = st) /\
  (~ (IsFixedPoint fixed i = true /\ IsFixedPoint fixed j = true) ->
     edge_step Weight m' surface values mc st (i, j) =
       edge_contribution Weight m' surface values mc st (i, j) /\
     (i <> j ->
      forall p, (p = i \/ p = j) -> IsFixedPoint fixed p = false ->
        w_ii (edge_step Weight m' surface values mc st (i, j))
          !! Z.to_nat (FreePointIndex m' p) =
        (fun x => d_add x (Weight surface i j))
          <$> w_ii st !! Z.to_nat (FreePointIndex m' p))).
Proof.
  intros Hinit Hs Hf Hi Hj.
  apply Initialize_is_partition in Hinit as (surface' & fixed' & m1 & Hs' & Hf' & ->).
  rewrite Hs in Hs'. injection Hs' as <-. rewrite Hf in Hf'. injection Hf' as <-.
  set (P := GetNumberOfPoints surface) in *.
  destruct (partition_index_sign fixed P m1 i Hi) as [Hsi _].
  destruct (partition_index_sign fixed P m1 j Hj) as [Hsj _].
  assert (Hiff : edge_visited (partition fixed P m1) (i, j) = false <->
                 IsFixedPoint fixed i = true /\ IsFixedPoint fixed j = true).
  { unfold edge_visited. simpl. rewrite Hsi, Hsj.
    destruct (IsFixedPoint fixed i), (IsFixedPoint fixed j); simpl; intuition congruence. }
  split; [done|]. split.
  - intros Hboth W. apply Hiff in Hboth. unfold edge_step. by rewrite Hboth.
  - intros Hnot.
    assert (Hv : edge_visited (partition fixed P m1) (i, j) = true).
    { destruct (edge_visited (partition fixed P m1) (i, j)); [done|]. tauto. }
    split; [unfold edge_step; by rewrite Hv|].
    intros Hij p Hp Hfree.
    assert (HpP : (p < P)%nat) by (destruct Hp as [->| ->]; done).
    destruct (partition_index_sign fixed P m1 p HpP) as [Hsp _].
    rewrite Hfree in Hsp. apply Z.leb_le in Hsp.
    rewrite edge_step_diagonal; [|done|done|..].
    + destruct (decide (incident p (i, j))) as [|Hn]; [done|].
      exfalso. apply Hn. unfold incident. simpl. destruct Hp; auto.
    + by apply partition_index_inj.
    + by apply partition_index_inj.
Qed.

(** C5: an edge (i,j) of weight w with one endpoint free, p, and the other
    fixed, q, adds w times the value of q to row [FreePointIndex p] of the
    right-hand side, in each of the m components, changes no other entry of
    the right-hand side and pushes no triplet. *)
Theorem one_free_endpoint_folds_value m h m' h' surface fixed values mc st i j p q :
  Initialize NameOfType m h = Ok (m', h') ->
  surface_of m' h' = Some surface ->
  fixed_of m' h' = Some fixed ->
  (i < GetNumberOfPoints surface)%nat ->
  (j < GetNumberOfPoints surface)%nat ->
  (p = i /\ q = j) \/ (p = j /\ q = i) ->
  IsFixedPoint fixed p = false ->
  IsFixedPoint fixed q = true ->
  has_dims (NumberOfFreePoints m') mc (b st) ->
  let st' := edge_step Weight m' surface values mc st (i, j) in
  let r := Z.to_nat (FreePointIndex m' p) in
  w st' = w st /\
  has_dims (NumberOfFreePoints m') mc (b st') /\
  (forall l, (l < mc)%nat ->
     dense_get (b st') r l =
     d_add (dense_get (b st) r l) (d_mul (Weight surface i j) (GetValue values q l))) /\
  (forall r' l, r' <> r -> dense_get (b st') r' l = dense_get (b st) r' l).
Proof.
  intros Hinit Hs Hf Hi Hj Hpq Hfree Hfix Hdims.
  apply Initialize_is_partition in Hinit as (surface' & fixed' & m1 & Hs' & Hf' & ->).
  rewrite Hs in Hs'. injection Hs' as <-. rewrite Hf in Hf'. injection Hf' as <-.
  set (P := GetNumberOfPoints surface) in *.
  set (m' := partition fixed P m1) in *.
  assert (HpP : (p < P)%nat) by (destruct Hpq as [[-> ->]|[-> ->]]; done).
  assert (HqP : (q < P)%nat) by (destruct Hpq as [[-> ->]|[-> ->]]; done).
  destruct (partition_index_sign fixed P m1 p HpP) as [Hsp Hrp].
  destruct (partition_index_sign fixed P m1 q HqP) as [Hsq _].
  fold m' in Hsp, Hrp, Hsq. rewrite Hfree in Hsp. rewrite Hfix in Hsq. simpl in Hsp, Hsq.
  assert (Hr : (Z.to_nat (FreePointIndex m' p) < NumberOfFreePoints m')%nat)
    by (apply Hrp; by apply Z.leb_le).
  cbv zeta. unfold edge_step, edge_visited, edge_contribution. simpl.
  destruct Hpq as [[-> ->]|[-> ->]]; rewrite Hsp, Hsq; simpl.
  - split; [done|]. split; [by apply fold_fixed_dims|]. split.
    + intros l Hl. rewrite (fold_fixed_get _ _ _ _ _ _ _ _ _ Hdims Hr).
      rewrite decide_True by done. done.
    + intros r' l Hne. rewrite (fold_fixed_get _ _ _ _ _ _ _ _ _ Hdims Hr).
      rewrite decide_False by tauto. done.
  - split; [done|]. split; [by apply fold_fixed_dims|]. split.
    + intros l Hl. rewrite (fold_fixed_get _ _ _ _ _ _ _ _ _ Hdims Hr).
      rewrite decide_True by done. done.
    + intros r' l Hne. rewrite (fold_fixed_get _ _ _ _ _ _ _ _ _ Hdims Hr).
      rewrite decide_False by tauto. done.
Qed.

End AssemblyAfterInitialize.

Section RunProperties.

Context {T : Type} `{DT : !Double T}.
Variable NameOfType : string.
Variable Weight : @PolyData T -> nat -> nat -> T.
Variable solveWithGuess :
  option Z -> option T -> @SparseMatrix T -> list (list T) -> list (list T) -> list (list T).
Implicit Types (m : @SurfaceMapper T) (h : @Store T).

Lemma Solve_Ok m h m' h' :
  Solve Weight solveWithGuess m h = Ok (m', h') ->
  exists ls surface lv values x,
    _Surface m = Some ls /\ meshes h !! ls = Some surface /\
    _Values m = Some lv /\ arrays h !! lv = Some values /\
    m' = m /\
    h' = put_array lv
           (write_back m x (NumberOfFreePoints m) (NumberOfComponents values) values) h.
Proof.
  unfold Solve. intros H.
  apply bind_Ok in H as (ls & Hls & H). apply deref_Ok in Hls.
  apply bind_Ok in H as (surface & Hs & H). apply deref_Ok in Hs.
  apply bind_Ok in H as (lv & Hlv & H). apply deref_Ok in Hlv.
  apply bind_Ok in H as (values & Hv & H). apply deref_Ok in Hv.
  destruct (assemble _ _ _ _ _ _ _) as [A rhs]. injection H as <- <-.
  by eexists ls, surface, lv, values, _.
Qed.

Lemma Finalize_Ok m h m' h' :
  Finalize m h = Ok (m', h') ->
  h' = h /\ _Mesh m' = _Mesh m /\ _Input m' = _Input m /\ _Mask m' = _Mask m /\
  _Surface m' = _Surface m /\ _Values m' = _Values m /\
  (_Output m = None ->
   _Output m' = Some (mkPiecewiseLinearMap (_Surface m) (_Values m))).
Proof.
  unfold Finalize. destruct (_Output m); intros [= <- <-]; by repeat split.
Qed.

(** Rows of the value array that no free point id names are not written. *)
Lemma write_back_other m x n mc (values : @DataArray T) (i : nat) :
  (forall r, (r < n)%nat -> Z.to_nat (FreePointId m r) <> i) ->
  Tuples (write_back m x n mc values) !! i = Tuples values !! i.
Proof.
  unfold write_back. induction n as [|n IH]; intros Hfree; [done|].
  rewrite fold_left_seq_S.
  set (v := fold_left _ (seq 0 n) values) in *.
  assert (Hv : Tuples v !! i = Tuples values !! i) by (apply IH; intros; apply Hfree; lia).
  rewrite <- Hv. specialize (Hfree n ltac:(lia)).
  clear IH Hv. generalize v. clear v.
  induction mc as [|mc IHmc]; intros v; [done|].
  rewrite fold_left_seq_S. unfold SetValue at 1. simpl.
  rewrite list_lookup_alter_ne by done. apply IHmc.
Qed.

Lemma write_back_shape m x n mc (values : @DataArray T) :
  Name (write_back m x n mc values) = Name values /\
  NumberOfComponents (write_back m x n mc values) = NumberOfComponents values /\
  length (Tuples (write_back m x n mc values)) = length (Tuples values).
Proof.
  unfold write_back. induction n as [|n IH]; [done|].
  rewrite fold_left_seq_S.
  set (v := fold_left _ (seq 0 n) values) in *.
  destruct IH as (<- & <- & <-). generalize v. clear v.
  induction mc as [|mc IHmc]; intros v; [done|].
  rewrite fold_left_seq_S. unfold SetValue at 1 3 5. simpl.
  rewrite length_alter. apply IHmc.
Qed.

(** C9: a completed run leaves every object of the caller as it was: the
    mesh and the arrays the mapper was given hold what they held before, and
    the attributes naming them are unchanged.  The surface the mapper works
    on is another object, with the points and polygons of the mesh and
    without lines, vertices and cell data, and the values are written to an
    array other than the input array. *)
Theorem Run_leaves_inputs_unchanged m h m' h' :
  Run NameOfType Weight solveWithGuess m h = Ok (m', h') ->
  (_Mesh m' = _Mesh m /\ _Input m' = _Input m /\ _Mask m' = _Mask m) /\
  (forall l, (l < length (meshes h))%nat -> meshes h' !! l = meshes h !! l) /\
  (forall l, (l < length (arrays h))%nat -> arrays h' !! l = arrays h !! l) /\
  exists lm mesh li input ls surface lv,
    _Mesh m = Some lm /\ meshes h !! lm = Some mesh /\ meshes h' !! lm = Some mesh /\
    _Input m = Some li /\ arrays h !! li = Some input /\ arrays h' !! li = Some input /\
    _Surface m' = Some ls /\ ls <> lm /\ meshes h' !! ls = Some surface /\
    Points surface = Points mesh /\ Polys surface = Polys mesh /\
    Lines surface = [] /\ Verts surface = [] /\
    CellData surface = Attributes_Initialize /\
    _Values m' = Some lv /\ lv <> li.
Proof.
  unfold Run. intros H.
  apply bind_Ok in H as ([m1 h1] & Hinit & H).
  apply bind_Ok in H as ([m2 h2] & Hsolve & Hfin).
  apply Initialize_Ok in Hinit
    as (lm & mesh & li & input & fixed & lf & Hlm & Hmesh & _ & Hli & Hin & _ & _
        & Hms & Hf & Hm & Hk).
  cbv zeta in Hms, Hm, Hk.
  set (m0 := set_Fixed _ _) in Hm.
  pose proof (partition_attributes fixed (GetNumberOfPoints mesh) m0)
    as (A1 & A2 & A3 & _ & A5 & A6 & _).
  rewrite <- Hm in A1, A2, A3, A5, A6. simpl in A1, A2, A3, A5, A6.
  apply Solve_Ok in Hsolve as (ls & surface & lv & values & x & Hls & Hs & Hlv & Hv & -> & ->).
  apply Finalize_Ok in Hfin as (-> & F1 & F2 & F3 & F5 & F6 & _).
  rewrite A5 in Hls. injection Hls as <-. rewrite A6 in Hlv. injection Hlv as <-.
  assert (Harr : exists tl, arrays h1 = arrays h ++ tl).
  { destruct (_Mask m); destruct Hk as (_ & Hk); [|destruct Hk as (_ & Hk)]; eauto. }
  destruct Harr as [tl Harr].
  assert (Hold : forall l, (l < length (arrays h))%nat ->
                   arrays (put_array (length (arrays h))
                             (write_back m1 x (NumberOfFreePoints m1)
                                (NumberOfComponents values) values) h1) !! l
                   = arrays h !! l).
  { intros l Hl. simpl. rewrite list_lookup_insert_ne by lia.
    rewrite Harr. by apply lookup_app_l. }
  split; [by rewrite F1, F2, F3, A1, A2, A3|].
  split. { intros l Hl. simpl. rewrite Hms. by apply lookup_app_l. }
  split; [done|].
  exists lm, mesh, li, input, (length (meshes h)), surface, (length (arrays h)).
  pose proof (lookup_lt_Some _ _ _ Hmesh) as Hlt.
  pose proof (lookup_lt_Some _ _ _ Hin) as Hlt'.
  rewrite Hms, snoc_lookup_last in Hs. injection Hs as <-.
  repeat split; try done.
  - simpl. rewrite Hms. rewrite lookup_app_l by done. done.
  - rewrite Hold by done. done.
  - by rewrite F5, A5.
  - lia.
  - simpl. rewrite Hms. apply snoc_lookup_last.
  - by rewrite F6, A6.
  - lia.
Qed.

(** C10: [Solve] writes the value array at free points only: for a fixed
    point the tuple of values after [Solve], which is the one the output map
    refers to, is the tuple it had after [Initialize], the one copied from
    the input array. *)
Theorem Solve_keeps_fixed_values m h m1 h1 m2 h2 :
  Initialize NameOfType m h = Ok (m1, h1) ->
  Solve Weight solveWithGuess m1 h1 = Ok (m2, h2) ->
  exists surface fixed input before after,
    surface_of m1 h1 = Some surface /\ fixed_of m1 h1 = Some fixed /\
    (_Input m ≫= fun l => arrays h !! l) = Some input /\
    values_of m1 h1 = Some before /\ values_of m2 h2 = Some after /\
    (forall i, (i < GetNumberOfPoints surface)%nat ->
       IsFixedPoint fixed i = true ->
       Tuples after !! i = Tuples before !! i /\
       Tuples before !! i = Tuples input !! i /\
       forall l, GetValue after i l = GetValue input i l) /\
    forall m3 h3, Finalize m2 h2 = Ok (m3, h3) ->
      (_Output m3 ≫= Values) = _Values m2 /\ values_of m3 h3 = Some after.
Proof.
  intros Hinit Hsolve.
  apply Initialize_Ok in Hinit
    as (lm & mesh & li & input & fixed & lf & Hlm & Hmesh & _ & Hli & Hin & _ & _
        & Hms & Hf & Hm & Hk).
  cbv zeta in Hms, Hm, Hk.
  set (m0 := set_Fixed _ _) in Hm.
  set (P := GetNumberOfPoints mesh) in *.
  pose proof (partition_attributes fixed P m0) as (_ & _ & _ & A4 & A5 & A6 & A7 & _).
  rewrite <- Hm in A4, A5, A6, A7. simpl in A4, A5, A6, A7.
  apply Solve_Ok in Hsolve as (ls & surface & lv & values & x & Hls & Hs & Hlv & Hv & -> & ->).
  rewrite A5 in Hls. injection Hls as <-. rewrite A6 in Hlv. injection Hlv as <-.
  rewrite Hms, snoc_lookup_last in Hs. injection Hs as <-.
  assert (Hvalues : values = initial_values input).
  { destruct (_Mask m); destruct Hk as (_ & Hk); [|destruct Hk as (_ & Hk)];
      rewrite Hk in Hv.
    - rewrite snoc_lookup_last in Hv. by injection Hv.
    - change [initial_values input; fixed] with ([initial_values input] ++ [fixed]) in Hv.
      rewrite app_assoc, lookup_app_l, snoc_lookup_last in Hv
        by (rewrite length_app; simpl; lia).
      by injection Hv. }
  set (after := write_back m1 x (NumberOfFreePoints m1) (NumberOfComponents values) values).
  assert (Hafter : values_of m1 (put_array (length (arrays h)) after h1) = Some after).
  { unfold values_of. rewrite A6. simpl. apply list_lookup_insert_eq.
    by apply lookup_lt_Some in Hv. }
  exists (working_surface mesh (Some (length (arrays h))) (_Mask m)), fixed, input, values, after.
  split. { unfold surface_of. rewrite A5. simpl. rewrite Hms. apply snoc_lookup_last. }
  split. { unfold fixed_of. rewrite A7. done. }
  split. { rewrite Hli. done. }
  split. { unfold values_of. rewrite A6. done. }
  split; [done|].
  split.
  - intros i Hi Hfix. change (GetNumberOfPoints (working_surface _ _ _)) with P in Hi.
    assert (Hkeep : Tuples after !! i = Tuples values !! i).
    { apply write_back_other. intros r Hr. rewrite Hm in Hr |- *.
      apply partition_free_id in Hr as (i' & -> & _ & Hfree).
      rewrite Nat2Z.id. intros ->. congruence. }
    split; [done|]. split; [by rewrite Hvalues, initial_values_eq|].
    intros l. unfold GetValue, GetComponent. by rewrite Hkeep, Hvalues, initial_values_eq.
  - intros m3 h3 Hfin. apply Finalize_Ok in Hfin as (-> & _ & _ & _ & _ & F6 & Fout).
    rewrite Fout by done. simpl. split; [done|].
    unfold values_of in *. by rewrite F6.
Qed.

(** *** Fatal configuration errors *)

Lemma Run_exits_with_Initialize m h code msg :
  Initialize NameOfType m h = Exit code msg ->
  Run NameOfType Weight solveWithGuess m h = Exit code msg.
Proof. unfold Run. by intros ->. Qed.

Lemma Initialize_missing_mesh m h :
  _Mesh m = None ->
  Initialize NameOfType m h =
    Exit 1 (NameOfType +:+ "::Initialize: Missing input surface mesh").
Proof. unfold Initialize. simpl. by intros ->. Qed.

Ltac unfold_checks :=
  unfold Initialize, get_mesh, tuples_mismatch, get_array;
  cbn -[GetNumberOfPolys GetNumberOfPoints GetNumberOfTuples Nat.eqb].

Lemma Initialize_no_polys m h lm mesh :
  _Mesh m = Some lm -> meshes h !! lm = Some mesh ->
  GetNumberOfPolys mesh = 0%nat ->
  Initialize NameOfType m h =
    Exit 1 (NameOfType +:+ "::Initialize: Input point set must be a surface mesh").
Proof.
  intros Hm Hl Hp. unfold_checks. rewrite Hm, Hl. unfold_checks. by rewrite Hp.
Qed.

Lemma Initialize_input_mismatch m h lm mesh li input :
  _Mesh m = Some lm -> meshes h !! lm = Some mesh ->
  GetNumberOfPolys mesh <> 0%nat ->
  _Input m = Some li -> arrays h !! li = Some input ->
  GetNumberOfTuples input <> GetNumberOfPoints mesh ->
  Initialize NameOfType m h =
    Exit 1 (NameOfType +:+ "::Initialize: Invalid input map values array").
Proof.
  intros Hm Hl Hp Hi Hin Hne. apply Nat.eqb_neq in Hp, Hne.
  unfold_checks. rewrite Hm, Hl. unfold_checks. rewrite Hp, Hi, Hin. unfold_checks.
  by rewrite Hne.
Qed.

Lemma Initialize_missing_input m h lm mesh :
  _Mesh m = Some lm -> meshes h !! lm = Some mesh ->
  GetNumberOfPolys mesh <> 0%nat ->
  _Input m = None -> _Fixed m = None ->
  Initialize NameOfType m h =
    Exit 1 (NameOfType +:+ "::InitializeValues: Missing boundary conditions").
Proof.
  intros Hm Hl Hp Hi Hf. apply Nat.eqb_neq in Hp.
  unfold_checks. rewrite Hm, Hl. unfold_checks. rewrite Hp, Hi, Hf.
  cbn -[modify_mesh]. rewrite !modify_mesh_snoc.
  cbn -[modify_mesh]. rewrite !modify_mesh_snoc.
  cbn -[modify_mesh]. rewrite !modify_mesh_snoc.
  cbn -[modify_mesh]. rewrite !modify_mesh_snoc.
  cbn -[modify_mesh]. unfold InitializeValues. simpl. rewrite Hi. done.
Qed.

(** The size check of line 140 reads [_Fixed], the mask of the previous
    call. *)
Lemma Initialize_fixed_mismatch m h lm mesh lf fixed :
  _Mesh m = Some lm -> meshes h !! lm = Some mesh ->
  GetNumberOfPolys mesh <> 0%nat ->
  tuples_mismatch h (_Input m) (GetNumberOfPoints mesh) = Ok false ->
  _Fixed m = Some lf -> arrays h !! lf = Some fixed ->
  GetNumberOfTuples fixed <> GetNumberOfPoints mesh ->
  Initialize NameOfType m h = Exit 1 (NameOfType +:+ "::Initialize: Invalid input mask").
Proof.
  intros Hm Hl Hp Hin Hf Hfa Hne. apply Nat.eqb_neq in Hp, Hne.
  unfold Initialize, get_mesh.
  cbn -[GetNumberOfPolys GetNumberOfPoints GetNumberOfTuples Nat.eqb tuples_mismatch].
  rewrite Hm, Hl.
  cbn -[GetNumberOfPolys GetNumberOfPoints GetNumberOfTuples Nat.eqb tuples_mismatch].
  rewrite Hp, Hin.
  unfold_checks. rewrite Hf, Hfa. unfold_checks. by rewrite Hne.
Qed.

(** *** Running again *)

Lemma Solve_eq m h ls surface lv values :
  _Surface m = Some ls -> meshes h !! ls = Some surface ->
  _Values m = Some lv -> arrays h !! lv = Some values ->
  Solve Weight solveWithGuess m h =
    Ok (m, put_array lv (solved_values Weight solveWithGuess m surface values) h).
Proof.
  intros Hls Hs Hlv Hv. unfold Solve, get_mesh, get_array.
  rewrite Hls. simpl. rewrite Hs. simpl. rewrite Hlv. simpl. rewrite Hv. simpl.
  reflexivity.
Qed.

Lemma Finalize_shape m h m' h' :
  Finalize m h = Ok (m', h') -> h' = h /\ exists o, m' = set_Output o m.
Proof.
  unfold Finalize. destruct (_Output m) eqn:Ho; intros [= <- <-]; split; try done.
  - exists (_Output m). by destruct m.
  - by eexists.
Qed.

Lemma edge_step_ext m m' (surface surface' : @PolyData T) values mc st e :
  _PointIndex m = _PointIndex m' ->
  (forall i j, Weight surface i j = Weight surface' i j) ->
  edge_step Weight m surface values mc st e = edge_step Weight m' surface' values mc st e.
Proof.
  intros Hpi HW. destruct e as [i j].
  unfold edge_step, edge_visited, edge_contribution, FreePointIndex. simpl.
  by rewrite Hpi, HW.
Qed.

Lemma assemble_ext m m' (surface surface' : @PolyData T) values n mc edges :
  _PointIndex m = _PointIndex m' ->
  (forall i j, Weight surface i j = Weight surface' i j) ->
  assemble Weight m surface values n mc edges = assemble Weight m' surface' values n mc edges.
Proof.
  intros Hpi HW.
  assert (Hfold : forall st,
            fold_left (edge_step Weight m surface values mc) edges st =
            fold_left (edge_step Weight m' surface' values mc) edges st).
  { induction edges as [|e edges IH]; intros st; [done|].
    simpl. rewrite IH. f_equal. by apply edge_step_ext. }
  unfold assemble, triplets, assemble_edges. by rewrite Hfold.
Qed.

Lemma solved_values_ext m m' (surface surface' : @PolyData T) values :
  _FreePoints m = _FreePoints m' -> _PointIndex m = _PointIndex m' ->
  _NumberOfIterations m = _NumberOfIterations m' -> _Tolerance m = _Tolerance m' ->
  Polys surface = Polys surface' ->
  (forall i j, Weight surface i j = Weight surface' i j) ->
  solved_values Weight solveWithGuess m surface values =
  solved_values Weight solveWithGuess m' surface' values.
Proof.
  intros Hfr Hpi Hn Ht Hp HW.
  unfold solved_values, NumberOfFreePoints, EdgeTable, solver_limit, solver_tolerance,
    guess, write_back, FreePointId.
  rewrite Hfr, Hn, Ht, Hp.
  rewrite (assemble_ext m m' surface surface') by done. done.
Qed.

(** When the mask the caller set, if any, has one tuple per point, and the
    weights depend on the points and polygons of the surface only, a second
    run completes with the values of the first. *)
Lemma Run_again_same_values m h m1 h1 :
  (forall (s s' : @PolyData T) i j,
     Points s = Points s' -> Polys s = Polys s' -> Weight s i j = Weight s' i j) ->
  mask_fits m h ->
  Run NameOfType Weight solveWithGuess m h = Ok (m1, h1) ->
  exists m2 h2 v,
    Run NameOfType Weight solveWithGuess m1 h1 = Ok (m2, h2) /\
    values_of m1 h1 = Some v /\ values_of m2 h2 = Some v.
Proof.
  intros HW Hfits Hrun. unfold Run in Hrun.
  apply bind_Ok in Hrun as ([mi hi] & Hinit & Hrun).
  apply bind_Ok in Hrun as ([ms hs] & Hsolve & Hfin).
  apply Initialize_Ok in Hinit
    as (lm & mesh & li & input & fixed & lf & Hlm & Hmesh & Hpolys & Hli & Hin & Htup & _
        & Hms & Hf & Hm & Hk).
  cbv zeta in Hms, Hm, Hk.
  set (P := GetNumberOfPoints mesh) in *.
  set (lv := length (arrays h)) in *.
  set (surface1 := working_surface mesh (Some lv) (_Mask m)) in *.
  set (m0 := set_Fixed _ _) in Hm.
  pose proof (partition_attributes fixed P m0) as (A1 & A2 & A3 & A4 & A5 & A6 & A7 & A8 & A9).
  rewrite <- Hm in A1, A2, A3, A4, A5, A6, A7, A8, A9.
  simpl in A1, A2, A3, A4, A5, A6, A7, A8, A9.
  (* the store after the first Initialize *)
  assert (Harr : exists tl, arrays hi = arrays h ++ initial_values input :: tl).
  { destruct (_Mask m); destruct Hk as (_ & Hk); [|destruct Hk as (_ & Hk)]; eauto. }
  destruct Harr as [tl Harr].
  assert (Hv1 : arrays hi !! lv = Some (initial_values input)).
  { rewrite Harr. by apply list_lookup_middle. }
  assert (Hs1 : meshes hi !! length (meshes h) = Some surface1)
    by (rewrite Hms; apply snoc_lookup_last).
  rewrite (Solve_eq mi hi _ surface1 lv (initial_values input)) in Hsolve by done.
  injection Hsolve as <- <-.
  set (after := solved_values Weight solveWithGuess mi surface1 (initial_values input)) in *.
  apply Finalize_shape in Hfin as (-> & o & ->).
  (* facts about the fixed mask *)
  assert (Hlf : lf <> lv /\ GetNumberOfTuples fixed = P /\
                (forall lk, _Mask m = Some lk -> (lk < lv)%nat)).
  { destruct (_Mask m) as [lk|] eqn:Hmask.
    - destruct Hk as (-> & Hk). unfold mask_fits in Hfits. rewrite Hmask in Hfits.
      destruct Hfits as (mask & lm' & mesh' & Hmk & Hlm' & Hmesh' & Hfit).
      rewrite Hlm in Hlm'. injection Hlm' as <-. rewrite Hmesh in Hmesh'.
      injection Hmesh' as <-.
      pose proof (lookup_lt_Some _ _ _ Hmk) as Hlt. fold lv in Hlt.
      rewrite Hk, lookup_app_l in Hf by done. rewrite Hmk in Hf. injection Hf as <-.
      split; [lia|]. split; [done|]. intros ? [= <-]. done.
    - destruct Hk as (-> & -> & _). split; [lia|]. split; [|done].
      apply BoundaryMask_fill_spec. }
  destruct Hlf as (Hlf & Hftup & Hmasklt).
  set (h1 := put_array lv after hi).
  assert (Hold : forall l, l <> lv -> arrays h1 !! l = arrays hi !! l).
  { intros l Hl. simpl. by rewrite list_lookup_insert_ne. }
  assert (Hlen1 : length (arrays h1) = length (arrays hi))
    by (simpl; apply length_insert).
  (* the second Initialize completes *)
  set (m1 := set_Output o mi).
  destruct (Initialize_completes NameOfType m1 h1 lm mesh li input) as (m2i & h2i & Hinit2).
  { simpl. by rewrite A1. }
  { simpl. rewrite Hms. by apply lookup_app_l_Some. }
  { done. }
  { simpl. by rewrite A2. }
  { rewrite Hold by (apply lookup_lt_Some in Hin; fold lv in Hin; lia).
    rewrite Harr. by apply lookup_app_l_Some. }
  { done. }
  { simpl. rewrite A7. unfold tuples_mismatch, get_array.
    rewrite Hold, Hf by done. simpl. fold P. rewrite Hftup, Nat.eqb_refl. done. }
  { intros lk Hlk. simpl in Hlk. rewrite A3 in Hlk.
    specialize (Hmasklt lk Hlk). rewrite Hlk in Hk. destruct Hk as (-> & _).
    exists fixed. split; [by rewrite Hold|].
    unfold mask_covers. rewrite Hftup. apply Nat.leb_refl. }
  pose proof Hinit2 as Hform.
  apply Initialize_Ok in Hform
    as (lm2 & mesh2 & li2 & input2 & fixed2 & lf2 & Hlm2 & Hmesh2 & _ & Hli2 & Hin2 & _ & _
        & Hms2 & Hf2 & Hm2 & Hk2).
  cbv zeta in Hms2, Hm2, Hk2.
  simpl in Hlm2, Hli2. rewrite A1, Hlm in Hlm2. injection Hlm2 as <-.
  rewrite A2, Hli in Hli2. injection Hli2 as <-.
  assert (Hmesh2' : meshes h1 !! lm = Some mesh)
    by (simpl; rewrite Hms; by apply lookup_app_l_Some).
  rewrite Hmesh2' in Hmesh2. injection Hmesh2 as <-.
  assert (Hin2' : arrays h1 !! li = Some input).
  { rewrite Hold by (apply lookup_lt_Some in Hin; fold lv in Hin; lia).
    rewrite Harr. by apply lookup_app_l_Some. }
  rewrite Hin2' in Hin2. injection Hin2 as <-.
  fold P in Hm2, Hk2.
  change (_Mask m1) with (_Mask mi) in Hms2, Hk2. rewrite A3 in Hms2, Hk2.
  set (lv2 := length (arrays h1)) in Hms2, Hm2, Hk2.
  set (surface2 := working_surface mesh (Some lv2) (_Mask m)) in *.
  set (m02 := set_Fixed _ _) in Hm2.
  (* the second mask is the first *)
  assert (Hfixed2 : fixed2 = fixed).
  { destruct (_Mask m) as [lk|] eqn:Hmask.
    - destruct Hk2 as (-> & Hk2). destruct Hk as (-> & _).
      rewrite Hk2 in Hf2. specialize (Hmasklt lk eq_refl).
      rewrite lookup_app_l in Hf2 by (rewrite Hlen1, Harr, length_app; fold lv; lia).
      rewrite Hold in Hf2 by lia. rewrite Hf in Hf2. by injection Hf2.
    - destruct Hk2 as (_ & -> & _). destruct Hk as (_ & -> & _). done. }
  subst fixed2.
  assert (Harr2 : exists tl2, arrays h2i = arrays h1 ++ initial_values input :: tl2).
  { destruct (_Mask m); destruct Hk2 as (_ & Hk2); [|destruct Hk2 as (_ & Hk2)]; eauto. }
  destruct Harr2 as [tl2 Harr2].
  pose proof (partition_attributes fixed P m02)
    as (_ & _ & _ & B4 & B5 & B6 & _ & B8 & B9).
  rewrite <- Hm2 in B4, B5, B6, B8, B9. simpl in B4, B5, B6, B8, B9.
  assert (Hv2 : arrays h2i !! lv2 = Some (initial_values input)).
  { rewrite Harr2. by apply list_lookup_middle. }
  assert (Hs2 : meshes h2i !! length (meshes h1) = Some surface2)
    by (rewrite Hms2; apply snoc_lookup_last).
  pose proof (Solve_eq m2i h2i _ surface2 lv2 (initial_values input) B5 Hs2 B6 Hv2) as Hsolve2.
  set (after2 := solved_values Weight solveWithGuess m2i surface2 (initial_values input)) in *.
  assert (Hsame : after2 = after).
  { subst after after2.
    destruct (partition_lists_eq fixed P m02 m0) as (_ & Hfr & Hpi).
    rewrite <- Hm, <- Hm2 in Hfr, Hpi.
    apply solved_values_ext; try done.
    intros i j. by apply HW. }
  exists (set_Output (Some (mkPiecewiseLinearMap (_Surface m2i) (_Values m2i))) m2i),
    (put_array lv2 after2 h2i), after.
  split; [|split].
  - unfold Run. fold m1 h1. rewrite Hinit2. simpl. rewrite Hsolve2. simpl.
    unfold Finalize. by rewrite B4.
  - unfold values_of. simpl. rewrite A6. simpl.
    apply list_lookup_insert_eq. by apply lookup_lt_Some in Hv1.
  - unfold values_of. simpl. rewrite B6. simpl. rewrite Hsame.
    apply list_lookup_insert_eq. by apply lookup_lt_Some in Hv2.
Qed.

End RunProperties.

(** * The properties on concrete meshes *)

Section Concrete.

Import Examples.

(** C6: [Initialize] does not detect an input mask whose tuple count differs
    from the point count of the mesh.  On a fresh mapper with a triangle of
    three points and a mask of four tuples it completes, with the
    mismatched mask as the fixed mask, and the run goes on to produce an
    output map. *)
Theorem Initialize_accepts_mismatched_mask :
  (_Mesh triangle_mapper ≫= fun l => meshes triangle_store !! l) = Some triangle /\
  (_Mask triangle_mapper ≫= fun l => arrays triangle_store !! l) = Some long_mask /\
  GetNumberOfPoints triangle = 3%nat /\ GetNumberOfTuples long_mask = 4%nat /\
  (exists m' h',
     Initialize NameOfType triangle_mapper triangle_store = Ok (m', h') /\
     fixed_of m' h' = Some long_mask /\
     _FixedPoints m' = [0; 1] /\ _FreePoints m' = [2]) /\
  Run NameOfType unit_weight rhs_solver triangle_mapper triangle_store = Ok triangle_run /\
  _Output triangle_run.1 =
    Some (mkPiecewiseLinearMap (_Surface triangle_run.1) (_Values triangle_run.1)).
Proof.
  repeat split; try (vm_compute; reflexivity).
  eexists _, _. split; [vm_compute; reflexivity|]. repeat split.
Qed.

(** C7: a second [Run] on the mapper and store the first [Run] left behind
    does not produce output values.  With the triangle and the mask of four
    tuples the first run completes and leaves mesh, input and mask as they
    were; the second run exits in [Initialize]. *)
Theorem second_Run_exits_on_mask_of_first :
  Run NameOfType unit_weight rhs_solver triangle_mapper triangle_store = Ok triangle_run /\
  (_Mesh triangle_run.1 = _Mesh triangle_mapper /\
   _Input triangle_run.1 = _Input triangle_mapper /\
   _Mask triangle_run.1 = _Mask triangle_mapper) /\
  (forall l, (l < 1)%nat -> meshes triangle_run.2 !! l = meshes triangle_store !! l) /\
  (forall l, (l < 2)%nat -> arrays triangle_run.2 !! l = arrays triangle_store !! l) /\
  values_of triangle_run.1 triangle_run.2 = Some (mkDataArray VTK_DOUBLE "Map" 1 [[5]; [6]; [11]]) /\
  Run NameOfType unit_weight rhs_solver triangle_run.1 triangle_run.2 =
    Exit 1 "SurfaceMapper::Initialize: Invalid input mask".
Proof.
  split; [vm_compute; reflexivity|].
  split; [repeat split|].
  split. { intros [|l] Hl; [reflexivity | lia]. }
  split. { intros [|[|l]] Hl; [reflexivity | reflexivity | lia]. }
  split; vm_compute; reflexivity.
Qed.

Lemma Initialize_partition_bijection_witness :
  Initialize NameOfType grid_mapper grid_store = Ok grid_initialized /\
  (NumberOfFixedPoints grid_initialized.1 + NumberOfFreePoints grid_initialized.1 = 9)%nat /\
  FreePointId grid_initialized.1 (Z.to_nat (FreePointIndex grid_initialized.1 4)) = 4.
Proof.
  assert (H : Initialize NameOfType grid_mapper grid_store
              = Ok (grid_initialized.1, grid_initialized.2)) by (vm_compute; reflexivity).
  split; [exact H|].
  destruct (Initialize_partition_bijection NameOfType _ _ _ _ H)
    as (surface & fixed & Hs & _ & Hsum & _ & _ & _ & _ & _ & _ & Hdec).
  vm_compute in Hs. injection Hs as <-.
  split; [exact Hsum|]. apply (Hdec 4%nat). vm_compute. lia.
Defined.

Lemma diagonal_is_incident_weight_sum_witness :
  Initialize NameOfType corner_mapper corner_store = Ok corner_initialized /\
  surface_of corner_initialized.1 corner_initialized.2 = Some corner_surface /\
  0 <= FreePointIndex corner_initialized.1 4 /\
  coeff (assemble unit_weight corner_initialized.1 corner_surface grid_input
           (NumberOfFreePoints corner_initialized.1) 2 (EdgeTable corner_surface)).1
        (FreePointIndex corner_initialized.1 4) (FreePointIndex corner_initialized.1 4) = 6.
Proof.
  assert (H : Initialize NameOfType corner_mapper corner_store
              = Ok (corner_initialized.1, corner_initialized.2)) by (vm_compute; reflexivity).
  assert (Hs : surface_of corner_initialized.1 corner_initialized.2 = Some corner_surface)
    by (vm_compute; reflexivity).
  assert (Hfree : 0 <= FreePointIndex corner_initialized.1 4) by (vm_compute; discriminate).
  split; [exact H|]. split; [exact Hs|]. split; [exact Hfree|].
  rewrite (diagonal_is_incident_weight_sum NameOfType unit_weight _ _ _ _ corner_surface
             grid_input 2 (EdgeTable corner_surface) 4 H Hs).
  - vm_compute. reflexivity.
  - intros i j Hin.
    assert (Hall : Forall (fun e => e.1 <> e.2 /\ (e.1 < 9)%nat /\ (e.2 < 9)%nat)
                     (EdgeTable corner_surface)) by compute_done.
    apply (proj1 (Forall_forall _ _) Hall (i, j) Hin).
  - vm_compute. lia.
  - exact Hfree.
Defined.

Lemma edge_skipped_iff_both_fixed_witness :
  Initialize NameOfType grid_mapper grid_store = Ok grid_initialized /\
  IsFixedPoint grid_fixed 0 = true /\ IsFixedPoint grid_fixed 1 = true /\
  edge_visited grid_initialized.1 (0%nat, 1%nat) = false /\
  edge_step unit_weight grid_initialized.1 grid_surface grid_values 2 grid_assembly
            (0%nat, 1%nat) = grid_assembly.
Proof.
  assert (H : Initialize NameOfType grid_mapper grid_store
              = Ok (grid_initialized.1, grid_initialized.2)) by (vm_compute; reflexivity).
  assert (Hs : surface_of grid_initialized.1 grid_initialized.2 = Some grid_surface)
    by (vm_compute; reflexivity).
  assert (Hf : fixed_of grid_initialized.1 grid_initialized.2 = Some grid_fixed)
    by (vm_compute; reflexivity).
  assert (H0 : (0 < GetNumberOfPoints grid_surface)%nat) by (vm_compute; lia).
  assert (H1 : (1 < GetNumberOfPoints grid_surface)%nat) by (vm_compute; lia).
  destruct (edge_skipped_iff_both_fixed NameOfType unit_weight _ _ _ _ grid_surface grid_fixed
              grid_values 2 grid_assembly 0 1 H Hs Hf H0 H1) as (Hiff & Hskip & _).
  assert (Hboth : IsFixedPoint grid_fixed 0 = true /\ IsFixedPoint grid_fixed 1 = true)
    by (split; reflexivity).
  split; [exact H|]. split; [apply Hboth|]. split; [apply Hboth|].
  split; [by apply Hiff | by apply Hskip].
Defined.

Lemma one_free_endpoint_folds_value_witness :
  Initialize NameOfType grid_mapper grid_store = Ok grid_initialized /\
  IsFixedPoint grid_fixed 4 = false /\ IsFixedPoint grid_fixed 1 = true /\
  has_dims (NumberOfFreePoints grid_initialized.1) 2 (b grid_assembly) /\
  w (edge_step unit_weight grid_initialized.1 grid_surface grid_values 2 grid_assembly
       (1%nat, 4%nat)) = [] /\
  dense_get (b (edge_step unit_weight grid_initialized.1 grid_surface grid_values 2
                  grid_assembly (1%nat, 4%nat))) 0 0 =
  0 + 1 * GetValue grid_values 1 0.
Proof.
  assert (H : Initialize NameOfType grid_mapper grid_store
              = Ok (grid_initialized.1, grid_initialized.2)) by (vm_compute; reflexivity).
  assert (Hs : surface_of grid_initialized.1 grid_initialized.2 = Some grid_surface)
    by (vm_compute; reflexivity).
  assert (Hf : fixed_of grid_initialized.1 grid_initialized.2 = Some grid_fixed)
    by (vm_compute; reflexivity).
  assert (H1 : (1 < GetNumberOfPoints grid_surface)%nat) by (vm_compute; lia).
  assert (H4 : (4 < GetNumberOfPoints grid_surface)%nat) by (vm_compute; lia).
  assert (Hfree : IsFixedPoint grid_fixed 4 = false) by reflexivity.
  assert (Hfix : IsFixedPoint grid_fixed 1 = true) by reflexivity.
  assert (Hd : has_dims (NumberOfFreePoints grid_initialized.1) 2 (b grid_assembly)).
  { split; [reflexivity|]. repeat constructor. }
  destruct (one_free_endpoint_folds_value NameOfType unit_weight _ _ _ _ grid_surface
              grid_fixed grid_values 2 grid_assembly 1 4 4 1 H Hs Hf H1 H4
              (or_intror (conj eq_refl eq_refl)) Hfree Hfix Hd) as (Hw & _ & Hb & _).
  split; [exact H|]. split; [exact Hfree|]. split; [exact Hfix|]. split; [exact Hd|].
  split; [exact Hw|]. apply (Hb 0%nat). lia.
Defined.

Lemma BoundaryMask_is_default_fixed_mask_witness :
  Initialize NameOfType grid_mapper grid_store = Ok grid_initialized /\
  _Mask grid_mapper = None /\
  Z.of_nat 4 ∈ _FreePoints grid_initialized.1 /\
  Z.of_nat 5 ∈ _FixedPoints grid_initialized.1.
Proof.
  assert (H : Initialize NameOfType grid_mapper grid_store
              = Ok (grid_initialized.1, grid_initialized.2)) by (vm_compute; reflexivity).
  split; [exact H|]. split; [reflexivity|].
  destruct (@BoundaryMask_is_default_fixed_mask Z _ NameOfType) as [_ Hinit].
  destruct (Hinit _ _ _ _ H eq_refl) as (surface & Hs & _ & Hi).
  vm_compute in Hs. injection Hs as <-.
  split.
  - apply (Hi 4%nat); [vm_compute; lia | reflexivity].
  - apply (Hi 5%nat); [vm_compute; lia | reflexivity].
Defined.

Lemma Run_leaves_inputs_unchanged_witness :
  Run NameOfType unit_weight rhs_solver grid_mapper grid_store = Ok grid_run /\
  meshes grid_run.2 !! 0%nat = Some grid /\
  arrays grid_run.2 !! 0%nat = Some grid_input.
Proof.
  assert (H : Run NameOfType unit_weight rhs_solver grid_mapper grid_store
              = Ok (grid_run.1, grid_run.2)) by (vm_compute; reflexivity).
  split; [exact H|].
  destruct (Run_leaves_inputs_unchanged NameOfType unit_weight rhs_solver _ _ _ _ H)
    as (_ & Hm & Ha & _).
  split.
  - rewrite Hm; [reflexivity | simpl; lia].
  - rewrite Ha; [reflexivity | simpl; lia].
Defined.

Lemma Solve_keeps_fixed_values_witness :
  Initialize NameOfType grid_mapper grid_store = Ok grid_initialized /\
  Solve unit_weight rhs_solver grid_initialized.1 grid_initialized.2 = Ok grid_solved /\
  IsFixedPoint grid_fixed 5 = true /\
  (values_of grid_solved.1 grid_solved.2 ≫= fun a => Tuples a !! 5%nat) =
  Tuples grid_input !! 5%nat.
Proof.
  assert (H : Initialize NameOfType grid_mapper grid_store
              = Ok (grid_initialized.1, grid_initialized.2)) by (vm_compute; reflexivity).
  assert (H' : Solve unit_weight rhs_solver grid_initialized.1 grid_initialized.2
               = Ok (grid_solved.1, grid_solved.2)) by (vm_compute; reflexivity).
  split; [exact H|]. split; [exact H'|]. split; [reflexivity|].
  destruct (Solve_keeps_fixed_values NameOfType unit_weight rhs_solver _ _ _ _ _ _ H H')
    as (surface & fixed & input & before & after & Hs & Hf & Hin & _ & Hafter & Hkeep & _).
  vm_compute in Hs. injection Hs as <-.
  vm_compute in Hf. injection Hf as <-.
  vm_compute in Hin. injection Hin as <-.
  rewrite Hafter. simpl.
  destruct (Hkeep 5%nat) as (-> & -> & _); [vm_compute; lia | reflexivity | reflexivity].
Defined.

(** With no mask, or with the corner mask of nine tuples, the second run
    gives the values of the first. *)
Example grid_Run_again :
  exists m2 h2 v,
    Run NameOfType unit_weight rhs_solver grid_run.1 grid_run.2 = Ok (m2, h2) /\
    values_of grid_run.1 grid_run.2 = Some v /\ values_of m2 h2 = Some v.
Proof.
  apply (Run_again_same_values NameOfType unit_weight rhs_solver grid_mapper grid_store).
  - done.
  - exact I.
  - vm_compute. reflexivity.
Qed.

Example corner_Run_again :
  exists m1 h1 m2 h2 v,
    Run NameOfType unit_weight rhs_solver corner_mapper corner_store = Ok (m1, h1) /\
    Run NameOfType unit_weight rhs_solver m1 h1 = Ok (m2, h2) /\
    values_of m1 h1 = Some v /\ values_of m2 h2 = Some v.
Proof.
  assert (H : exists r, Run NameOfType unit_weight rhs_solver corner_mapper corner_store = Ok r)
    by (eexists; vm_compute; reflexivity).
  destruct H as [[m1 h1] H].
  destruct (Run_again_same_values NameOfType unit_weight rhs_solver
              corner_mapper corner_store m1 h1) as (m2 & h2 & v & H2 & Hv1 & Hv2).
  - done.
  - exists corner_mask, 0%nat, grid. repeat split.
  - exact H.
  - by exists m1, h1, m2, h2, v.
Qed.

End Concrete.

(** * Further properties of the lifecycle *)

Section LifecycleChecks.

Context {T : Type} `{DT : !Double T}.
Variable NameOfType : string.
Implicit Types (m : @SurfaceMapper T) (h : @Store T).

Lemma bind_Exit {A B} (c : Outcome A) (f : A -> Outcome B) code msg :
  c ≫= f = Exit code msg ->
  c = Exit code msg \/ exists a, c = Ok a /\ f a = Exit code msg.
Proof. destruct c; simpl; [eauto | intros [= -> ->]; eauto | done]. Qed.

Lemma tuples_mismatch_Some h (l : loc) (n : nat) (r : bool) :
  tuples_mismatch h (Some l) n = Ok r ->
  exists a : @DataArray T, arrays h !! l = Some a /\ r = negb (Nat.eqb (GetNumberOfTuples a) n).
Proof.
  unfold tuples_mismatch, get_array. destruct (arrays h !! l) as [a|]; [|done].
  simpl. intros [= <-]. eauto.
Qed.

Lemma tuples_mismatch_no_Exit h (o : option loc) (n : nat) code msg :
  tuples_mismatch h o n <> Exit code msg.
Proof.
  unfold tuples_mismatch, get_array. destruct o as [l|]; [|done].
  by destruct (arrays h !! l).
Qed.

(** X1: with every pointer of the mapper naming an object, [Initialize]
    completes exactly when its checks pass (the mesh is set and has a
    polygon, the input array is set and has one tuple per point, and the mask
    kept from a previous call, if any, has one tuple per point) and the mask
    the caller set, if any, has a tuple for every point.  The checks do not
    look at the caller's mask: when they pass and that mask is shorter than
    the point count, [Initialize] neither completes nor exits, it reads the
    mask past its end. *)
Theorem Initialize_completes_iff m h :
  pointers_valid m h ->
  ((exists m' h', Initialize NameOfType m h = Ok (m', h')) <->
   Initialize_accepts m h /\ mask_readable m h) /\
  (Initialize_accepts m h -> ~ mask_readable m h ->
   Initialize NameOfType m h = Undefined).
Proof.
  intros (_ & _ & Hmask & Hfixed).
  assert (Hchk : forall mesh : @PolyData T,
            (forall lf fixed, _Fixed m = Some lf -> arrays h !! lf = Some fixed ->
               GetNumberOfTuples fixed = GetNumberOfPoints mesh) ->
            tuples_mismatch h (_Fixed m) (GetNumberOfPoints mesh) = Ok false).
  { intros mesh Hf. destruct (_Fixed m) as [lf|] eqn:Hlf; [|done].
    destruct (Hfixed lf eq_refl) as [fixed Hfx].
    apply (tuples_mismatch_false h lf fixed _ Hfx). by apply (Hf lf). }
  split; [split|].
  - intros (m' & h' & H).
    apply Initialize_Ok_mask in H
      as (lm & mesh & li & input & fixed & lf & Hlm & Hmesh & Hp & Hli & Hin & Ht & Hf
          & _ & Hfx & _ & Hcov & Hk).
    split.
    + exists lm, mesh, li, input. repeat (split; [done|]).
      intros lf' fixed' Hlf' Hfx'. rewrite Hlf' in Hf.
      by apply (tuples_mismatch_false h lf' fixed' _ Hfx').
    + intros lk mask lm' mesh' Hlk Hmk Hlm' Hmesh'.
      rewrite Hlm in Hlm'. injection Hlm' as <-.
      rewrite Hmesh in Hmesh'. injection Hmesh' as <-.
      rewrite Hlk in Hk. destruct Hk as (-> & Harr).
      rewrite Harr, (lookup_app_l_Some _ _ _ _ Hmk) in Hfx. injection Hfx as <-.
      by apply Nat.leb_le.
  - intros [(lm & mesh & li & input & Hlm & Hmesh & Hp & Hli & Hin & Ht & Hf) Hread].
    apply (Initialize_completes NameOfType m h lm mesh li input); try done.
    + by apply Hchk.
    + intros lk Hlk. destruct (Hmask lk Hlk) as [mask Hmk]. exists mask.
      split; [done|]. apply Nat.leb_le. by apply (Hread lk mask lm mesh).
  - intros (lm & mesh & li & input & Hlm & Hmesh & Hp & Hli & Hin & Ht & Hf) Hread.
    destruct (_Mask m) as [lk|] eqn:Hlk.
    2:{ exfalso. apply Hread. intros lk mask lm' mesh' Hlk'. congruence. }
    destruct (Hmask lk eq_refl) as [mask Hmk].
    destruct (mask_covers mask (GetNumberOfPoints mesh)) eqn:Hcov.
    + exfalso. apply Hread. intros lk' mask' lm' mesh' Hlk' Hmk' Hlm' Hmesh'.
      rewrite Hlk in Hlk'. injection Hlk' as <-. rewrite Hmk in Hmk'. injection Hmk' as <-.
      rewrite Hlm in Hlm'. injection Hlm' as <-.
      rewrite Hmesh in Hmesh'. injection Hmesh' as <-. by apply Nat.leb_le.
    + apply (Initialize_short_mask NameOfType m h lm mesh li input lk mask); try done.
      by apply Hchk.
Qed.

(** X2: when [Initialize] exits, the exit code is 1 and the diagnostic is one
    of five, each printed only when the condition it names holds: no mesh, a
    mesh without polygons, an input array of the wrong size, a mask kept in
    [_Fixed] of the wrong size, or no input array. *)
Theorem Initialize_exit_names_violation m h code msg :
  Initialize NameOfType m h = Exit code msg ->
  code = 1 /\
  ((msg = NameOfType +:+ "::Initialize: Missing input surface mesh" /\ _Mesh m = None) \/
   (msg = NameOfType +:+ "::Initialize: Input point set must be a surface mesh" /\
    exists lm mesh, _Mesh m = Some lm /\ meshes h !! lm = Some mesh /\
                    GetNumberOfPolys mesh = 0%nat) \/
   (msg = NameOfType +:+ "::Initialize: Invalid input map values array" /\
    exists lm mesh li input,
      _Mesh m = Some lm /\ meshes h !! lm = Some mesh /\
      _Input m = Some li /\ arrays h !! li = Some input /\
      GetNumberOfTuples input <> GetNumberOfPoints mesh) \/
   (msg = NameOfType +:+ "::Initialize: Invalid input mask" /\
    exists lm mesh lf fixed,
      _Mesh m = Some lm /\ meshes h !! lm = Some mesh /\
      _Fixed m = Some lf /\ arrays h !! lf = Some fixed /\
      GetNumberOfTuples fixed <> GetNumberOfPoints mesh) \/
   (msg = NameOfType +:+ "::InitializeValues: Missing boundary conditions" /\
    _Input m = None)).
Proof.
  unfold Initialize. intros H.
  change (_Mesh (set_Output None m)) with (_Mesh m) in H.
  change (_Input (set_Output None m)) with (_Input m) in H.
  change (_Fixed (set_Output None m)) with (_Fixed m) in H.
  destruct (_Mesh m) as [lm|] eqn:Hlm.
  2:{ injection H as <- <-. split; [done|]. by left. }
  apply bind_Exit in H as [H|(mesh & Hmesh & H)];
    [unfold get_mesh in H; by destruct (meshes h !! lm)|].
  apply deref_Ok in Hmesh.
  destruct (Nat.eqb_spec (GetNumberOfPolys mesh) 0) as [Hp|Hp].
  { injection H as <- <-. split; [done|]. right; left. split; [done|]. eauto. }
  apply bind_Exit in H as [H|(bad & Hbad & H)]; [by apply tuples_mismatch_no_Exit in H|].
  destruct bad.
  { injection H as <- <-. split; [done|]. right; right; left. split; [done|].
    destruct (_Input m) as [li|] eqn:Hli; [|done].
    apply tuples_mismatch_Some in Hbad as (input & Hin & Hne).
    exists lm, mesh, li, input. repeat (split; [done|]).
    symmetry in Hne. apply negb_true_iff in Hne. by apply Nat.eqb_neq. }
  apply bind_Exit in H as [H|(bad & Hbad' & H)]; [by apply tuples_mismatch_no_Exit in H|].
  destruct bad.
  { injection H as <- <-. split; [done|]. do 3 right; left. split; [done|].
    destruct (_Fixed m) as [lf|] eqn:Hlf; [|done].
    apply tuples_mismatch_Some in Hbad' as (fixed & Hfx & Hne).
    exists lm, mesh, lf, fixed. repeat (split; [done|]).
    symmetry in Hne. apply negb_true_iff in Hne. by apply Nat.eqb_neq. }
  cbn -[modify_mesh] in H. rewrite !modify_mesh_snoc in H.
  cbn -[modify_mesh] in H. rewrite !modify_mesh_snoc in H.
  cbn -[modify_mesh] in H. rewrite !modify_mesh_snoc in H.
  cbn -[modify_mesh] in H. rewrite !modify_mesh_snoc in H.
  cbn -[modify_mesh] in H. unfold InitializeValues in H. cbn -[modify_mesh] in H.
  destruct (_Input m) as [li|] eqn:Hli.
  2:{ injection H as <- <-. split; [done|]. do 4 right. done. }
  exfalso.
  apply tuples_mismatch_Some in Hbad as (input & Hin & _).
  unfold get_array in H. cbn -[modify_mesh] in H. rewrite Hin in H.
  cbn -[modify_mesh] in H. rewrite !modify_mesh_snoc in H.
  cbn -[modify_mesh] in H. rewrite !modify_mesh_snoc in H.
  cbn -[modify_mesh] in H. rewrite !modify_mesh_snoc in H.
  cbn in H. unfold InitializeMask, get_mesh in H. cbn in H.
  rewrite snoc_lookup_last in H. cbn in H.
  destruct (_Mask m) as [lk|]; cbn in H.
  - rewrite snoc_lookup_last in H. cbn in H.
    destruct ((arrays h ++ _) !! lk); [|done]. cbn in H.
    match type of H with (if ?c then _ else _) = _ => by destruct c end.
  - unfold BoundaryMask, get_mesh in H. cbn in H.
    repeat (rewrite snoc_lookup_last in H; cbn in H).
    match type of H with (if ?c then _ else _) = _ => by destruct c end.
Qed.

End LifecycleChecks.

Section AfterInitialize.

Context {T : Type} `{DT : !Double T}.
Variable NameOfType : string.
Implicit Types (m : @SurfaceMapper T) (h : @Store T).

(** The mapper and the store as [Initialize] leaves them. *)
Lemma Initialize_state m h m1 h1 :
  Initialize NameOfType m h = Ok (m1, h1) ->
  exists lm mesh li input fixed lf m0 tl,
    _Mesh m = Some lm /\ meshes h !! lm = Some mesh /\
    _Input m = Some li /\ arrays h !! li = Some input /\
    GetNumberOfTuples input = GetNumberOfPoints mesh /\
    meshes h1 = meshes h ++ [working_surface mesh (Some (length (arrays h))) (_Mask m)] /\
    arrays h1 = arrays h ++ input :: tl /\
    _Surface m1 = Some (length (meshes h)) /\
    _Values m1 = Some (length (arrays h)) /\
    _Fixed m1 = Some lf /\ arrays h1 !! lf = Some fixed /\
    (forall lk, _Mask m = Some lk -> lf = lk /\ tl = []) /\
    (_Mask m = None -> lf = S (length (arrays h)) /\ tl = [fixed] /\
       fixed = BoundaryMask_fill (GetNumberOfPoints mesh)
                 (BoundaryPoints (working_surface mesh (Some (length (arrays h))) None))) /\
    _Output m1 = None /\ _Mesh m1 = _Mesh m /\ _Input m1 = _Input m /\ _Mask m1 = _Mask m /\
    _NumberOfIterations m1 = _NumberOfIterations m /\ _Tolerance m1 = _Tolerance m /\
    m1 = partition fixed (GetNumberOfPoints mesh) m0.
Proof.
  intros H.
  apply Initialize_Ok in H
    as (lm & mesh & li & input & fixed & lf & Hlm & Hmesh & _ & Hli & Hin & Ht & _
        & Hms & Hf & Hm & Hk).
  cbv zeta in Hms, Hm, Hk. rewrite initial_values_eq in Hk.
  set (m0 := set_Fixed _ _) in Hm.
  pose proof (partition_attributes fixed (GetNumberOfPoints mesh) m0)
    as (A1 & A2 & A3 & A4 & A5 & A6 & A7 & A8 & A9).
  rewrite <- Hm in A1, A2, A3, A4, A5, A6, A7, A8, A9.
  simpl in A1, A2, A3, A4, A5, A6, A7, A8, A9.
  exists lm, mesh, li, input, fixed, lf, m0.
  destruct (_Mask m) as [lk|] eqn:Hmask.
  - destruct Hk as (-> & Hk). exists [].
    repeat (split; [done|]). split; [by intros ? [= <-]|]. by repeat split.
  - destruct Hk as (-> & Hfeq & Hk). exists [fixed].
    repeat (split; [done|]). done.
Qed.

Lemma filter_seq_mono (P : nat -> Prop) `{!forall x, Decision (P x)} (i i' : nat) :
  (i <= i')%nat -> (length (filter P (seq 0 i)) <= length (filter P (seq 0 i')))%nat.
Proof.
  intros Hle. replace i' with (i + (i' - i))%nat by lia.
  rewrite seq_app, filter_app, length_app. lia.
Qed.

Lemma filter_seq_ascending (P : nat -> Prop) `{!forall x, Decision (P x)} (n r r' i i' : nat) :
  (r < r')%nat ->
  filter P (seq 0 n) !! r = Some i -> filter P (seq 0 n) !! r' = Some i' -> (i < i')%nat.
Proof.
  intros Hr Hi Hi'.
  apply filter_seq_lookup in Hi as (_ & _ & Hc).
  apply filter_seq_lookup in Hi' as (_ & _ & Hc').
  destruct (decide (i < i')%nat) as [|Hge]; [done|].
  pose proof (filter_seq_mono P i' i ltac:(lia)). lia.
Qed.

(** X3: the id lists are in ascending order of point id: of two free points
    the one with the smaller ordinal has the smaller id, and likewise for the
    fixed points. *)
Theorem Initialize_lists_ascending m h m' h' :
  Initialize NameOfType m h = Ok (m', h') ->
  (forall r r', (r < r')%nat -> (r' < NumberOfFreePoints m')%nat ->
     FreePointId m' r < FreePointId m' r') /\
  (forall k k', (k < k')%nat -> (k' < NumberOfFixedPoints m')%nat ->
     FixedPointId m' k < FixedPointId m' k').
Proof.
  intros H.
  apply Initialize_is_partition in H as (surface & fixed & m0 & _ & _ & ->).
  destruct (partition_closed_form fixed (GetNumberOfPoints surface) m0) as (Hfx & Hfr & _).
  unfold FreePointId, FixedPointId, NumberOfFreePoints, NumberOfFixedPoints, GetId.
  rewrite Hfx, Hfr, !length_fmap. split.
  - intros r r' Hr Hr'.
    destruct (lookup_lt_is_Some_2 _ r' Hr') as [i' Hi'].
    destruct (lookup_lt_is_Some_2 _ r (Nat.lt_trans _ _ _ Hr Hr')) as [i Hi].
    rewrite !list_lookup_fmap, Hi, Hi'. simpl.
    pose proof (filter_seq_ascending _ _ _ _ _ _ Hr Hi Hi'). lia.
  - intros r r' Hr Hr'.
    destruct (lookup_lt_is_Some_2 _ r' Hr') as [i' Hi'].
    destruct (lookup_lt_is_Some_2 _ r (Nat.lt_trans _ _ _ Hr Hr')) as [i Hi].
    rewrite !list_lookup_fmap, Hi, Hi'. simpl.
    pose proof (filter_seq_ascending _ _ _ _ _ _ Hr Hi Hi'). lia.
Qed.

(** X4: a mask the caller sets is used as it is, not copied: when
    [Initialize] completes, the attribute [_Fixed] and the scalars of the
    working surface name the caller's array, which holds what it held, the
    value array is the one array added to the store, the mask has a tuple
    for every point of the surface, so that no point is classified from a
    read outside the mask, and the fixed points are the points for which
    [IsFixedPoint] answers true on the caller's array. *)
Theorem Initialize_adopts_caller_mask m h m' h' lk mask :
  Initialize NameOfType m h = Ok (m', h') ->
  _Mask m = Some lk -> arrays h !! lk = Some mask ->
  _Fixed m' = Some lk /\ arrays h' !! lk = Some mask /\
  length (arrays h') = S (length (arrays h)) /\
  exists surface,
    surface_of m' h' = Some surface /\
    Scalars (PointData surface) = Some lk /\
    (GetNumberOfPoints surface <= GetNumberOfTuples mask)%nat /\
    forall i, (i < GetNumberOfPoints surface)%nat ->
      (i < GetNumberOfTuples mask)%nat /\
      (Z.of_nat i ∈ _FixedPoints m' <-> IsFixedPoint mask i = true) /\
      (Z.of_nat i ∈ _FreePoints m' <-> IsFixedPoint mask i = false).
Proof.
  intros H Hmask Hlk.
  pose proof H as Hcov.
  apply Initialize_Ok_mask in Hcov
    as (lm' & mesh' & li' & input' & fixed' & lf' & Hlm' & Hmesh' & _ & _ & _ & _ & _ & _ & Hf'
        & _ & Hcov & Hk').
  apply Initialize_state in H
    as (lm & mesh & li & input & fixed & lf & m0 & tl & Hlm & Hmesh & _ & _ & _ & Hms & Harr
        & Hs & _ & Hfx & Hf & Hk & _ & _ & _ & _ & _ & _ & _ & Hm).
  rewrite Hlm in Hlm'. injection Hlm' as <-. rewrite Hmesh in Hmesh'. injection Hmesh' as <-.
  rewrite Hmask in Hk'. destruct Hk' as (Heq & _). subst lf'.
  destruct (Hk lk Hmask) as [-> ->].
  assert (Hlk' : arrays h' !! lk = Some mask)
    by (rewrite Harr; by apply lookup_app_l_Some).
  rewrite Hlk' in Hf. injection Hf as <-.
  rewrite Hlk' in Hf'. injection Hf' as <-.
  apply Nat.leb_le in Hcov.
  split; [done|]. split; [done|].
  split; [rewrite Harr, length_app; simpl; lia|].
  exists (working_surface mesh (Some (length (arrays h))) (_Mask m)).
  split. { unfold surface_of. rewrite Hs. simpl. rewrite Hms. apply snoc_lookup_last. }
  split; [by rewrite Hmask|].
  change (GetNumberOfPoints (working_surface _ _ _)) with (GetNumberOfPoints mesh).
  split; [done|].
  intros i Hi. split; [lia|]. rewrite Hm.
  rewrite partition_fixed_elem, partition_free_elem.
  tauto.
Qed.

(** X5: the value array [Initialize] sets up is an array of its own that
    holds what the input array holds, name, number of components and every
    tuple, for fixed and free points alike. *)
Theorem Initialize_copies_input m h m' h' :
  Initialize NameOfType m h = Ok (m', h') ->
  exists li input lv,
    _Input m = Some li /\ arrays h !! li = Some input /\
    _Values m' = Some lv /\ lv <> li /\ (length (arrays h) <= lv)%nat /\
    arrays h' !! lv = Some input /\ arrays h' !! li = Some input.
Proof.
  intros H.
  apply Initialize_state in H
    as (lm & mesh & li & input & fixed & lf & m0 & tl & _ & _ & Hli & Hin & _ & _ & Harr
        & _ & Hv & _).
  exists li, input, (length (arrays h)).
  pose proof (lookup_lt_Some _ _ _ Hin).
  repeat (split; [done || lia|]). split.
  - rewrite Harr. by apply list_lookup_middle.
  - rewrite Harr. by apply lookup_app_l_Some.
Qed.

End AfterInitialize.

(** * Further properties of the solve and of a run *)

Section SolveAndRun.

Context {T : Type} `{DT : !Double T}.
Variable NameOfType : string.
Variable Weight : @PolyData T -> nat -> nat -> T.
Variable solveWithGuess :
  option Z -> option T -> @SparseMatrix T -> list (list T) -> list (list T) -> list (list T).
Implicit Types (m : @SurfaceMapper T) (h : @Store T).

(** The inner loop of the write-back (lines 167-169) on row [i]. *)
Lemma write_row_other (x : list (list T)) (r i mc : nat) (v : @DataArray T) (i' : nat) :
  i' <> i ->
  Tuples (fold_left (fun values l => SetValue values i l (dense_get x r l)) (seq 0 mc) v) !! i'
  = Tuples v !! i'.
Proof.
  intros Hne. induction mc as [|mc IH]; [done|].
  rewrite fold_left_seq_S. unfold SetValue at 1. simpl.
  rewrite list_lookup_alter_ne by done. apply IH.
Qed.

Lemma write_row_type (x : list (list T)) (r i mc : nat) (v : @DataArray T) :
  DataType (fold_left (fun values l => SetValue values i l (dense_get x r l)) (seq 0 mc) v)
  = DataType v.
Proof.
  induction mc as [|mc IH]; [done|].
  rewrite fold_left_seq_S. unfold SetValue at 1. simpl. apply IH.
Qed.

Lemma write_back_type m (x : list (list T)) (n mc : nat) (values : @DataArray T) :
  DataType (write_back m x n mc values) = DataType values.
Proof.
  induction n as [|n IH]; [done|].
  unfold write_back. rewrite fold_left_seq_S. fold (write_back m x n mc values).
  by rewrite write_row_type.
Qed.

Lemma write_row_target (x : list (list T)) (r i mc : nat) (v : @DataArray T) (t : list T) :
  Tuples v !! i = Some t ->
  exists t',
    Tuples (fold_left (fun values l => SetValue values i l (dense_get x r l)) (seq 0 mc) v) !! i
      = Some t' /\
    length t' = length t /\
    forall l, (l < length t)%nat ->
      t' !! l = if decide (l < mc)%nat then Some (d_cast (DataType v) (dense_get x r l))
                else t !! l.
Proof.
  intros Ht. induction mc as [|mc IH].
  - exists t. split; [done|]. split; [done|]. intros l Hl. by rewrite decide_False by lia.
  - destruct IH as (t0 & Ht0 & Hlen & Hget). rewrite fold_left_seq_S.
    exists (<[mc := d_cast (DataType v) (dense_get x r mc)]> t0). unfold SetValue at 1. simpl.
    rewrite write_row_type.
    rewrite list_lookup_alter_eq, Ht0. simpl. split; [done|].
    split; [by rewrite length_insert|].
    intros l Hl. destruct (decide (l = mc)) as [->|Hne].
    + rewrite list_lookup_insert_eq by lia. by rewrite decide_True by lia.
    + rewrite list_lookup_insert_ne by done. rewrite Hget by done.
      destruct (decide (l < mc)%nat).
      * by rewrite decide_True by lia.
      * by rewrite decide_False by lia.
Qed.

Lemma write_back_target m (x : list (list T)) (n mc : nat) (values : @DataArray T)
    (r l : nat) (t : list T) :
  (forall a a', (a < n)%nat -> (a' < n)%nat ->
     Z.to_nat (FreePointId m a) = Z.to_nat (FreePointId m a') -> a = a') ->
  (r < n)%nat ->
  Tuples values !! Z.to_nat (FreePointId m r) = Some t ->
  (l < mc)%nat -> (l < length t)%nat ->
  GetValue (write_back m x n mc values) (Z.to_nat (FreePointId m r)) l
  = d_cast (DataType values) (dense_get x r l).
Proof.
  intros Hinj Hr Ht Hl Hlt. induction n as [|n IH]; [lia|].
  unfold write_back. rewrite fold_left_seq_S. fold (write_back m x n mc values).
  destruct (decide (r = n)) as [->|Hne].
  - assert (Hrow : Tuples (write_back m x n mc values) !! Z.to_nat (FreePointId m n) = Some t).
    { rewrite write_back_other; [done|]. intros a Ha Heq. apply Hinj in Heq; lia. }
    destruct (write_row_target x n (Z.to_nat (FreePointId m n)) mc _ t Hrow)
      as (t' & Ht' & _ & Hget).
    unfold GetValue, GetComponent. rewrite Ht'. simpl.
    rewrite Hget by done. rewrite decide_True by done. simpl.
    by rewrite write_back_type.
  - unfold GetValue, GetComponent. rewrite write_row_other.
    + apply IH; [|lia]. intros a a' Ha Ha'. apply Hinj; lia.
    + intros Heq. apply Hinj in Heq; lia.
Qed.

Lemma guess_get m (values : @DataArray T) (n mc r l : nat) :
  (r < n)%nat -> (l < mc)%nat ->
  dense_get (guess m values n mc) r l = GetValue values (Z.to_nat (FreePointId m r)) l.
Proof.
  intros Hr Hl. unfold guess, dense_get.
  rewrite list_lookup_fmap, lookup_seq_lt by done. simpl.
  rewrite list_lookup_fmap, lookup_seq_lt by done. done.
Qed.

(** X6: [Solve] changes nothing but the contents of the value array: the
    mapper and the meshes are as before, no array is added, every other
    array holds what it held, and the value array keeps its name, its number
    of components and its number of tuples. *)
Theorem Solve_changes_values_only m h m' h' :
  Solve Weight solveWithGuess m h = Ok (m', h') ->
  m' = m /\ meshes h' = meshes h /\ length (arrays h') = length (arrays h) /\
  exists lv before after,
    _Values m = Some lv /\ arrays h !! lv = Some before /\ arrays h' !! lv = Some after /\
    Name after = Name before /\
    NumberOfComponents after = NumberOfComponents before /\
    GetNumberOfTuples after = GetNumberOfTuples before /\
    forall l, l <> lv -> arrays h' !! l = arrays h !! l.
Proof.
  intros H.
  apply Solve_Ok in H as (ls & surface & lv & values & x & _ & _ & Hlv & Hv & -> & ->).
  split; [done|]. split; [done|]. split; [simpl; apply length_insert|].
  destruct (write_back_shape m x (NumberOfFreePoints m) (NumberOfComponents values) values)
    as (Hn & Hc & Hl).
  eexists lv, values, _. split; [done|]. split; [done|].
  split. { simpl. apply list_lookup_insert_eq. by apply lookup_lt_Some in Hv. }
  split; [done|]. split; [done|]. split; [done|].
  intros l Hne. simpl. by rewrite list_lookup_insert_ne.
Qed.

(** X7: [Solve] hands the solver the matrix and right-hand side it
    assembled and, as initial guess, the input values of the free points.
    The value array has the element type of the input array, and what the
    solver returns in row r, column l is converted to that type when it is
    stored as component l of the value of the r-th free point: a double
    array holds the solver's result as it is, an array of another element
    type holds the converted result. *)
Theorem Solve_stores_solution m h m1 h1 m2 h2 :
  Initialize NameOfType m h = Ok (m1, h1) ->
  Solve Weight solveWithGuess m1 h1 = Ok (m2, h2) ->
  exists input surface after,
    (_Input m ≫= fun l => arrays h !! l) = Some input /\
    surface_of m1 h1 = Some surface /\ values_of m2 h2 = Some after /\
    DataType after = DataType input /\
    let n := NumberOfFreePoints m1 in
    let mc := NumberOfComponents input in
    let Ab := assemble Weight m1 surface input n mc (EdgeTable surface) in
    let x0 := guess m1 input n mc in
    let x := solveWithGuess (solver_limit m1) (solver_tolerance m1) Ab.1 Ab.2 x0 in
    (forall r l, (r < n)%nat -> (l < mc)%nat ->
       dense_get x0 r l = GetValue input (Z.to_nat (FreePointId m1 r)) l) /\
    (well_shaped input ->
     forall r l, (r < n)%nat -> (l < mc)%nat ->
       GetValue after (Z.to_nat (FreePointId m1 r)) l
       = d_cast (DataType input) (dense_get x r l)) /\
    (well_shaped input -> DataType input = VTK_DOUBLE ->
     forall r l, (r < n)%nat -> (l < mc)%nat ->
       GetValue after (Z.to_nat (FreePointId m1 r)) l = dense_get x r l).
Proof.
  intros Hinit Hsolve.
  apply Initialize_state in Hinit
    as (lm & mesh & li & input & fixed & lf & m0 & tl & _ & _ & Hli & Hin & Ht & Hms & Harr
        & Hs & Hv & _ & _ & _ & _ & _ & _ & _ & _ & _ & _ & Hm).
  set (surface := working_surface mesh (Some (length (arrays h))) (_Mask m)) in *.
  assert (Hs1 : meshes h1 !! length (meshes h) = Some surface)
    by (rewrite Hms; apply snoc_lookup_last).
  assert (Hv1 : arrays h1 !! length (arrays h) = Some input)
    by (rewrite Harr; by apply list_lookup_middle).
  rewrite (Solve_eq Weight solveWithGuess m1 h1 _ surface _ input Hs Hs1 Hv Hv1) in Hsolve.
  injection Hsolve as <- <-.
  exists input, surface, (solved_values Weight solveWithGuess m1 surface input).
  split; [by rewrite Hli|].
  split; [unfold surface_of; by rewrite Hs|].
  split. { unfold values_of. rewrite Hv. simpl. apply list_lookup_insert_eq.
           by apply lookup_lt_Some in Hv1. }
  split; [unfold solved_values; apply write_back_type|].
  cbv zeta. split; [intros; by apply guess_get|].
  assert (Hstored : well_shaped input ->
            forall r l, (r < NumberOfFreePoints m1)%nat -> (l < NumberOfComponents input)%nat ->
              GetValue (solved_values Weight solveWithGuess m1 surface input)
                       (Z.to_nat (FreePointId m1 r)) l
              = d_cast (DataType input)
                  (dense_get (solveWithGuess (solver_limit m1) (solver_tolerance m1)
                     (assemble Weight m1 surface input (NumberOfFreePoints m1)
                        (NumberOfComponents input) (EdgeTable surface)).1
                     (assemble Weight m1 surface input (NumberOfFreePoints m1)
                        (NumberOfComponents input) (EdgeTable surface)).2
                     (guess m1 input (NumberOfFreePoints m1) (NumberOfComponents input)))
                     r l));
    [|split; [exact Hstored|];
      intros Hshape Hdouble r l Hr Hl; rewrite Hstored by done;
      rewrite Hdouble; apply d_cast_double].
  intros Hshape r l Hr Hl. unfold solved_values.
  assert (Hfree : exists i, FreePointId m1 r = Z.of_nat i /\ (i < GetNumberOfPoints mesh)%nat).
  { rewrite Hm in Hr |- *. apply partition_free_id in Hr as (i & ? & ? & _). eauto. }
  destruct Hfree as (i & Hid & Hi).
  destruct (lookup_lt_is_Some_2 (Tuples input) i) as [t Hrow];
    [unfold GetNumberOfTuples in Ht; lia|].
  apply (write_back_target m1 _ _ _ input r l t); try done.
  - intros a a' Ha Ha' Heq. rewrite Hm in Ha, Ha', Heq.
    destruct (partition_free_id _ _ _ _ Ha) as (ia & Hia & Hlt & _).
    destruct (partition_free_id _ _ _ _ Ha') as (ia' & Hia' & Hlt' & _).
    rewrite Hia, Hia', !Nat2Z.id in Heq. subst ia'.
    destruct (partition_closed_form fixed (GetNumberOfPoints mesh) m0) as (_ & Hfr & _).
    unfold FreePointId, GetId, NumberOfFreePoints in Hia, Hia', Ha, Ha'.
    destruct (lookup_lt_is_Some_2 _ _ Ha) as [ida Hida].
    destruct (lookup_lt_is_Some_2 _ _ Ha') as [ida' Hida'].
    rewrite Hida in Hia. rewrite Hida' in Hia'. simpl in Hia, Hia'. subst ida ida'.
    pose proof (partition_NoDup fixed (GetNumberOfPoints mesh) m0) as Hnd.
    apply NoDup_app in Hnd as (_ & _ & Hnd).
    by apply (NoDup_lookup _ _ _ _ Hnd Hida Hida').
  - by rewrite Hid, Nat2Z.id.
  - apply (proj1 (Forall_lookup _ _) Hshape) in Hrow. lia.
Qed.

End SolveAndRun.

Section WholeRun.

Context {T : Type} `{DT : !Double T}.
Variable NameOfType : string.
Variable Weight : @PolyData T -> nat -> nat -> T.
Variable solveWithGuess :
  option Z -> option T -> @SparseMatrix T -> list (list T) -> list (list T) -> list (list T).
Implicit Types (m : @SurfaceMapper T) (h : @Store T).

Lemma Solve_after_Initialize m h m1 h1 :
  Initialize NameOfType m h = Ok (m1, h1) ->
  exists surface input,
    meshes h1 !! length (meshes h) = Some surface /\
    arrays h1 !! length (arrays h) = Some input /\
    (_Input m ≫= fun l => arrays h !! l) = Some input /\
    GetNumberOfTuples input = GetNumberOfPoints surface /\
    Solve Weight solveWithGuess m1 h1 =
      Ok (m1, put_array (length (arrays h))
                (solved_values Weight solveWithGuess m1 surface input) h1).
Proof.
  intros Hinit.
  apply Initialize_state in Hinit
    as (lm & mesh & li & input & fixed & lf & m0 & tl & _ & _ & Hli & Hin & Ht & Hms & Harr
        & Hs & Hv & _).
  set (surface := working_surface mesh (Some (length (arrays h))) (_Mask m)) in *.
  assert (Hs1 : meshes h1 !! length (meshes h) = Some surface)
    by (rewrite Hms; apply snoc_lookup_last).
  assert (Hv1 : arrays h1 !! length (arrays h) = Some input)
    by (rewrite Harr; by apply list_lookup_middle).
  exists surface, input. repeat (split; [done|]).
  split; [by rewrite Hli|]. split; [done|].
  by apply (Solve_eq Weight solveWithGuess m1 h1 (length (meshes h))).
Qed.

(** X8: a run stops early only in [Initialize]: it completes exactly when
    [Initialize] does, and it exits exactly when [Initialize] exits, with the
    same code and diagnostic.  [Solve] and [Finalize] never end a run. *)
Theorem Run_stops_only_in_Initialize m h :
  ((exists r, Run NameOfType Weight solveWithGuess m h = Ok r) <->
   (exists r, Initialize NameOfType m h = Ok r)) /\
  (forall code msg,
     Run NameOfType Weight solveWithGuess m h = Exit code msg <->
     Initialize NameOfType m h = Exit code msg).
Proof.
  assert (Hgo : forall m1 h1, Initialize NameOfType m h = Ok (m1, h1) ->
            exists r, Run NameOfType Weight solveWithGuess m h = Ok r).
  { intros m1 h1 Hinit. unfold Run. rewrite Hinit. simpl.
    destruct (Solve_after_Initialize m h m1 h1 Hinit) as (surface & input & _ & _ & _ & _ & ->).
    simpl. unfold Finalize. destruct (_Output m1); eauto. }
  split; [split|].
  - intros [r Hrun]. unfold Run in Hrun. apply bind_Ok in Hrun as (r1 & Hinit & _). eauto.
  - intros [[m1 h1] Hinit]. eauto.
  - intros code msg. split.
    + intros Hrun. destruct (Initialize NameOfType m h) as [[m1 h1]| |] eqn:Hinit.
      * destruct (Hgo m1 h1 eq_refl) as [r Hr]. congruence.
      * unfold Run in Hrun. rewrite Hinit in Hrun. done.
      * unfold Run in Hrun. rewrite Hinit in Hrun. done.
    + intros Hinit. unfold Run. by rewrite Hinit.
Qed.

(** X9: after a run the output map is a new map, whatever the mapper held as
    output before: its domain is the working surface and its values are the
    value array, both objects the run created, and the value array has the
    name and the number of components of the input array and one tuple per
    point of the surface. *)
Theorem Run_output m h m' h' :
  Run NameOfType Weight solveWithGuess m h = Ok (m', h') ->
  exists input ls surface lv values,
    (_Input m ≫= fun l => arrays h !! l) = Some input /\
    _Output m' = Some (mkPiecewiseLinearMap (Some ls) (Some lv)) /\
    _Surface m' = Some ls /\ _Values m' = Some lv /\
    (length (meshes h) <= ls)%nat /\ (length (arrays h) <= lv)%nat /\
    meshes h' !! ls = Some surface /\ arrays h' !! lv = Some values /\
    Name values = Name input /\
    NumberOfComponents values = NumberOfComponents input /\
    GetNumberOfTuples values = GetNumberOfPoints surface.
Proof.
  unfold Run. intros H.
  apply bind_Ok in H as ([m1 h1] & Hinit & H).
  apply bind_Ok in H as ([m2 h2] & Hsolve & Hfin).
  destruct (Solve_after_Initialize m h m1 h1 Hinit)
    as (surface & input & Hs1 & Hv1 & Hin & Ht & Hsolve').
  rewrite Hsolve' in Hsolve. injection Hsolve as <- <-.
  apply Initialize_state in Hinit
    as (lm & mesh & li & input' & fixed & lf & m0 & tl & _ & _ & _ & _ & _ & _ & _
        & Hs & Hv & _ & _ & _ & _ & Hout & _).
  apply Finalize_Ok in Hfin as (-> & _ & _ & _ & F5 & F6 & Fout).
  specialize (Fout Hout). rewrite Hs, Hv in Fout.
  unfold solved_values.
  set (x := solveWithGuess _ _ _ _ _).
  destruct (write_back_shape m1 x (NumberOfFreePoints m1) (NumberOfComponents input) input)
    as (Hn & Hc & Hl).
  eexists input, (length (meshes h)), surface, (length (arrays h)), _.
  split; [done|]. split; [done|]. split; [by rewrite F5|]. split; [by rewrite F6|].
  split; [done|]. split; [done|]. split; [done|].
  split. { simpl. apply list_lookup_insert_eq. by apply lookup_lt_Some in Hv1. }
  split; [done|]. split; [done|].
  unfold GetNumberOfTuples in *. congruence.
Qed.

(** X10: when the mask fixes every point there is no unknown, and [Solve]
    leaves the mapper and the whole store, the value array included, as
    [Initialize] left them, whatever the solver returns. *)
Theorem Solve_with_every_point_fixed m h m1 h1 surface fixed :
  Initialize NameOfType m h = Ok (m1, h1) ->
  surface_of m1 h1 = Some surface -> fixed_of m1 h1 = Some fixed ->
  (forall i, (i < GetNumberOfPoints surface)%nat -> IsFixedPoint fixed i = true) ->
  NumberOfFreePoints m1 = 0%nat /\
  NumberOfFixedPoints m1 = GetNumberOfPoints surface /\
  Solve Weight solveWithGuess m1 h1 = Ok (m1, h1).
Proof.
  intros Hinit Hs Hf Hall.
  destruct (Solve_after_Initialize m h m1 h1 Hinit)
    as (surface' & input & Hs1 & Hv1 & _ & _ & Hsolve).
  apply Initialize_is_partition in Hinit as (surface'' & fixed' & m0 & Hs' & Hf' & Hm).
  rewrite Hs in Hs'. injection Hs' as <-. rewrite Hf in Hf'. injection Hf' as <-.
  assert (Hn : NumberOfFreePoints m1 = 0%nat).
  { destruct (NumberOfFreePoints m1) as [|n] eqn:Hn; [done|]. exfalso.
    assert (Hr : (0 < NumberOfFreePoints m1)%nat) by lia.
    rewrite Hm in Hr. apply partition_free_id in Hr as (i & _ & Hi & Hfree).
    rewrite Hall in Hfree by done. done. }
  split; [done|]. split.
  { pose proof (partition_sizes fixed (GetNumberOfPoints surface) m0) as Hsz.
    rewrite <- Hm in Hsz. lia. }
  rewrite Hsolve. do 2 f_equal.
  unfold solved_values, write_back. rewrite Hn. simpl.
  unfold put_array. rewrite list_insert_id by done. by destruct h1.
Qed.

(** X11: when the mask the caller set, if any, has one tuple per point of
    the mesh, and the weights depend on the points and polygons of the
    surface only, a second run on the mapper and store the first run left
    completes and ends with the values the first run ended with. *)
Theorem Run_twice_same_values m h m1 h1 :
  (forall (s s' : @PolyData T) i j,
     Points s = Points s' -> Polys s = Polys s' -> Weight s i j = Weight s' i j) ->
  mask_fits m h ->
  Run NameOfType Weight solveWithGuess m h = Ok (m1, h1) ->
  exists m2 h2 v,
    Run NameOfType Weight solveWithGuess m1 h1 = Ok (m2, h2) /\
    values_of m1 h1 = Some v /\ values_of m2 h2 = Some v.
Proof. apply Run_again_same_values. Qed.

End WholeRun.

(** * Further properties of the assembled system *)

Section AssembledSystem.

Context {T : Type} `{DT : !Double T}.
Variable NameOfType : string.
Variable Weight : @PolyData T -> nat -> nat -> T.
Implicit Types (m : @SurfaceMapper T) (h : @Store T) (st : @Assembly T).
Implicit Types (surface : @PolyData T) (values fixed : @DataArray T).

Lemma edge_step_w m surface values mc st i j :
  w (edge_step Weight m surface values mc st (i, j)) =
  w st ++ (if both_free m (i, j)
           then [(FreePointIndex m i, FreePointIndex m j, d_neg (Weight surface i j));
                 (FreePointIndex m j, FreePointIndex m i, d_neg (Weight surface i j))]
           else []).
Proof.
  unfold edge_step, edge_visited, edge_contribution, both_free. simpl.
  destruct (0 <=? FreePointIndex m i), (0 <=? FreePointIndex m j); simpl;
    by rewrite ?app_nil_r.
Qed.

(** The triplets the loop adds: two for each edge with both endpoints free. *)
Lemma fold_edge_step_new m surface values mc edges st :
  exists l,
    w (fold_left (edge_step Weight m surface values mc) edges st) = w st ++ l /\
    length l = (2 * length (filter (fun e => Is_true (both_free m e)) edges))%nat /\
    forall t, t ∈ l ->
      exists i j, (i, j) ∈ edges /\ both_free m (i, j) = true /\
        (t = (FreePointIndex m i, FreePointIndex m j, d_neg (Weight surface i j)) \/
         t = (FreePointIndex m j, FreePointIndex m i, d_neg (Weight surface i j))).
Proof.
  revert st. induction edges as [|[i j] edges IH]; intros st.
  - exists []. simpl. rewrite app_nil_r. split; [done|]. split; [done|].
    by intros t ?%elem_of_nil.
  - cbn [fold_left].
    destruct (IH (edge_step Weight m surface values mc st (i, j))) as (l & Hw & Hlen & Hl).
    rewrite Hw, edge_step_w, filter_cons.
    destruct (both_free m (i, j)) eqn:Hbf; simpl.
    + eexists (_ :: _ :: l). rewrite <- app_assoc. split; [done|].
      split; [simpl; lia|].
      intros t Ht. rewrite !elem_of_cons in Ht.
      destruct Ht as [->|[->|Ht]].
      * exists i, j. rewrite elem_of_cons. auto.
      * exists i, j. rewrite elem_of_cons. auto.
      * destruct (Hl t Ht) as (a & c & Hin & ? & ?). exists a, c.
        rewrite elem_of_cons. auto.
    + exists l. rewrite app_nil_r. split; [done|]. split; [done|].
      intros t Ht. destruct (Hl t Ht) as (a & c & Hin & ? & ?). exists a, c.
      rewrite elem_of_cons. auto.
Qed.

Lemma diagonal_length (n : nat) (d : list T) : length (diagonal n d) = n.
Proof. unfold diagonal. by rewrite length_fmap, length_seq. Qed.

(** X12: every triplet the matrix is set from has its row and its column
    within the n x n matrix, and there are two triplets for each edge with
    both endpoints free and one for each free point, which is within the
    [2 * NumberOfEdges + n] places reserved in line 97. *)
Theorem triplets_fit_matrix m h m' h' surface values mc edges :
  Initialize NameOfType m h = Ok (m', h') ->
  surface_of m' h' = Some surface ->
  (forall i j, (i, j) ∈ edges ->
     (i < GetNumberOfPoints surface)%nat /\ (j < GetNumberOfPoints surface)%nat) ->
  let n := NumberOfFreePoints m' in
  let ts := triplets Weight m' surface values n mc edges in
  (forall r c v, (r, c, v) ∈ ts -> 0 <= r < Z.of_nat n /\ 0 <= c < Z.of_nat n) /\
  length ts = (2 * length (filter (fun e => Is_true (both_free m' e)) edges) + n)%nat /\
  (length ts <= 2 * length edges + n)%nat.
Proof.
  intros Hinit Hs Hedges n ts.
  apply Initialize_is_partition in Hinit as (surface' & fixed & m0 & Hs' & _ & Hm).
  rewrite Hs in Hs'. injection Hs' as <-.
  subst ts. unfold triplets, assemble_edges.
  destruct (fold_edge_step_new m' surface values mc edges
              (mkAssembly [] (replicate n d_zero) (dense_zero n mc))) as (l & Hw & Hlen & Hl).
  rewrite Hw. simpl. split; [|split].
  - intros r c v Hin. apply elem_of_app in Hin as [Hin|Hin].
    + destruct (Hl _ Hin) as (i & j & Hij & Hbf & Ht).
      destruct (Hedges i j Hij) as [Hi Hj].
      unfold both_free in Hbf. simpl in Hbf. apply andb_true_iff in Hbf as [Hr Hc].
      apply Z.leb_le in Hr, Hc.
      assert (Hri : (Z.to_nat (FreePointIndex m' i) < n)%nat)
        by (subst n; rewrite Hm in Hr |- *; by apply partition_index_sign).
      assert (Hcj : (Z.to_nat (FreePointIndex m' j) < n)%nat)
        by (subst n; rewrite Hm in Hc |- *; by apply partition_index_sign).
      destruct Ht as [[= -> -> _]|[= -> -> _]]; lia.
    + unfold diagonal in Hin. apply list_elem_of_fmap in Hin as (a & [= -> -> _] & Ha).
      apply elem_of_seq in Ha. lia.
  - rewrite length_app, diagonal_length, Hlen. done.
  - rewrite length_app, diagonal_length, Hlen.
    pose proof (length_filter (fun e => Is_true (both_free m' e)) edges). lia.
Qed.

Lemma fold_untouched (l : list (Z * Z * T)) (M : gmap (Z * Z) T) (k : Z * Z) :
  (forall t, t ∈ l -> t.1 <> k) -> fold_left add_triplet l M !! k = M !! k.
Proof.
  revert M. induction l as [|[[r c] v] l IH]; intros M Hl; [done|].
  cbn [fold_left]. rewrite IH by (intros; apply Hl; rewrite elem_of_cons; auto).
  rewrite add_triplet_lookup. rewrite decide_False; [done|].
  apply (Hl (r, c, v)). rewrite elem_of_cons. auto.
Qed.

Lemma diagonal_off_key (n : nat) (d : list T) (r c : Z) (t : Z * Z * T) :
  r <> c -> t ∈ diagonal n d -> t.1 <> (r, c).
Proof.
  intros Hne Hin. unfold diagonal in Hin.
  apply list_elem_of_fmap in Hin as (a & -> & _). simpl. congruence.
Qed.

(** The entry at the compact indices of two different free points. *)
Lemma joined_points_entry m h m' h' surface values n mc edges i0 j0 :
  Initialize NameOfType m h = Ok (m', h') ->
  surface_of m' h' = Some surface ->
  (forall i j, (i, j) ∈ edges ->
     (i < GetNumberOfPoints surface)%nat /\ (j < GetNumberOfPoints surface)%nat) ->
  (i0 < GetNumberOfPoints surface)%nat -> (j0 < GetNumberOfPoints surface)%nat ->
  i0 <> j0 -> 0 <= FreePointIndex m' i0 -> 0 <= FreePointIndex m' j0 ->
  let A := (assemble Weight m' surface values n mc edges).1 in
  ((forall e, e ∈ edges -> ~ joins i0 j0 e) ->
     entries A !! (FreePointIndex m' i0, FreePointIndex m' j0) = None /\
     coeff A (FreePointIndex m' i0) (FreePointIndex m' j0) = d_zero) /\
  (forall pre e post,
     edges = pre ++ e :: post -> joins i0 j0 e ->
     (forall e', e' ∈ pre ++ post -> ~ joins i0 j0 e') ->
     coeff A (FreePointIndex m' i0) (FreePointIndex m' j0) = d_neg (Weight surface e.1 e.2)).
Proof.
  intros Hinit Hs Hedges Hi0 Hj0 Hij Hfi Hfj A.
  apply Initialize_is_partition in Hinit as (surface' & fixed & m0 & Hs' & _ & Hm).
  rewrite Hs in Hs'. injection Hs' as <-.
  set (P := GetNumberOfPoints surface) in *.
  set (r := FreePointIndex m' i0) in *. set (c := FreePointIndex m' j0) in *.
  assert (Hinj : forall a a', (a < P)%nat -> (a' < P)%nat ->
            FreePointIndex m' a = FreePointIndex m' a' -> a = a').
  { intros a a' Ha Ha'. rewrite Hm. by apply partition_index_inj. }
  assert (Hrc : r <> c) by (intros Heq; apply Hij; by apply Hinj).
  (* a triplet of an edge that does not join the two points has another key *)
  assert (Hkey : forall (es : list (nat * nat)) (l : list (Z * Z * T)),
            (forall e, e ∈ es -> e ∈ edges) ->
            (forall e, e ∈ es -> ~ joins i0 j0 e) ->
            (forall t, t ∈ l ->
               exists i j, (i, j) ∈ es /\ both_free m' (i, j) = true /\
                 (t = (FreePointIndex m' i, FreePointIndex m' j, d_neg (Weight surface i j)) \/
                  t = (FreePointIndex m' j, FreePointIndex m' i, d_neg (Weight surface i j)))) ->
            forall t, t ∈ l -> t.1 <> (r, c)).
  { intros es l Hsub Hno Hl t Ht Heq.
    destruct (Hl t Ht) as (i & j & Hin & _ & Hform).
    destruct (Hedges i j (Hsub _ Hin)) as [Hi Hj].
    apply (Hno _ Hin). unfold joins. simpl.
    destruct Hform as [-> | ->]; simpl in Heq; injection Heq as Hr Hc.
    - left. split; by apply Hinj.
    - right. split; by apply Hinj. }
  subst A. unfold coeff, assemble, setFromTriplets, triplets, assemble_edges. simpl.
  split.
  - intros Hno.
    destruct (fold_edge_step_new m' surface values mc edges
                (mkAssembly [] (replicate n d_zero) (dense_zero n mc))) as (l & Hw & _ & Hl).
    rewrite Hw. simpl. rewrite fold_left_app.
    rewrite fold_untouched by (intros t0 Ht0; eapply diagonal_off_key; eauto).
    rewrite (fold_untouched l) by (apply (Hkey edges); done).
    by rewrite lookup_empty.
  - intros pre e post -> Hjoin Hno. destruct e as [a b].
    rewrite fold_left_app.
    rewrite fold_untouched by (intros t0 Ht0; eapply diagonal_off_key; eauto).
    rewrite (fold_left_app (edge_step Weight m' surface values mc) pre).
    cbn [fold_left].
    set (st0 := mkAssembly [] (replicate n d_zero) (dense_zero n mc)).
    destruct (fold_edge_step_new m' surface values mc pre st0) as (l1 & Hw1 & _ & Hl1).
    set (st1 := fold_left _ pre st0) in *.
    destruct (fold_edge_step_new m' surface values mc post
                (edge_step Weight m' surface values mc st1 (a, b))) as (l2 & Hw2 & _ & Hl2).
    rewrite Hw2, edge_step_w, Hw1.
    assert (Hbf : both_free m' (a, b) = true).
    { unfold both_free. simpl. apply andb_true_iff.
      destruct Hjoin as [[Ha Hb]|[Ha Hb]]; simpl in Ha, Hb; subst a b;
        split; by apply Z.leb_le. }
    rewrite Hbf. cbn [w st0 app]. rewrite !fold_left_app.
    rewrite (fold_untouched l2).
    2:{ apply (Hkey post); [|intros; apply Hno|done];
          intros; rewrite !elem_of_app, ?elem_of_cons; auto. }
    assert (Hl1' : fold_left add_triplet l1 ∅ !! (r, c) = None).
    { rewrite (fold_untouched l1); [apply lookup_empty|].
      apply (Hkey pre); [|intros; apply Hno|done];
        intros; rewrite !elem_of_app, ?elem_of_cons; auto. }
    cbn [fold_left].
    destruct Hjoin as [[Ha Hb]|[Ha Hb]]; simpl in Ha, Hb; subst a b; fold r c;
      rewrite !add_triplet_lookup.
    + rewrite (decide_False (P := (c, r) = (r, c))) by congruence.
      rewrite decide_True by done. by rewrite Hl1'.
    + rewrite (decide_True (P := (r, c) = (r, c))) by done.
      rewrite (decide_False (P := (c, r) = (r, c))) by congruence. by rewrite Hl1'.
Qed.


(** X13: the entry of the matrix for two different free points: none, so
    that A(r,c) reads 0.0, when no edge joins them, and [-Weight(i,j)] when
    (i,j) is the one edge of the traversal that joins them. *)
Theorem off_diagonal_entry m h m' h' surface values mc edges i0 j0 :
  Initialize NameOfType m h = Ok (m', h') ->
  surface_of m' h' = Some surface ->
  (forall i j, (i, j) ∈ edges ->
     (i < GetNumberOfPoints surface)%nat /\ (j < GetNumberOfPoints surface)%nat) ->
  (i0 < GetNumberOfPoints surface)%nat -> (j0 < GetNumberOfPoints surface)%nat ->
  i0 <> j0 -> 0 <= FreePointIndex m' i0 -> 0 <= FreePointIndex m' j0 ->
  let A := (assemble Weight m' surface values (NumberOfFreePoints m') mc edges).1 in
  ((forall e, e ∈ edges -> ~ joins i0 j0 e) ->
     entries A !! (FreePointIndex m' i0, FreePointIndex m' j0) = None /\
     coeff A (FreePointIndex m' i0) (FreePointIndex m' j0) = d_zero) /\
  (forall pre e post,
     edges = pre ++ e :: post -> joins i0 j0 e ->
     (forall e', e' ∈ pre ++ post -> ~ joins i0 j0 e') ->
     coeff A (FreePointIndex m' i0) (FreePointIndex m' j0) = d_neg (Weight surface e.1 e.2)).
Proof.
  intros Hinit Hs Hedges Hi0 Hj0 Hij Hfi Hfj A.
  apply Initialize_is_partition in Hinit as (surface' & fixed & m0 & Hs' & _ & Hm).
  rewrite Hs in Hs'. injection Hs' as <-.
  set (P := GetNumberOfPoints surface) in *.
  set (r := FreePointIndex m' i0) in *. set (c := FreePointIndex m' j0) in *.
  assert (Hinj : forall a a', (a < P)%nat -> (a' < P)%nat ->
            FreePointIndex m' a = FreePointIndex m' a' -> a = a').
  { intros a a' Ha Ha'. rewrite Hm. by apply partition_index_inj. }
  assert (Hrc : r <> c) by (intros Heq; apply Hij; by apply Hinj).
  (* a triplet of an edge that does not join the two points has another key *)
  assert (Hkey : forall (es : list (nat * nat)) (l : list (Z * Z * T)),
            (forall e, e ∈ es -> e ∈ edges) ->
            (forall e, e ∈ es -> ~ joins i0 j0 e) ->
            (forall t, t ∈ l ->
               exists i j, (i, j) ∈ es /\ both_free m' (i, j) = true /\
                 (t = (FreePointIndex m' i, FreePointIndex m' j, d_neg (Weight surface i j)) \/
                  t = (FreePointIndex m' j, FreePointIndex m' i, d_neg (Weight surface i j)))) ->
            forall t, t ∈ l -> t.1 <> (r, c)).
  { intros es l Hsub Hno Hl t Ht Heq.
    destruct (Hl t Ht) as (i & j & Hin & _ & Hform).
    destruct (Hedges i j (Hsub _ Hin)) as [Hi Hj].
    apply (Hno _ Hin). unfold joins. simpl.
    destruct Hform as [-> | ->]; simpl in Heq; injection Heq as Hr Hc.
    - left. split; by apply Hinj.
    - right. split; by apply Hinj. }
  subst A. unfold coeff, assemble, setFromTriplets, triplets, assemble_edges. simpl.
  split.
  - intros Hno.
    destruct (fold_edge_step_new m' surface values mc edges
                (mkAssembly [] (replicate (NumberOfFreePoints m') d_zero)
                            (dense_zero (NumberOfFreePoints m') mc))) as (l & Hw & _ & Hl).
    rewrite Hw. simpl. rewrite fold_left_app.
    rewrite fold_untouched by (intros t0 Ht0; eapply diagonal_off_key; eauto).
    rewrite (fold_untouched l) by (apply (Hkey edges); done).
    by rewrite lookup_empty.
  - intros pre e post -> Hjoin Hno. destruct e as [a b].
    rewrite fold_left_app.
    rewrite fold_untouched by (intros t0 Ht0; eapply diagonal_off_key; eauto).
    rewrite (fold_left_app (edge_step Weight m' surface values mc) pre).
    cbn [fold_left].
    set (st0 := mkAssembly [] (replicate (NumberOfFreePoints m') d_zero)
                           (dense_zero (NumberOfFreePoints m') mc)).
    destruct (fold_edge_step_new m' surface values mc pre st0) as (l1 & Hw1 & _ & Hl1).
    set (st1 := fold_left _ pre st0) in *.
    destruct (fold_edge_step_new m' surface values mc post
                (edge_step Weight m' surface values mc st1 (a, b))) as (l2 & Hw2 & _ & Hl2).
    rewrite Hw2, edge_step_w, Hw1.
    assert (Hbf : both_free m' (a, b) = true).
    { unfold both_free. simpl. apply andb_true_iff.
      destruct Hjoin as [[Ha Hb]|[Ha Hb]]; simpl in Ha, Hb; subst a b;
        split; by apply Z.leb_le. }
    rewrite Hbf. cbn [w st0 app]. rewrite !fold_left_app.
    rewrite (fold_untouched l2).
    2:{ apply (Hkey post); [|intros; apply Hno|done];
          intros; rewrite !elem_of_app, ?elem_of_cons; auto. }
    assert (Hl1' : fold_left add_triplet l1 ∅ !! (r, c) = None).
    { rewrite (fold_untouched l1); [apply lookup_empty|].
      apply (Hkey pre); [|intros; apply Hno|done];
        intros; rewrite !elem_of_app, ?elem_of_cons; auto. }
    cbn [fold_left].
    destruct Hjoin as [[Ha Hb]|[Ha Hb]]; simpl in Ha, Hb; subst a b; fold r c;
      rewrite !add_triplet_lookup.
    + rewrite (decide_False (P := (c, r) = (r, c))) by congruence.
      rewrite decide_True by done. by rewrite Hl1'.
    + rewrite (decide_True (P := (r, c) = (r, c))) by done.
      rewrite (decide_False (P := (c, r) = (r, c))) by congruence. by rewrite Hl1'.
Qed.

(** C2: the matrix [Solve] assembles is symmetric, [A(r,c) = A(c,r)] for all
    r and c; an edge (i,j) with both endpoints free, of compact indices r and
    c, puts the triplets (r, c, -Weight(i,j)) and (c, r, -Weight(i,j)) among
    those the matrix is set from; and with the point index [Initialize]
    builds, when (i,j) is the one edge of the traversal that joins i and j,
    the matrix holds -Weight(i,j) both at (r,c) and at (c,r).  The edges
    [Solve] traverses are such a traversal: for every edge (i,j) of the
    surface with both endpoints free the assembled matrix holds -Weight(i,j)
    at (r,c) and at (c,r). *)
Theorem assemble_symmetric m surface values n mc edges :
  (forall r c,
     coeff (assemble Weight m surface values n mc edges).1 r c =
     coeff (assemble Weight m surface values n mc edges).1 c r) /\
  (forall i j,
     (i, j) ∈ edges -> 0 <= FreePointIndex m i -> 0 <= FreePointIndex m j ->
     (FreePointIndex m i, FreePointIndex m j, d_neg (Weight surface i j))
       ∈ triplets Weight m surface values n mc edges /\
     (FreePointIndex m j, FreePointIndex m i, d_neg (Weight surface i j))
       ∈ triplets Weight m surface values n mc edges) /\
  (forall m0 h0 h pre i j post,
     Initialize NameOfType m0 h0 = Ok (m, h) ->
     surface_of m h = Some surface ->
     (forall a b, (a, b) ∈ edges ->
        (a < GetNumberOfPoints surface)%nat /\ (b < GetNumberOfPoints surface)%nat) ->
     edges = pre ++ (i, j) :: post ->
     (forall e, e ∈ pre ++ post -> ~ joins i j e) ->
     i <> j -> 0 <= FreePointIndex m i -> 0 <= FreePointIndex m j ->
     coeff (assemble Weight m surface values n mc edges).1
           (FreePointIndex m i) (FreePointIndex m j) = d_neg (Weight surface i j) /\
     coeff (assemble Weight m surface values n mc edges).1
           (FreePointIndex m j) (FreePointIndex m i) = d_neg (Weight surface i j)) /\
  (forall m0 h0 h i j,
     Initialize NameOfType m0 h0 = Ok (m, h) ->
     surface_of m h = Some surface ->
     (forall c v, c ∈ Polys surface -> v ∈ c -> (v < GetNumberOfPoints surface)%nat) ->
     edges = EdgeTable surface ->
     (i, j) ∈ EdgeTable surface ->
     0 <= FreePointIndex m i -> 0 <= FreePointIndex m j ->
     coeff (assemble Weight m surface values n mc edges).1
           (FreePointIndex m i) (FreePointIndex m j) = d_neg (Weight surface i j) /\
     coeff (assemble Weight m surface values n mc edges).1
           (FreePointIndex m j) (FreePointIndex m i) = d_neg (Weight surface i j)).
Proof.
  assert (Hgen : forall m0 h0 h pre i j post,
     Initialize NameOfType m0 h0 = Ok (m, h) ->
     surface_of m h = Some surface ->
     (forall a b, (a, b) ∈ edges ->
        (a < GetNumberOfPoints surface)%nat /\ (b < GetNumberOfPoints surface)%nat) ->
     edges = pre ++ (i, j) :: post ->
     (forall e, e ∈ pre ++ post -> ~ joins i j e) ->
     i <> j -> 0 <= FreePointIndex m i -> 0 <= FreePointIndex m j ->
     coeff (assemble Weight m surface values n mc edges).1
           (FreePointIndex m i) (FreePointIndex m j) = d_neg (Weight surface i j) /\
     coeff (assemble Weight m surface values n mc edges).1
           (FreePointIndex m j) (FreePointIndex m i) = d_neg (Weight surface i j)).
  { intros m0 h0 h pre i j post Hinit Hs Hedges Hsplit Hone Hij Hr Hc.
    assert (Hin : (i, j) ∈ edges)
      by (rewrite Hsplit, elem_of_app, elem_of_cons; auto).
    destruct (Hedges i j Hin) as [Hi Hj].
    split.
    - destruct (joined_points_entry m0 h0 m h surface values n mc edges i j
                  Hinit Hs Hedges Hi Hj Hij Hr Hc) as [_ Hentry].
      apply (Hentry pre (i, j) post Hsplit); [by left|done].
    - destruct (joined_points_entry m0 h0 m h surface values n mc edges j i
                  Hinit Hs Hedges Hj Hi (not_eq_sym Hij) Hc Hr) as [_ Hentry].
      apply (Hentry pre (i, j) post Hsplit); [by right|].
      intros e He [[? ?]|[? ?]]; apply (Hone e He); [by right|by left]. }
  split; [|split; [|split; [exact Hgen|]]].
  - intros r c. unfold coeff, assemble, setFromTriplets, triplets. simpl.
    f_equal. rewrite fold_left_app.
    apply fold_diagonal_symmetric, fold_mirrored_symmetric.
    + apply assemble_edges_mirrored.
    + intros ? ?. by rewrite !lookup_empty.
  - intros i j Hin Hr Hc. unfold triplets, assemble_edges.
    apply list_elem_of_split in Hin as (pre & post & ->).
    rewrite fold_left_app. simpl.
    set (st := fold_left _ pre _).
    destruct (fold_edge_step_keeps Weight m surface values mc post
                (edge_step Weight m surface values mc st (i, j))) as [l ->].
    rewrite edge_step_pushes by done.
    rewrite !elem_of_app, !elem_of_cons. split; tauto.
  - intros m0 h0 h i j Hinit Hs Hpolys -> Hin Hr Hc.
    destruct (EdgeTable_once surface i j Hin) as (pre & post & Hsplit & Hno).
    pose proof (EdgeTable_wf surface Hpolys) as Hwf.
    apply (Hgen m0 h0 h pre i j post); try done.
    + intros a b Hab. by destruct (Hwf a b Hab) as (_ & ? & ?).
    + by destruct (Hwf i j Hin).
Qed.

End AssembledSystem.

Section RightHandSide.

Context {T : Type} `{DT : !Double T}.
Variable NameOfType : string.
Variable Weight : @PolyData T -> nat -> nat -> T.
Implicit Types (m : @SurfaceMapper T) (h : @Store T) (st : @Assembly T).
Implicit Types (surface : @PolyData T) (values fixed : @DataArray T).

(** One edge, seen from row [FreePointIndex i0] of the right-hand side. *)
Lemma edge_step_rhs fixed (P : nat) (m0 : @SurfaceMapper T) surface values mc st
    (i j i0 l : nat) :
  let m' := partition fixed P m0 in
  (i < P)%nat -> (j < P)%nat -> (i0 < P)%nat ->
  IsFixedPoint fixed i0 = false -> (l < mc)%nat ->
  has_dims (NumberOfFreePoints m') mc (b st) ->
  has_dims (NumberOfFreePoints m') mc (b (edge_step Weight m' surface values mc st (i, j))) /\
  dense_get (b (edge_step Weight m' surface values mc st (i, j)))
            (Z.to_nat (FreePointIndex m' i0)) l =
  match fixed_neighbour fixed i0 (i, j) with
  | Some q => d_add (dense_get (b st) (Z.to_nat (FreePointIndex m' i0)) l)
                    (d_mul (Weight surface i j) (GetValue values q l))
  | None => dense_get (b st) (Z.to_nat (FreePointIndex m' i0)) l
  end.
Proof.
  intros m' Hi Hj Hi0 Hfree Hl Hd.
  destruct (partition_index_sign fixed P m0 i Hi) as [Hsi Hri].
  destruct (partition_index_sign fixed P m0 j Hj) as [Hsj Hrj].
  destruct (partition_index_sign fixed P m0 i0 Hi0) as [Hs0 Hr0].
  fold m' in Hsi, Hri, Hsj, Hrj, Hs0, Hr0.
  rewrite Hfree in Hs0. simpl in Hs0. apply Z.leb_le in Hs0.
  assert (Hrow : forall a, (a < P)%nat -> 0 <= FreePointIndex m' a ->
            (Z.to_nat (FreePointIndex m' i0) = Z.to_nat (FreePointIndex m' a) <-> a = i0)).
  { intros a Ha Hpos. split; [|by intros ->].
    intros Heq. apply (partition_index_inj fixed P m0); [done|done|]. fold m'. lia. }
  unfold edge_step, edge_visited, edge_contribution, fixed_neighbour. simpl.
  rewrite Hsi, Hsj.
  destruct (IsFixedPoint fixed i) eqn:Hfi, (IsFixedPoint fixed j) eqn:Hfj; simpl.
  - (* both fixed *)
    split; [done|].
    destruct (Nat.eqb_spec i i0) as [->|_]; [congruence|].
    destruct (Nat.eqb_spec j i0) as [->|_]; [congruence|]. done.
  - (* i fixed, j free *)
    assert (Hpos : 0 <= FreePointIndex m' j) by (apply Z.leb_le; by rewrite Hsj).
    specialize (Hrj Hpos).
    split; [by apply fold_fixed_dims|].
    rewrite (fold_fixed_get _ _ _ _ _ _ _ _ _ Hd Hrj).
    rewrite andb_false_r, andb_true_r.
    destruct (Nat.eqb_spec j i0) as [->|Hne].
    + by rewrite decide_True by done.
    + rewrite decide_False; [done|]. intros [Heq _]. apply Hne. by apply (Hrow j).
  - (* i free, j fixed *)
    assert (Hpos : 0 <= FreePointIndex m' i) by (apply Z.leb_le; by rewrite Hsi).
    specialize (Hri Hpos).
    split; [by apply fold_fixed_dims|].
    rewrite (fold_fixed_get _ _ _ _ _ _ _ _ _ Hd Hri).
    rewrite andb_true_r, andb_false_r.
    destruct (Nat.eqb_spec i i0) as [->|Hne].
    + by rewrite decide_True by done.
    + rewrite decide_False; [|intros [Heq _]; apply Hne; by apply (Hrow i)].
      by destruct (Nat.eqb j i0).
  - (* both free *)
    split; [done|]. rewrite !andb_false_r. done.
Qed.

Lemma fold_edge_step_rhs fixed (P : nat) (m0 : @SurfaceMapper T) surface values mc
    (i0 l : nat) edges st :
  let m' := partition fixed P m0 in
  (forall i j, (i, j) ∈ edges -> (i < P)%nat /\ (j < P)%nat) ->
  (i0 < P)%nat -> IsFixedPoint fixed i0 = false -> (l < mc)%nat ->
  has_dims (NumberOfFreePoints m') mc (b st) ->
  dense_get (b (fold_left (edge_step Weight m' surface values mc) edges st))
            (Z.to_nat (FreePointIndex m' i0)) l =
  fold_left d_add
    (omap (fun e => (fun q => d_mul (Weight surface e.1 e.2) (GetValue values q l))
                      <$> fixed_neighbour fixed i0 e) edges)
    (dense_get (b st) (Z.to_nat (FreePointIndex m' i0)) l).
Proof.
  intros m' Hedges Hi0 Hfree Hl. revert st.
  induction edges as [|[i j] edges IH]; intros st Hd; [done|].
  cbn [fold_left omap list_omap].
  destruct (Hedges i j) as [Hi Hj]; [rewrite elem_of_cons; auto|].
  destruct (edge_step_rhs fixed P m0 surface values mc st i j i0 l Hi Hj Hi0 Hfree Hl Hd)
    as [Hd' Hget].
  fold m' in Hd', Hget.
  rewrite IH; [|intros; apply Hedges; rewrite elem_of_cons; auto|done].
  rewrite Hget. by destruct (fixed_neighbour fixed i0 (i, j)).
Qed.

(** X14: after the edge loop, row r of the right-hand side, for the free
    point i of compact index r, holds in each component l the sum of
    [Weight * value(q, l)] over the edges that join i to a fixed point q;
    edges between free points and between fixed points add nothing. *)
Theorem right_hand_side_is_dirichlet_sum m h m' h' surface fixed values mc edges i0 l :
  Initialize NameOfType m h = Ok (m', h') ->
  surface_of m' h' = Some surface -> fixed_of m' h' = Some fixed ->
  (forall i j, (i, j) ∈ edges ->
     (i < GetNumberOfPoints surface)%nat /\ (j < GetNumberOfPoints surface)%nat) ->
  (i0 < GetNumberOfPoints surface)%nat -> IsFixedPoint fixed i0 = false ->
  (l < mc)%nat ->
  dense_get (assemble Weight m' surface values (NumberOfFreePoints m') mc edges).2
            (Z.to_nat (FreePointIndex m' i0)) l =
  dirichlet_sum Weight surface values fixed edges i0 l.
Proof.
  intros Hinit Hs Hf Hedges Hi0 Hfree Hl.
  apply Initialize_is_partition in Hinit as (surface' & fixed' & m0 & Hs' & Hf' & ->).
  rewrite Hs in Hs'. injection Hs' as <-. rewrite Hf in Hf'. injection Hf' as <-.
  unfold assemble, assemble_edges, dirichlet_sum. simpl.
  rewrite (fold_edge_step_rhs fixed _ m0 surface values mc i0 l) by
    (done || apply dense_zero_dims).
  f_equal. simpl.
  destruct (partition_index_sign fixed (GetNumberOfPoints surface) m0 i0 Hi0) as [Hs0 Hr0].
  rewrite Hfree in Hs0. apply Z.leb_le in Hs0. specialize (Hr0 Hs0).
  unfold dense_get, dense_zero.
  rewrite lookup_replicate_2 by done. simpl. by rewrite lookup_replicate_2.
Qed.

Lemma filter_none {A} (P : A -> Prop) `{!forall x, Decision (P x)} (l : list A) :
  (forall x, x ∈ l -> ~ P x) -> filter P l = [].
Proof.
  induction l as [|x l IH]; intros Hl; [done|].
  rewrite filter_cons, decide_False by (apply Hl; rewrite elem_of_cons; auto).
  apply IH. intros y Hy. apply Hl. rewrite elem_of_cons. auto.
Qed.

Lemma omap_none {A B} (f : A -> option B) (l : list A) :
  (forall x, x ∈ l -> f x = None) -> omap f l = [].
Proof.
  induction l as [|x l IH]; intros Hl; [done|].
  cbn [omap list_omap]. rewrite Hl by (rewrite elem_of_cons; auto).
  apply IH. intros y Hy. apply Hl. rewrite elem_of_cons. auto.
Qed.

(** X15: a free point that no edge touches gets the equation 0 * x = 0: its
    diagonal entry is 0.0, its row has no other entry, and its row of the
    right-hand side is 0.0.  The assembly does not reject such a point. *)
Theorem isolated_free_point_row m h m' h' surface fixed values mc edges i0 :
  Initialize NameOfType m h = Ok (m', h') ->
  surface_of m' h' = Some surface -> fixed_of m' h' = Some fixed ->
  (forall i j, (i, j) ∈ edges ->
     i <> j /\ (i < GetNumberOfPoints surface)%nat /\ (j < GetNumberOfPoints surface)%nat) ->
  (i0 < GetNumberOfPoints surface)%nat -> IsFixedPoint fixed i0 = false ->
  (forall e, e ∈ edges -> ~ incident i0 e) ->
  let Ab := assemble Weight m' surface values (NumberOfFreePoints m') mc edges in
  let r := FreePointIndex m' i0 in
  0 <= r < Z.of_nat (NumberOfFreePoints m') /\
  entries Ab.1 !! (r, r) = Some d_zero /\
  (forall c, c <> r -> entries Ab.1 !! (r, c) = None) /\
  (forall l, (l < mc)%nat -> dense_get Ab.2 (Z.to_nat r) l = d_zero).
Proof.
  intros Hinit Hs Hf Hedges Hi0 Hfree Hiso Ab r.
  pose proof Hinit as Hinit'.
  apply Initialize_is_partition in Hinit' as (surface' & fixed' & m0 & Hs' & Hf' & Hm).
  rewrite Hs in Hs'. injection Hs' as <-. rewrite Hf in Hf'. injection Hf' as <-.
  set (P := GetNumberOfPoints surface) in *.
  destruct (partition_index_sign fixed P m0 i0 Hi0) as [Hs0 Hr0].
  rewrite <- Hm in Hs0, Hr0. rewrite Hfree in Hs0. apply Z.leb_le in Hs0.
  specialize (Hr0 Hs0). fold r in Hs0, Hr0.
  assert (Hinj : forall a, (a < P)%nat -> FreePointIndex m' a = r -> a = i0).
  { intros a Ha Heq. rewrite Hm in Heq. subst r. rewrite Hm in Heq.
    by apply partition_index_inj in Heq. }
  split; [lia|]. subst Ab. unfold assemble, setFromTriplets, triplets, assemble_edges.
  cbn [fst snd entries].
  set (st0 := mkAssembly [] (replicate (NumberOfFreePoints m') d_zero)
                         (dense_zero (NumberOfFreePoints m') mc)).
  destruct (fold_edge_step_new Weight m' surface values mc edges st0) as (l & Hw & _ & Hl).
  assert (Hrow : forall c t, t ∈ l -> t.1 <> (r, c)).
  { intros c t Ht Heq. destruct (Hl t Ht) as (i & j & Hin & _ & Hform).
    destruct (Hedges i j Hin) as (_ & Hi & Hj).
    apply (Hiso _ Hin). unfold incident. simpl.
    destruct Hform as [-> | ->]; simpl in Heq; injection Heq as Hr _.
    - left. by apply Hinj.
    - right. by apply Hinj. }
  split; [|split].
  - rewrite fold_left_app, Hw.
    unfold diagonal, r. rewrite fold_diagonal_entry by done.
    rewrite decide_True by lia.
    rewrite (fold_untouched l) by (apply Hrow). rewrite lookup_empty. do 2 f_equal.
    pose proof (fold_edge_step_diagonal Weight m' surface values mc i0 Hs0 edges st0 d_zero)
      as Hd.
    rewrite Hd.
    + rewrite filter_none by done. done.
    + intros i j Hin. destruct (Hedges i j Hin) as (Hij & Hi & Hj).
      split; [done|]. split; by apply Hinj.
    + simpl. by apply lookup_replicate_2.
  - intros c Hc. rewrite fold_left_app, Hw.
    rewrite fold_untouched by (intros t0 Ht0; eapply diagonal_off_key; eauto).
    rewrite (fold_untouched l) by (apply Hrow). apply lookup_empty.
  - intros l0 Hl0. unfold r, st0. rewrite Hm.
    rewrite (fold_edge_step_rhs fixed P m0 surface values mc i0 l0)
      by (done || (intros i j Hin; by destruct (Hedges i j Hin) as (_ & ? & ?))
          || apply dense_zero_dims).
    rewrite omap_none.
    + simpl. rewrite <- Hm. unfold dense_get, dense_zero.
      rewrite lookup_replicate_2 by done. simpl. by rewrite lookup_replicate_2.
    + intros [i j] Hin. unfold fixed_neighbour. simpl.
      destruct (Nat.eqb_spec i i0) as [->|_];
        [exfalso; apply (Hiso _ Hin); by left|].
      destruct (Nat.eqb_spec j i0) as [->|_];
        [exfalso; apply (Hiso _ Hin); by right|]. done.
Qed.

End RightHandSide.

(** * Copies of a mapper *)

Section CopiedMapper.

Context {T : Type} `{DT : !Double T}.
Variable NewCopy : PiecewiseLinearMap -> @Store T -> PiecewiseLinearMap * @Store T.
Variable Weight : @PolyData T -> nat -> nat -> T.
Variable solveWithGuess :
  option Z -> option T -> @SparseMatrix T -> list (list T) -> list (list T) -> list (list T).
Implicit Types (m : @SurfaceMapper T) (h : @Store T).

Lemma CopyAttributes_Ok (this other c : @SurfaceMapper T) h h' :
  allocates_only NewCopy ->
  CopyAttributes NewCopy this other h = Ok (c, h') ->
  (exists tl, meshes h' = meshes h ++ tl) /\
  match _Values other with
  | None => _Values c = None /\ exists tl, arrays h' = arrays h ++ tl
  | Some lo =>
      exists a tl, arrays h !! lo = Some a /\ _Values c = Some (length (arrays h)) /\
                   arrays h' = arrays h ++ a :: tl
  end /\
  c = mkSurfaceMapper (_Mesh other) (_Input other) (_Mask other) (_Output c)
        (_Surface other) (_Values c) (_Fixed other)
        (_FixedPoints other) (_FreePoints other) (_PointIndex other)
        (_NumberOfIterations this) (_Tolerance this).
Proof.
  intros Halloc. unfold CopyAttributes. intros H.
  apply bind_Ok in H as ([values h1] & Hv & H).
  assert (Hout : exists out h2, (match _Output other with
                    | Some o => let '(o', h) := NewCopy o h1 in (Some o', h)
                    | None => (None, h1)
                    end) = (out, h2) /\
                    (exists tl, arrays h2 = arrays h1 ++ tl) /\
                    (exists tl, meshes h2 = meshes h1 ++ tl)).
  { destruct (_Output other) as [o|].
    - destruct (Halloc o h1) as [Ha Hm]. destruct (NewCopy o h1) as [o' h2]. eauto.
    - exists None, h1. split; [done|]. split; exists []; by rewrite app_nil_r. }
  destruct Hout as (out & h2 & Heq & [tla Ha] & [tlm Hm]).
  rewrite Heq in H. injection H as <- <-. simpl.
  destruct (_Values other) as [lo|].
  - apply bind_Ok in Hv as (a & Hlo & Hv). apply deref_Ok in Hlo.
    injection Hv as <- <-. simpl in *.
    split; [eauto|]. split; [|done].
    exists a, tla. split; [done|]. split; [done|].
    rewrite Ha, <- app_assoc. simpl. by rewrite DeepCopy_NewInstance.
  - injection Hv as <- <-. split; [eauto|]. split; [|done]. eauto.
Qed.

(** X16: a copy of a mapper refers to the same mesh, input, mask, working
    surface and fixed mask as the original and has the same partition, but a
    value array of its own, a new array that holds what the original's
    holds; copying changes no object that exists. *)
Theorem CopyAttributes_gives_own_values (this other c : @SurfaceMapper T) h h' :
  allocates_only NewCopy ->
  CopyAttributes NewCopy this other h = Ok (c, h') ->
  (_Mesh c = _Mesh other /\ _Input c = _Input other /\ _Mask c = _Mask other /\
   _Surface c = _Surface other /\ _Fixed c = _Fixed other /\
   _FixedPoints c = _FixedPoints other /\ _FreePoints c = _FreePoints other /\
   _PointIndex c = _PointIndex other) /\
  (forall l, (l < length (meshes h))%nat -> meshes h' !! l = meshes h !! l) /\
  (forall l, (l < length (arrays h))%nat -> arrays h' !! l = arrays h !! l) /\
  (_Values other = None -> _Values c = None) /\
  (forall lo, _Values other = Some lo ->
     exists lc a, _Values c = Some lc /\ lc <> lo /\ (length (arrays h) <= lc)%nat /\
                  arrays h !! lo = Some a /\ arrays h' !! lc = Some a).
Proof.
  intros Halloc H.
  apply (CopyAttributes_Ok this other c h h' Halloc) in H as ([tlm Hm] & Hv & Hc).
  split. { rewrite Hc. simpl. by repeat split. }
  split. { intros l Hl. rewrite Hm. by apply lookup_app_l. }
  destruct (_Values other) as [lo|].
  - destruct Hv as (a & tl & Hlo & Hvc & Ha).
    split. { intros l Hl. rewrite Ha. by apply lookup_app_l. }
    split; [done|]. intros ? [= <-].
    exists (length (arrays h)), a. pose proof (lookup_lt_Some _ _ _ Hlo).
    split; [done|]. split; [lia|]. split; [done|]. split; [done|].
    rewrite Ha. by apply list_lookup_middle.
  - destruct Hv as (Hvc & tl & Ha).
    split. { intros l Hl. rewrite Ha. by apply lookup_app_l. }
    split; done.
Qed.

(** X17: [Solve] on a copy writes the copy's value array only: every array
    that existed before the copy was made, the value array of the original
    among them, holds afterwards what it held. *)
Theorem Solve_on_copy_keeps_original (this other c c2 : @SurfaceMapper T) h h' h2 :
  allocates_only NewCopy ->
  CopyAttributes NewCopy this other h = Ok (c, h') ->
  Solve Weight solveWithGuess c h' = Ok (c2, h2) ->
  (forall l, (l < length (arrays h))%nat -> arrays h2 !! l = arrays h !! l) /\
  values_of other h2 = values_of other h.
Proof.
  intros Halloc Hcopy Hsolve.
  apply (CopyAttributes_Ok this other c h h' Halloc) in Hcopy as (_ & Hv & _).
  apply Solve_Ok in Hsolve as (ls & surface & lv & values & x & _ & _ & Hlv & _ & -> & ->).
  assert (Hold : forall l, (l < length (arrays h))%nat ->
            arrays (put_array lv (write_back c x (NumberOfFreePoints c)
                                    (NumberOfComponents values) values) h') !! l
            = arrays h !! l).
  { intros l Hl. destruct (_Values other) as [lo|].
    - destruct Hv as (a & tl & _ & Hvc & Ha). rewrite Hvc in Hlv. injection Hlv as <-.
      simpl. rewrite list_lookup_insert_ne by lia. rewrite Ha. by apply lookup_app_l.
    - destruct Hv as (Hvc & _). congruence. }
  split; [done|].
  unfold values_of. destruct (_Values other) as [lo|] eqn:Hlo; [|done]. simpl.
  destruct Hv as (a & tl & Ha & _). apply Hold. by apply lookup_lt_Some in Ha.
Qed.

End CopiedMapper.

(** * The further properties on concrete meshes *)

Section ConcreteChecks.

Import Examples MoreExamples.

Lemma Initialize_completes_iff_witness :
  pointers_valid corner_mapper corner_store /\
  (exists m' h', Initialize NameOfType corner_mapper corner_store = Ok (m', h')) /\
  pointers_valid triangle_mapper short_store /\
  Initialize NameOfType triangle_mapper short_store = Undefined.
Proof.
  assert (Hv : pointers_valid corner_mapper corner_store).
  { repeat split; intros l Hl; simpl in Hl; try discriminate;
      injection Hl as <-; eexists; reflexivity. }
  assert (Ha : Initialize_accepts corner_mapper corner_store).
  { exists 0%nat, grid, 0%nat, grid_input. repeat split; try reflexivity.
    - vm_compute. discriminate.
    - intros lf fixed Hlf. simpl in Hlf. discriminate. }
  assert (Hr : mask_readable corner_mapper corner_store).
  { intros lk mask lm mesh Hlk Hmk Hlm Hmesh. simpl in Hlk, Hlm.
    injection Hlk as <-. injection Hlm as <-. simpl in Hmk, Hmesh.
    injection Hmk as <-. injection Hmesh as <-. vm_compute. lia. }
  assert (Hv' : pointers_valid triangle_mapper short_store).
  { repeat split; intros l Hl; simpl in Hl; try discriminate;
      injection Hl as <-; eexists; reflexivity. }
  assert (Ha' : Initialize_accepts triangle_mapper short_store).
  { exists 0%nat, triangle, 0%nat, triangle_input. repeat split; try reflexivity.
    - vm_compute. discriminate.
    - intros lf fixed Hlf. simpl in Hlf. discriminate. }
  assert (Hr' : ~ mask_readable triangle_mapper short_store).
  { intros Hread.
    pose proof (Hread 1%nat short_mask 0%nat triangle eq_refl eq_refl eq_refl eq_refl) as Hle.
    vm_compute in Hle. lia. }
  split; [exact Hv|].
  split; [apply (proj2 (proj1 (Initialize_completes_iff NameOfType _ _ Hv)) (conj Ha Hr))|].
  split; [exact Hv'|].
  apply (proj2 (Initialize_completes_iff NameOfType _ _ Hv') Ha' Hr').
Defined.

Lemma Initialize_exit_names_violation_witness :
  Initialize NameOfType grid_mapper polyline_store =
    Exit 1 "SurfaceMapper::Initialize: Input point set must be a surface mesh" /\
  Initialize NameOfType empty_mapper grid_store =
    Exit 1 "SurfaceMapper::Initialize: Missing input surface mesh" /\
  (1 = 1)%Z.
Proof.
  assert (H1 : Initialize NameOfType grid_mapper polyline_store =
                 Exit 1 "SurfaceMapper::Initialize: Input point set must be a surface mesh")
    by (vm_compute; reflexivity).
  assert (H2 : Initialize NameOfType empty_mapper grid_store =
                 Exit 1 "SurfaceMapper::Initialize: Missing input surface mesh")
    by (vm_compute; reflexivity).
  split; [exact H1|]. split; [exact H2|].
  exact (proj1 (Initialize_exit_names_violation NameOfType _ _ _ _ H1)).
Defined.

Lemma Initialize_lists_ascending_witness :
  Initialize NameOfType corner_mapper corner_store = Ok corner_initialized /\
  FreePointId corner_initialized.1 1 < FreePointId corner_initialized.1 3.
Proof.
  assert (H : Initialize NameOfType corner_mapper corner_store
              = Ok (corner_initialized.1, corner_initialized.2)) by (vm_compute; reflexivity).
  split; [exact H|].
  apply (proj1 (Initialize_lists_ascending NameOfType _ _ _ _ H)); vm_compute; lia.
Defined.

Lemma Initialize_adopts_caller_mask_witness :
  Initialize NameOfType corner_mapper corner_store = Ok corner_initialized /\
  _Mask corner_mapper = Some 1%nat /\ arrays corner_store !! 1%nat = Some corner_mask /\
  _Fixed corner_initialized.1 = Some 1%nat /\
  arrays corner_initialized.2 !! 1%nat = Some corner_mask.
Proof.
  assert (H : Initialize NameOfType corner_mapper corner_store
              = Ok (corner_initialized.1, corner_initialized.2)) by (vm_compute; reflexivity).
  split; [exact H|]. split; [reflexivity|]. split; [reflexivity|].
  destruct (Initialize_adopts_caller_mask NameOfType _ _ _ _ 1%nat corner_mask H
              eq_refl eq_refl) as (Hf & Ha & _).
  split; [exact Hf | exact Ha].
Defined.

Lemma Initialize_copies_input_witness :
  Initialize NameOfType grid_mapper grid_store = Ok grid_initialized /\
  values_of grid_initialized.1 grid_initialized.2 = Some grid_input.
Proof.
  assert (H : Initialize NameOfType grid_mapper grid_store
              = Ok (grid_initialized.1, grid_initialized.2)) by (vm_compute; reflexivity).
  split; [exact H|].
  destruct (Initialize_copies_input NameOfType _ _ _ _ H)
    as (li & input & lv & Hli & Hin & Hv & _ & _ & Hcopy & _).
  vm_compute in Hli. injection Hli as <-. vm_compute in Hin. injection Hin as <-.
  unfold values_of. rewrite Hv. exact Hcopy.
Defined.

Lemma Solve_changes_values_only_witness :
  Solve unit_weight rhs_solver grid_initialized.1 grid_initialized.2 = Ok grid_solved /\
  grid_solved.1 = grid_initialized.1 /\
  meshes grid_solved.2 = meshes grid_initialized.2 /\
  arrays grid_solved.2 !! 2%nat = arrays grid_initialized.2 !! 2%nat.
Proof.
  assert (H : Solve unit_weight rhs_solver grid_initialized.1 grid_initialized.2
              = Ok (grid_solved.1, grid_solved.2)) by (vm_compute; reflexivity).
  split; [exact H|].
  destruct (Solve_changes_values_only unit_weight rhs_solver _ _ _ _ H)
    as (Hm & Hms & _ & lv & before & after & Hlv & _ & _ & _ & _ & _ & Hother).
  split; [exact Hm|]. split; [exact Hms|].
  apply Hother. vm_compute in Hlv. injection Hlv as <-. discriminate.
Defined.

Lemma Solve_stores_solution_witness :
  Initialize NameOfType triangle_mapper float_store = Ok float_initialized /\
  Solve unit_weight rhs_solver float_initialized.1 float_initialized.2 = Ok float_solved /\
  well_shaped float_input /\
  FreePointId float_initialized.1 0 = 2 /\
  dense_get (assemble unit_weight float_initialized.1 triangle float_input 1 1
               (EdgeTable triangle)).2 0 0 = 16777217 /\
  GetValue (default float_input (values_of float_solved.1 float_solved.2)) 2 0 = 16777216.
Proof.
  assert (H : Initialize NameOfType triangle_mapper float_store
              = Ok (float_initialized.1, float_initialized.2)) by (vm_compute; reflexivity).
  assert (H' : Solve unit_weight rhs_solver float_initialized.1 float_initialized.2
               = Ok (float_solved.1, float_solved.2)) by (vm_compute; reflexivity).
  assert (Hshape : well_shaped float_input) by (repeat constructor).
  split; [exact H|]. split; [exact H'|]. split; [exact Hshape|]. split; [reflexivity|].
  split; [vm_compute; reflexivity|].
  destruct (Solve_stores_solution NameOfType unit_weight rhs_solver _ _ _ _ _ _ H H')
    as (input & surface & after & Hin & Hs & Hafter & _ & _ & Hsol & _).
  vm_compute in Hin. injection Hin as <-.
  vm_compute in Hs. injection Hs as <-.
  rewrite Hafter.
  assert (H0 : (0 < NumberOfFreePoints float_initialized.1)%nat) by (vm_compute; lia).
  assert (H1 : (0 < NumberOfComponents float_input)%nat) by (vm_compute; lia).
  pose proof (Hsol Hshape 0%nat 0%nat H0 H1) as Heq.
  etransitivity; [exact Heq|]. vm_compute. reflexivity.
Defined.

Lemma Run_stops_only_in_Initialize_witness :
  Initialize NameOfType grid_mapper polyline_store =
    Exit 1 "SurfaceMapper::Initialize: Input point set must be a surface mesh" /\
  Run NameOfType unit_weight rhs_solver grid_mapper polyline_store =
    Exit 1 "SurfaceMapper::Initialize: Input point set must be a surface mesh".
Proof.
  assert (H1 : Initialize NameOfType grid_mapper polyline_store =
                 Exit 1 "SurfaceMapper::Initialize: Input point set must be a surface mesh")
    by (vm_compute; reflexivity).
  split; [exact H1|].
  apply (proj2 (Run_stops_only_in_Initialize NameOfType unit_weight rhs_solver
                  grid_mapper polyline_store)). exact H1.
Defined.

Lemma Run_output_witness :
  Run NameOfType unit_weight rhs_solver grid_mapper grid_store = Ok grid_run /\
  _Output grid_run.1 = Some (mkPiecewiseLinearMap (Some 1%nat) (Some 1%nat)) /\
  exists values, arrays grid_run.2 !! 1%nat = Some values /\ GetNumberOfTuples values = 9%nat.
Proof.
  assert (H : Run NameOfType unit_weight rhs_solver grid_mapper grid_store
              = Ok (grid_run.1, grid_run.2)) by (vm_compute; reflexivity).
  split; [exact H|].
  destruct (Run_output NameOfType unit_weight rhs_solver _ _ _ _ H)
    as (input & ls & surface & lv & values & _ & Hout & Hs & Hv & _ & _ & Hsurf & Hval & _ & _
        & Htup).
  vm_compute in Hs. injection Hs as <-. vm_compute in Hv. injection Hv as <-.
  split; [exact Hout|]. exists values. split; [exact Hval|].
  rewrite Htup. vm_compute in Hsurf. injection Hsurf as <-. reflexivity.
Defined.

Lemma Solve_with_every_point_fixed_witness :
  Initialize NameOfType corner_mapper full_store = Ok full_initialized /\
  fixed_of full_initialized.1 full_initialized.2 = Some full_mask /\
  NumberOfFreePoints full_initialized.1 = 0%nat /\
  Solve unit_weight rhs_solver full_initialized.1 full_initialized.2 = Ok full_initialized.
Proof.
  assert (H : Initialize NameOfType corner_mapper full_store
              = Ok (full_initialized.1, full_initialized.2)) by (vm_compute; reflexivity).
  assert (Hf : fixed_of full_initialized.1 full_initialized.2 = Some full_mask)
    by (vm_compute; reflexivity).
  assert (Hs : surface_of full_initialized.1 full_initialized.2 = Some corner_surface)
    by (vm_compute; reflexivity).
  split; [exact H|]. split; [exact Hf|].
  destruct (Solve_with_every_point_fixed NameOfType unit_weight rhs_solver _ _ _ _
              corner_surface full_mask H Hs Hf) as (Hn & _ & Hsolve).
  - intros i Hi.
    assert (Hall : Forall (fun i => IsFixedPoint full_mask i = true) (seq 0 9)) by compute_done.
    apply (proj1 (Forall_forall _ _) Hall). apply elem_of_seq.
    change (GetNumberOfPoints corner_surface) with 9%nat in Hi. lia.
  - split; [exact Hn | exact Hsolve].
Defined.

Lemma Run_twice_same_values_witness :
  mask_fits corner_mapper corner_store /\
  Run NameOfType unit_weight rhs_solver corner_mapper corner_store = Ok corner_run /\
  exists m2 h2,
    Run NameOfType unit_weight rhs_solver corner_run.1 corner_run.2 = Ok (m2, h2) /\
    values_of m2 h2 = values_of corner_run.1 corner_run.2.
Proof.
  assert (Hfit : mask_fits corner_mapper corner_store)
    by (exists corner_mask, 0%nat, grid; repeat split).
  assert (H : Run NameOfType unit_weight rhs_solver corner_mapper corner_store
              = Ok (corner_run.1, corner_run.2)) by (vm_compute; reflexivity).
  split; [exact Hfit|]. split; [exact H|].
  destruct (Run_twice_same_values NameOfType unit_weight rhs_solver corner_mapper corner_store
              corner_run.1 corner_run.2 (fun _ _ _ _ _ _ => eq_refl) Hfit H)
    as (m2 & h2 & v & H2 & Hv1 & Hv2).
  exists m2, h2. split; [exact H2|]. by rewrite Hv1, Hv2.
Defined.

End ConcreteChecks.

Section ConcreteSystems.

Import Examples MoreExamples.

Lemma corner_edges_in_range :
  forall i j, (i, j) ∈ EdgeTable corner_surface ->
    i <> j /\ (i < GetNumberOfPoints corner_surface)%nat /\
    (j < GetNumberOfPoints corner_surface)%nat.
Proof.
  intros i j Hin.
  assert (Hall : Forall (fun e => e.1 <> e.2 /\ (e.1 < 9)%nat /\ (e.2 < 9)%nat)
                   (EdgeTable corner_surface)) by compute_done.
  apply (proj1 (Forall_forall _ _) Hall (i, j) Hin).
Defined.

Lemma triplets_fit_matrix_witness :
  Initialize NameOfType corner_mapper corner_store = Ok corner_initialized /\
  surface_of corner_initialized.1 corner_initialized.2 = Some corner_surface /\
  length (triplets unit_weight corner_initialized.1 corner_surface corner_values
            (NumberOfFreePoints corner_initialized.1) 2 (EdgeTable corner_surface))
  = 17%nat.
Proof.
  assert (H : Initialize NameOfType corner_mapper corner_store
              = Ok (corner_initialized.1, corner_initialized.2)) by (vm_compute; reflexivity).
  assert (Hs : surface_of corner_initialized.1 corner_initialized.2 = Some corner_surface)
    by (vm_compute; reflexivity).
  split; [exact H|]. split; [exact Hs|].
  destruct (triplets_fit_matrix NameOfType unit_weight _ _ _ _ corner_surface corner_values 2
              (EdgeTable corner_surface) H Hs) as (_ & Hlen & _).
  - intros i j Hin. destruct (corner_edges_in_range i j Hin) as (? & ? & ?). auto.
  - rewrite Hlen. vm_compute. reflexivity.
Defined.

Lemma assemble_symmetric_witness :
  Initialize NameOfType corner_mapper corner_store = Ok corner_initialized /\
  (1%nat, 4%nat) ∈ EdgeTable corner_surface /\
  FreePointIndex corner_initialized.1 1 = 0 /\
  FreePointIndex corner_initialized.1 4 = 2 /\
  coeff (assemble unit_weight corner_initialized.1 corner_surface grid_input 5 2
           (EdgeTable corner_surface)).1 0 2 = -1 /\
  coeff (assemble unit_weight corner_initialized.1 corner_surface grid_input 5 2
           (EdgeTable corner_surface)).1 2 0 = -1 /\
  (0, 2, -1) ∈ triplets unit_weight corner_initialized.1 corner_surface grid_input 5 2
                 (EdgeTable corner_surface).
Proof.
  assert (H : Initialize NameOfType corner_mapper corner_store
              = Ok (corner_initialized.1, corner_initialized.2)) by (vm_compute; reflexivity).
  assert (Hs : surface_of corner_initialized.1 corner_initialized.2 = Some corner_surface)
    by (vm_compute; reflexivity).
  assert (Hin : (1%nat, 4%nat) ∈ EdgeTable corner_surface) by compute_done.
  assert (Hpolys : forall c v, c ∈ Polys corner_surface -> v ∈ c ->
                     (v < GetNumberOfPoints corner_surface)%nat).
  { intros c v Hc Hv.
    assert (Hall : Forall (fun c => Forall (fun v => (v < 9)%nat) c) (Polys corner_surface))
      by compute_done.
    apply (proj1 (Forall_forall _ _) (proj1 (Forall_forall _ _) Hall c Hc) v Hv). }
  split; [exact H|]. split; [exact Hin|]. split; [reflexivity|]. split; [reflexivity|].
  destruct (assemble_symmetric NameOfType unit_weight corner_initialized.1 corner_surface
              grid_input 5 2 (EdgeTable corner_surface)) as (_ & Hpush & _ & Hsolve).
  destruct (Hsolve corner_mapper corner_store corner_initialized.2 1%nat 4%nat
              H Hs Hpolys eq_refl Hin) as [Hrc Hcr].
  - vm_compute. discriminate.
  - vm_compute. discriminate.
  - split; [exact Hrc|]. split; [exact Hcr|].
    apply (Hpush 1%nat 4%nat Hin); vm_compute; discriminate.
Defined.

Lemma off_diagonal_entry_witness :
  Initialize NameOfType corner_mapper corner_store = Ok corner_initialized /\
  EdgeTable corner_surface =
    take 6 (EdgeTable corner_surface) ++ (1%nat, 4%nat) :: drop 7 (EdgeTable corner_surface) /\
  FreePointIndex corner_initialized.1 1 = 0 /\ FreePointIndex corner_initialized.1 4 = 2 /\
  coeff (assemble unit_weight corner_initialized.1 corner_surface corner_values
           (NumberOfFreePoints corner_initialized.1) 2 (EdgeTable corner_surface)).1 0 2 = -1.
Proof.
  assert (H : Initialize NameOfType corner_mapper corner_store
              = Ok (corner_initialized.1, corner_initialized.2)) by (vm_compute; reflexivity).
  assert (Hs : surface_of corner_initialized.1 corner_initialized.2 = Some corner_surface)
    by (vm_compute; reflexivity).
  assert (Hsplit : EdgeTable corner_surface =
            take 6 (EdgeTable corner_surface) ++ (1%nat, 4%nat)
              :: drop 7 (EdgeTable corner_surface)) by (vm_compute; reflexivity).
  split; [exact H|]. split; [exact Hsplit|]. split; [reflexivity|]. split; [reflexivity|].
  destruct (off_diagonal_entry NameOfType unit_weight _ _ _ _ corner_surface corner_values 2
              (EdgeTable corner_surface) 1 4 H Hs) as [_ Hone].
  - intros i j Hin. destruct (corner_edges_in_range i j Hin) as (? & ? & ?). auto.
  - vm_compute. lia.
  - vm_compute. lia.
  - discriminate.
  - vm_compute. discriminate.
  - vm_compute. discriminate.
  - apply (Hone _ (1%nat, 4%nat) _ Hsplit).
    + left. split; reflexivity.
    + intros e' He'.
      assert (Hall : Forall (fun e => ~ ((e.1 = 1%nat /\ e.2 = 4%nat) \/
                                         (e.1 = 4%nat /\ e.2 = 1%nat)))
                       (take 6 (EdgeTable corner_surface) ++ drop 7 (EdgeTable corner_surface)))
        by compute_done.
      apply (proj1 (Forall_forall _ _) Hall e' He').
Defined.

Lemma right_hand_side_is_dirichlet_sum_witness :
  Initialize NameOfType corner_mapper corner_store = Ok corner_initialized /\
  IsFixedPoint corner_fixed 1 = false /\
  dense_get (assemble unit_weight corner_initialized.1 corner_surface corner_values
               (NumberOfFreePoints corner_initialized.1) 2 (EdgeTable corner_surface)).2
            (Z.to_nat (FreePointIndex corner_initialized.1 1)) 0 = 2.
Proof.
  assert (H : Initialize NameOfType corner_mapper corner_store
              = Ok (corner_initialized.1, corner_initialized.2)) by (vm_compute; reflexivity).
  assert (Hs : surface_of corner_initialized.1 corner_initialized.2 = Some corner_surface)
    by (vm_compute; reflexivity).
  assert (Hf : fixed_of corner_initialized.1 corner_initialized.2 = Some corner_fixed)
    by (vm_compute; reflexivity).
  split; [exact H|]. split; [reflexivity|].
  rewrite (right_hand_side_is_dirichlet_sum NameOfType unit_weight _ _ _ _ corner_surface
             corner_fixed corner_values 2 (EdgeTable corner_surface) 1 0 H Hs Hf).
  - vm_compute. reflexivity.
  - intros i j Hin. destruct (corner_edges_in_range i j Hin) as (? & ? & ?). auto.
  - vm_compute. lia.
  - reflexivity.
  - lia.
Defined.

Lemma isolated_free_point_row_witness :
  Initialize NameOfType grid_mapper loose_store = Ok loose_initialized /\
  IsFixedPoint loose_fixed 9 = false /\
  FreePointIndex loose_initialized.1 9 = 1 /\
  coeff (assemble unit_weight loose_initialized.1 loose_surface loose_values
           (NumberOfFreePoints loose_initialized.1) 2 (EdgeTable loose_surface)).1 1 1 = 0.
Proof.
  assert (H : Initialize NameOfType grid_mapper loose_store
              = Ok (loose_initialized.1, loose_initialized.2)) by (vm_compute; reflexivity).
  assert (Hs : surface_of loose_initialized.1 loose_initialized.2 = Some loose_surface)
    by (vm_compute; reflexivity).
  assert (Hf : fixed_of loose_initialized.1 loose_initialized.2 = Some loose_fixed)
    by (vm_compute; reflexivity).
  split; [exact H|]. split; [reflexivity|]. split; [reflexivity|].
  destruct (isolated_free_point_row NameOfType unit_weight _ _ _ _ loose_surface loose_fixed
              loose_values 2 (EdgeTable loose_surface) 9 H Hs Hf) as (_ & Hdiag & _).
  - intros i j Hin.
    assert (Hall : Forall (fun e => e.1 <> e.2 /\ (e.1 < 10)%nat /\ (e.2 < 10)%nat)
                     (EdgeTable loose_surface)) by compute_done.
    apply (proj1 (Forall_forall _ _) Hall (i, j) Hin).
  - vm_compute. lia.
  - reflexivity.
  - intros e He.
    assert (Hall : Forall (fun e => ~ (e.1 = 9%nat \/ e.2 = 9%nat)) (EdgeTable loose_surface))
      by compute_done.
    apply (proj1 (Forall_forall _ _) Hall e He).
  - unfold coeff. change (FreePointIndex loose_initialized.1 9) with 1 in Hdiag.
    rewrite Hdiag. reflexivity.
Defined.

Lemma same_map_allocates_only : allocates_only same_map.
Proof. intros o h. split; exists []; simpl; by rewrite app_nil_r. Defined.

Lemma CopyAttributes_gives_own_values_witness :
  exists c h',
    CopyAttributes same_map grid_mapper grid_solved.1 grid_solved.2 = Ok (c, h') /\
    _Values grid_solved.1 = Some 1%nat /\ _Values c = Some 3%nat /\
    arrays h' !! 3%nat = arrays grid_solved.2 !! 1%nat.
Proof.
  assert (H : exists r, CopyAttributes same_map grid_mapper grid_solved.1 grid_solved.2 = Ok r)
    by (eexists; vm_compute; reflexivity).
  destruct H as [[c h'] H]. exists c, h'. split; [exact H|]. split; [reflexivity|].
  destruct (CopyAttributes_gives_own_values same_map grid_mapper grid_solved.1 c
              grid_solved.2 h' same_map_allocates_only H) as (_ & _ & _ & _ & Hv).
  destruct (Hv 1%nat eq_refl) as (lc & a & Hlc & _ & _ & Ha & Ha').
  vm_compute in H. injection H as <- <-. vm_compute in Hlc. injection Hlc as <-.
  split; [reflexivity|]. rewrite Ha, Ha'. reflexivity.
Defined.

Lemma Solve_on_copy_keeps_original_witness :
  exists c h' c2 h2,
    CopyAttributes same_map grid_mapper grid_initialized.1 grid_initialized.2 = Ok (c, h') /\
    Solve unit_weight rhs_solver c h' = Ok (c2, h2) /\
    values_of grid_initialized.1 h2 = Some grid_input.
Proof.
  assert (H : exists r,
            CopyAttributes same_map grid_mapper grid_initialized.1 grid_initialized.2 = Ok r)
    by (eexists; vm_compute; reflexivity).
  destruct H as [[c h'] H].
  assert (H' : exists r, Solve unit_weight rhs_solver c h' = Ok r).
  { vm_compute in H. injection H as <- <-. eexists. vm_compute. reflexivity. }
  destruct H' as [[c2 h2] H']. exists c, h', c2, h2.
  split; [exact H|]. split; [exact H'|].
  destruct (Solve_on_copy_keeps_original same_map unit_weight rhs_solver grid_mapper
              grid_initialized.1 c c2 grid_initialized.2 h' h2 same_map_allocates_only H H')
    as [_ Hv].
  rewrite Hv. vm_compute. reflexivity.
Defined.

End ConcreteSystems.
